(** * MemoryFile: encryption envelope, content addressing, commit chain, save

    A shallow embedding of the parts of the MemoryFile repository that carry
    correctness obligations:

    - [Core]: [lib/html-sqlite-core.js], class [MemoryFile]
      ([isEncryptedData], [deriveKey], [encryptData], [decryptData],
      [saveToFile]);
    - [CoreStorage]: the IndexedDB-persisting variant of [saveToFile];
    - [Trust]: [lib/trust-manager.js], class [TrustManager]
      ([extractHashFromFilename], [normalizeHTML], [generateContentHash],
      [renderBadge], [verify], [generateCommitFilename]); the regular
      expression [normalizeHTML] builds from a selector is run here when the
      selector consists of letters, digits, [-], [_], [#] and [.], and by the
      engine of the host otherwise;
    - [Commits]: the commit cycle of [MemoryFileSimulator]
      ([ensureInitialCommit], [addEntry], [clearData]);
    - [Base64]: the host's [btoa] and [atob] with [uint8ArrayToBase64] and
      [base64ToUint8Array];
    - [CoreLoad]: the loading side of [MemoryFile] ([initSQL],
      [loadEmbeddedDatabase], [decompress], [changePassword], [close],
      [exportDatabase], [getDatabaseSize]);
    - [CoreStorageLoad]: the reading side of the persisting variant
      ([loadFromStorage], [clearStorage], [hasStoredData], [save] and its
      [loadEmbeddedDatabase]);
    - [CommitsState]: the queries of the simulator with [exportState] and
      [importState].

    JavaScript strings are modelled as Rocq strings whose characters are the
    code units U+0000..U+00FF, except passwords, which are kept with all
    their 16-bit code units ([DOMString]): [TextEncoder] replaces a surrogate
    without its partner, so that the bytes a key is derived from do not
    determine the password.  A [Uint8Array] is a [list byte].  Methods that
    read or write object fields or call the host are functions in a state and
    exception monad: a thrown exception keeps the mutations made before it. *)

From Stdlib Require Import String Ascii Strings.Byte NArith ZArith Bool Arith Lia List.
From Stdlib Require Import DecimalString.
Import ListNotations.

Local Open Scope string_scope.
Local Open Scope list_scope.

(** ** Exceptions and the state monad *)

(** A JavaScript [Error] (or [DOMException]): its [name] and [message]. *)
Record JsError : Type := mkError { name : string; message : string }.

Definition Error (msg : string) : JsError := mkError "Error" msg.

Inductive Outcome (A : Type) : Type :=
| Returned (a : A)
| Thrown (e : JsError).
Arguments Returned {A} a.
Arguments Thrown {A} e.

Definition Eff (S A : Type) : Type := S -> Outcome A * S.

Definition ret {S A} (a : A) : Eff S A := fun s => (Returned a, s).

Definition throw {S A} (e : JsError) : Eff S A := fun s => (Thrown e, s).

Definition bind {S A B} (m : Eff S A) (k : A -> Eff S B) : Eff S B :=
  fun s => match m s with
           | (Returned a, s') => k a s'
           | (Thrown e, s') => (Thrown e, s')
           end.

(** [try { m } catch (error) { h error }] *)
Definition try_catch {S A} (m : Eff S A) (h : JsError -> Eff S A) : Eff S A :=
  fun s => match m s with
           | (Returned a, s') => (Returned a, s')
           | (Thrown e, s') => h e s'
           end.

Definition get {S} : Eff S S := fun s => (Returned s, s).

Definition modify {S} (f : S -> S) : Eff S unit := fun s => (Returned tt, f s).

Declare Scope eff_scope.
Delimit Scope eff_scope with eff.
Notation "x <- m ;; k" := (bind m (fun x => k))
  (at level 61, m at next level, right associativity) : eff_scope.
Notation "m ;;; k" := (bind m (fun _ => k))
  (at level 61, right associativity) : eff_scope.

(** ** Bytes, typed arrays and strings *)

Definition byte_of_N (n : N) : byte := byte_of_ascii (ascii_of_N n).

(** [a.slice(from, to)] on a typed array or string, for [0 <= from <= to]. *)
Definition slice {A} (from to : nat) (l : list A) : list A :=
  firstn (to - from) (skipn from l).

(** [new Uint8Array(n)]: [n] zero bytes. *)
Definition new_Uint8Array (n : nat) : list byte := repeat x00 n.

(** [dst.set(src, offset)]: overwrite in place, [RangeError] when [src] does
    not fit. *)
Definition typed_set (dst src : list byte) (offset : nat) : option (list byte) :=
  if (offset + length src <=? length dst)%nat
  then Some (firstn offset dst ++ src ++ skipn (offset + length src) dst)
  else None.

(** [a[i] = b] on a typed array: ignored when [i] is out of range. *)
Definition typed_store (dst : list byte) (i : nat) (b : byte) : list byte :=
  if (i <? length dst)%nat
  then firstn i dst ++ b :: skipn (S i) dst
  else dst.

(** [a[i] === b], false when [a[i]] is [undefined]. *)
Definition byte_at_is (a : list byte) (i : nat) (b : byte) : bool :=
  match nth_error a i with
  | Some x => Byte.eqb x b
  | None => false
  end.

(** [new TextEncoder().encode(s)]: UTF-8 of the code units of [s]. *)
Definition utf8_of_code_unit (c : ascii) : list byte :=
  let n := N_of_ascii c in
  if (n <? 128)%N then [byte_of_ascii c]
  else [byte_of_N (192 + n / 64); byte_of_N (128 + n mod 64)].

Fixpoint TextEncoder_encode (s : string) : list byte :=
  match s with
  | EmptyString => []
  | String c s' => utf8_of_code_unit c ++ TextEncoder_encode s'
  end.

(** A JavaScript string with all its 16-bit code units, each by its high
    and its low byte. *)
Definition code_unit : Type := (byte * byte)%type.
Definition DOMString : Type := list code_unit.

Definition unit_value (u : code_unit) : N :=
  (256 * Byte.to_N (fst u) + Byte.to_N (snd u))%N.

(** A string literal of code units below U+0100 as a [DOMString]. *)
Definition wide (s : string) : DOMString :=
  map (fun c => (x00, byte_of_ascii c)) (list_ascii_of_string s).

(** The surrogates: U+D800..U+DBFF lead, U+DC00..U+DFFF trail. *)
Definition is_lead (c : N) : bool := ((55296 <=? c) && (c <=? 56319))%N.
Definition is_trail (c : N) : bool := ((56320 <=? c) && (c <=? 57343))%N.

(** The scalar values [TextEncoder] reads from a string: a lead surrogate
    followed by a trail surrogate is one character beyond U+FFFF, any other
    surrogate is replaced by U+FFFD. *)
Fixpoint scalar_values (s : DOMString) : list N :=
  match s with
  | [] => []
  | u :: rest =>
      let c := unit_value u in
      if is_lead c
      then match rest with
           | d :: rest' =>
               if is_trail (unit_value d)
               then (65536 + (c - 55296) * 1024 + (unit_value d - 56320))%N
                    :: scalar_values rest'
               else 65533%N :: scalar_values rest
           | [] => [65533%N]
           end
      else if is_trail c then 65533%N :: scalar_values rest
      else c :: scalar_values rest
  end.

(** UTF-8 of one scalar value. *)
Definition utf8_of_scalar (n : N) : list byte :=
  (if n <? 128 then [byte_of_N n]
   else if n <? 2048 then [byte_of_N (192 + n / 64); byte_of_N (128 + n mod 64)]
   else if n <? 65536
   then [byte_of_N (224 + n / 4096); byte_of_N (128 + (n / 64) mod 64);
         byte_of_N (128 + n mod 64)]
   else [byte_of_N (240 + n / 262144); byte_of_N (128 + (n / 4096) mod 64);
         byte_of_N (128 + (n / 64) mod 64); byte_of_N (128 + n mod 64)])%N.

(** [new TextEncoder().encode(s)] on a string of any code units. *)
Definition TextEncoder_encode_units (s : DOMString) : list byte :=
  flat_map utf8_of_scalar (scalar_values s).

(** No surrogate stands without its partner. *)
Fixpoint well_formed (s : DOMString) : bool :=
  match s with
  | [] => true
  | u :: rest =>
      let c := unit_value u in
      if is_lead c
      then match rest with
           | d :: rest' => is_trail (unit_value d) && well_formed rest'
           | [] => false
           end
      else negb (is_trail c) && well_formed rest
  end.

(** A number in a template literal: [`${n}`]. *)
Definition string_of_N (n : N) : string := NilEmpty.string_of_uint (N.to_uint n).



(** ** The host's cryptographic provider ([crypto.subtle]) *)

Class SubtleCrypto : Type := {
  CryptoKey : Type;
  (** [importKey('raw', pw, 'PBKDF2')] then
      [deriveKey({PBKDF2, salt, iterations, SHA-256}, _, {AES-GCM, 256})] *)
  pbkdf2 : list byte -> list byte -> N -> CryptoKey;
  (** [encrypt({AES-GCM, iv}, key, data)]: ciphertext followed by the tag *)
  aes_gcm_encrypt : CryptoKey -> list byte -> list byte -> list byte;
  (** [decrypt({AES-GCM, iv}, key, data)]: [None] when it rejects *)
  aes_gcm_decrypt : CryptoKey -> list byte -> list byte -> option (list byte);
  (** [digest('SHA-256', data)] *)
  sha256 : list byte -> list byte;
}.

(** What the provider is assumed to do. *)
Definition aead_correct (SC : SubtleCrypto) : Prop :=
  forall k iv p, aes_gcm_decrypt k iv (aes_gcm_encrypt k iv p) = Some p.

Definition aead_tag_length (SC : SubtleCrypto) (tag : nat) : Prop :=
  forall k iv p, length (aes_gcm_encrypt k iv p) = (length p + tag)%nat.

Definition sha256_is_32_bytes (SC : SubtleCrypto) : Prop :=
  forall data, length (sha256 data) = 32%nat.




(** ** [lib/html-sqlite-core.js]: class [MemoryFile] *)

Module Core.

(** [persistToStorage] and [storageKey] exist in the IndexedDB-persisting
    variant of the class only. *)
Record Options : Type := {
  embedId : string;
  compression : bool;
  encrypted : bool;
  persistToStorage : bool;
  storageKey : option string;
}.

(** The object stored in [this.encryptionMetadata]; [decryptData] leaves the
    timestamp out. *)
Record EncryptionMetadata : Type := {
  version : N;
  algorithm : string;
  kdf : string;
  iterations : N;
  timestamp : option string;
}.

(** The fields of a [MemoryFile]; the database is the opaque engine's image,
    the bytes [db.export()] returns. *)
Record MemoryFile : Type := {
  db : option (list byte);
  options : Options;
  currentPassword : option DOMString;
  encryptionMetadata : option EncryptionMetadata;
}.

(** [typeof crypto] and [typeof crypto.subtle]. *)
Inductive CryptoSupport : Type :=
| CryptoUndefined
| SubtleUndefined
| WebCrypto.

Inductive HostCall : Type :=
| GetRandomValues (n : nat)
| ImportKey
| DeriveKey
| Encrypt
| Decrypt.

(** The interactive save: [showSaveFilePicker], [createWritable], [write],
    [close], any of which may reject. *)
Inductive DialogStep : Type := AtPicker | AtCreateWritable | AtWrite | AtClose.

Inductive SaveDialog : Type :=
| Completes
| Rejects (step : DialogStep) (e : JsError).

(** Whether the IndexedDB transaction of [persistToStorage] completes. *)
Inductive IdbBehaviour : Type := IdbCompletes | IdbOpenFails | IdbCommitFails.

(** What [getSaveCapabilities] reports, as far as [saveToFile] reads it. *)
Record Capabilities : Type := {
  isIOSAnyBrowser : bool;
  share : bool;
  limitation : option string;
}.

(** The host as one call finds it. *)
Record Env : Type := {
  crypto : CryptoSupport;
  (** the bytes [crypto.getRandomValues] hands out, in order *)
  entropy : nat -> byte;
  (** [new Date().toISOString()] and [Date.now()] *)
  now : string;
  epoch : N;
  (** [None]: no [showSaveFilePicker] in [window] *)
  picker : option SaveDialog;
  indexedDB : IdbBehaviour;
  pathname : string;
  capabilities : Capabilities;
  (** [navigator.canShare({files})], and the rejection of [navigator.share] *)
  canShare_files : bool;
  share_rejects : option JsError;
}.

Record StorageRecord : Type := {
  key : string;
  data : string;
  stamp : N;
  stored_encrypted : bool;
}.

Record World : Type := {
  env : Env;
  (** how many random bytes were drawn *)
  drawn : nat;
  (** calls made to [crypto] so far, latest first *)
  calls : list HostCall;
  (** files written through a picked handle, offered as download, shared *)
  written : list (string * string);
  downloaded : list (string * string);
  shared : list (string * string);
  (** the records put into the IndexedDB object store *)
  stored : list StorageRecord;
}.

Record State : Type := { self : MemoryFile; world : World }.

(** The page side of a save, which never touches the session: [pako.gzip]
    when the library is loaded, [uint8ArrayToBase64] (the host's [btoa] over
    the bytes) and [rebuildHTML] (the host's
    [document.documentElement.outerHTML] with the payload put into the script
    element named by the embed id). *)
Class Page : Type := {
  pako_gzip : option (list byte -> list byte);
  uint8ArrayToBase64 : list byte -> string;
  rebuildHTML : string -> string -> string;
}.

Definition on_self (f : MemoryFile -> MemoryFile) (s : State) : State :=
  {| self := f (self s); world := world s |}.

Definition on_world (f : World -> World) (s : State) : State :=
  {| self := self s; world := f (world s) |}.

Definition set_currentPassword (p : option DOMString) (m : MemoryFile)
  : MemoryFile :=
  {| db := db m; options := options m; currentPassword := p;
     encryptionMetadata := encryptionMetadata m |}.

Definition set_encryptionMetadata (e : option EncryptionMetadata) (m : MemoryFile)
  : MemoryFile :=
  {| db := db m; options := options m; currentPassword := currentPassword m;
     encryptionMetadata := e |}.

Definition log_call (c : HostCall) (w : World) : World :=
  {| env := env w; drawn := drawn w; calls := c :: calls w; written := written w;
     downloaded := downloaded w; shared := shared w; stored := stored w |}.

Definition draw (n : nat) (w : World) : World :=
  {| env := env w; drawn := drawn w + n; calls := GetRandomValues n :: calls w;
     written := written w; downloaded := downloaded w; shared := shared w;
     stored := stored w |}.

Definition record_write (f : string * string) (w : World) : World :=
  {| env := env w; drawn := drawn w; calls := calls w; written := f :: written w;
     downloaded := downloaded w; shared := shared w; stored := stored w |}.

Definition record_download (f : string * string) (w : World) : World :=
  {| env := env w; drawn := drawn w; calls := calls w; written := written w;
     downloaded := f :: downloaded w; shared := shared w; stored := stored w |}.

Definition record_share (f : string * string) (w : World) : World :=
  {| env := env w; drawn := drawn w; calls := calls w; written := written w;
     downloaded := downloaded w; shared := f :: shared w; stored := stored w |}.

Definition record_put (r : StorageRecord) (w : World) : World :=
  {| env := env w; drawn := drawn w; calls := calls w; written := written w;
     downloaded := downloaded w; shared := shared w; stored := r :: stored w |}.

Local Open Scope eff_scope.

(** [crypto.getRandomValues(new Uint8Array(n))] *)
Definition getRandomValues (n : nat) : Eff State (list byte) :=
  fun s =>
    match crypto (env (world s)) with
    | CryptoUndefined => (Thrown (mkError "ReferenceError" "crypto is not defined"), s)
    | _ => (Returned (map (entropy (env (world s))) (seq (drawn (world s)) n)),
            on_world (draw n) s)
    end.

Definition host_call (c : HostCall) : Eff State unit :=
  modify (on_world (log_call c)).

Definition msg_short : string :=
  "Invalid encrypted data: insufficient length (minimum 29 bytes required)".
Definition msg_password : string := "Password must be a non-empty string".
Definition msg_version (v : byte) : string :=
  "Unsupported encryption version: " ++ string_of_N (Byte.to_N v).
Definition msg_webcrypto : string :=
  "Web Crypto API not available. Encryption requires HTTPS or a modern browser.".
Definition msg_decrypt : string :=
  "Decryption failed: incorrect password or corrupted data".
Definition msg_range : string := "offset is out of bounds".
Definition msg_no_db : string := "Database not initialized".
Definition msg_need_password : string :=
  "Password required: Encryption is enabled but no password provided".

(** The single error of a failed authenticated decryption. *)
Definition DecryptionFailed : JsError := Error msg_decrypt.

(** [isEncryptedData(data)] *)
Definition sqlite_signature (data : list byte) : bool :=
  (16 <=? length data)%nat && byte_at_is data 0 x53 && byte_at_is data 1 x51
  && byte_at_is data 2 x4c.

Definition isEncryptedData (data : list byte) : bool :=
  if (length data <? 29)%nat then false
  else if negb (byte_at_is data 0 x01) then false
  else if sqlite_signature data then false
  else true.

Section WithProvider.
Context {SC : SubtleCrypto}.

(** [deriveKey(password, salt)] *)
Definition deriveKey (password : DOMString) (salt : list byte)
  : Eff State CryptoKey :=
  s <- get ;;
  match crypto (env (world s)) with
  | WebCrypto =>
      host_call ImportKey ;;;
      host_call DeriveKey ;;;
      ret (pbkdf2 (TextEncoder_encode_units password) salt 100000)
  | _ => throw (Error msg_webcrypto)
  end.

Definition lift_set (r : option (list byte)) : Eff State (list byte) :=
  match r with
  | Some a => ret a
  | None => throw (mkError "RangeError" msg_range)
  end.

(** [encryptData(data, password)]; the guards on the types of the arguments
    are discharged by the types here. *)
Definition encryptData (data : list byte) (password : DOMString)
  : Eff State (list byte) :=
  if (length password =? 0)%nat then throw (Error msg_password) else
  salt <- getRandomValues 16 ;;
  iv <- getRandomValues 12 ;;
  key <- deriveKey password salt ;;
  host_call Encrypt ;;;
  let encrypted := aes_gcm_encrypt key iv data in
  s <- get ;;
  let metadata :=
    {| version := 1; algorithm := "AES-GCM-256"; kdf := "PBKDF2";
       iterations := 100000; timestamp := Some (now (env (world s))) |} in
  modify (on_self (set_encryptionMetadata (Some metadata))) ;;;
  let result := new_Uint8Array (1 + 16 + 12 + length encrypted) in
  let result := typed_store result 0 (byte_of_N (version metadata)) in
  result <- lift_set (typed_set result salt 1) ;;
  result <- lift_set (typed_set result iv 17) ;;
  result <- lift_set (typed_set result encrypted 29) ;;
  ret result.

(** [crypto.subtle.decrypt] *)
Definition subtle_decrypt (key : CryptoKey) (iv ciphertext : list byte)
  : Eff State (list byte) :=
  host_call Decrypt ;;;
  match aes_gcm_decrypt key iv ciphertext with
  | Some p => ret p
  | None => throw (mkError "OperationError" EmptyString)
  end.

(** [decryptData(encryptedData, password)] *)
Definition decryptData (encryptedData : list byte) (password : DOMString)
  : Eff State (list byte) :=
  if (length encryptedData <? 29)%nat then throw (Error msg_short) else
  if (length password =? 0)%nat then throw (Error msg_password) else
  let version := nth 0 encryptedData x00 in
  if negb (Byte.eqb version x01) then throw (Error (msg_version version)) else
  let salt := slice 1 17 encryptedData in
  let iv := slice 17 29 encryptedData in
  let ciphertext := skipn 29 encryptedData in
  key <- deriveKey password salt ;;
  try_catch
    (decrypted <- subtle_decrypt key iv ciphertext ;;
     modify (on_self (set_encryptionMetadata
       (Some {| version := Byte.to_N version; algorithm := "AES-GCM-256";
                kdf := "PBKDF2"; iterations := 100000; timestamp := None |}))) ;;;
     ret decrypted)
    (fun _ => throw DecryptionFailed).

Context {PG : Page}.

(** A password, a JavaScript string or [null], used as a condition. *)
Definition truthy (p : option DOMString) : bool :=
  match p with
  | Some w => negb (length w =? 0)%nat
  | None => false
  end.

(** [compress(data)]: skipped with a warning when pako is not loaded. *)
Definition compress (data : list byte) : list byte :=
  match pako_gzip with
  | Some gzip => gzip data
  | None => data
  end.

(** The object [saveToFile] resolves to; [None] is an absent property, and an
    absent [cancelled] reads as [false]. *)
Record SaveResult : Type := {
  r_success : bool;
  r_cancelled : bool;
  r_method : option string;
  r_persistedToStorage : option bool;
  r_encrypted : option bool;
  r_passwordChanged : option bool;
  r_message : option string;
}.

(** The four awaited steps of the picker branch. *)
Definition interactive_write (filename htmlContent : string) : Eff State unit :=
  fun s =>
    match picker (env (world s)) with
    | Some (Rejects _ e) => (Thrown e, s)
    | _ => (Returned tt, on_world (record_write (filename, htmlContent)) s)
    end.

Definition fallbackDownload (htmlContent filename : string) : Eff State unit :=
  modify (on_world (record_download (filename, htmlContent))).

Definition adopt_password (password : option DOMString) (changePassword : bool)
  : Eff State unit :=
  if changePassword && truthy password
  then modify (on_self (set_currentPassword password))
  else ret tt.

(** Export, compress, encrypt and rebuild the document: the part of
    [saveToFile] between [try] and the choice of the save method. *)
Definition prepare_document (image : list byte) (password : option DOMString)
  : Eff State string :=
  s <- get ;;
  let exportedDb :=
    if compression (options (self s)) then compress image else image in
  let encryptPassword :=
    if truthy password then password else currentPassword (self s) in
  finalData <-
    (if encrypted (options (self s)) then
       match encryptPassword with
       | Some w =>
           if truthy encryptPassword then encryptData exportedDb w
           else throw (Error msg_need_password)
       | None => throw (Error msg_need_password)
       end
     else ret exportedDb) ;;
  let base64Db := uint8ArrayToBase64 finalData in
  ret (rebuildHTML (embedId (options (self s))) base64Db).

(** [saveToFile(filename, password, changePassword)] *)
Definition saveToFile (filename : string) (password : option DOMString)
    (changePassword : bool) : Eff State SaveResult :=
  s <- get ;;
  match db (self s) with
  | None => throw (Error msg_no_db)
  | Some image =>
      try_catch
        (htmlContent <- prepare_document image password ;;
         match picker (env (world s)) with
         | Some _ =>
             try_catch
               (interactive_write filename htmlContent ;;;
                adopt_password password changePassword ;;;
                ret {| r_success := true; r_cancelled := false;
                       r_method := Some "file-system-access";
                       r_persistedToStorage := None;
                       r_encrypted := Some (encrypted (options (self s)));
                       r_passwordChanged := Some (changePassword && truthy password);
                       r_message := None |})
               (fun err =>
                  if String.eqb (name err) "AbortError"
                  then ret {| r_success := false; r_cancelled := true;
                              r_method := None; r_persistedToStorage := None;
                              r_encrypted := None; r_passwordChanged := None;
                              r_message := None |}
                  else throw err)
         | None =>
             fallbackDownload htmlContent filename ;;;
             adopt_password password changePassword ;;;
             ret {| r_success := true; r_cancelled := false;
                    r_method := Some "download"; r_persistedToStorage := None;
                    r_encrypted := Some (encrypted (options (self s)));
                    r_passwordChanged := Some (changePassword && truthy password);
                    r_message := None |}
         end)
        (fun error => throw (Error ("Save failed: " ++ message error)))
  end.

End WithProvider.

End Core.

(** ** The IndexedDB-persisting variant of [MemoryFile]

    The class of the same name that first persists every save to IndexedDB;
    [isEncryptedData], [deriveKey], [encryptData] and [decryptData] are those
    of [Core]. *)

Module CoreStorage.
Import Core.
Local Open Scope eff_scope.

Section WithProvider.
Context {SC : SubtleCrypto} {PG : Page}.

(** [getStorageKey()] *)
Definition getStorageKey (s : State) : string :=
  match storageKey (options (self s)) with
  | Some k =>
      if (String.length k =? 0)%nat then "memoryfile:" ++ pathname (env (world s))
      else "memoryfile:" ++ k
  | None => "memoryfile:" ++ pathname (env (world s))
  end.

Definition idb_error : JsError := mkError "UnknownError" EmptyString.

(** A transaction is active until control goes back to the event loop with
    no request of it pending; a request on it afterwards throws this. *)
Definition TransactionInactiveError : JsError :=
  mkError "TransactionInactiveError" EmptyString.

(** [persistToStorage()]: [None] is the [undefined] of the early return.
    The transaction is opened before the database is exported: awaiting
    [compress] keeps it active (nothing is waited for), awaiting
    [encryptData] does not, since [encryptData] returns only after
    [crypto.subtle] has answered; [store.put] then throws. *)
Definition persistToStorage : Eff State (option bool) :=
  s <- get ;;
  match db (self s) with
  | None => ret None
  | Some image =>
      if negb (persistToStorage (options (self s))) then ret None else
      try_catch
        ((if match indexedDB (env (world s)) with IdbOpenFails => true | _ => false end
          then throw idb_error else ret tt) ;;;
         let exportedDb :=
           if compression (options (self s)) then compress image else image in
         exportedDb <-
           (if encrypted (options (self s)) && truthy (currentPassword (self s))
            then match currentPassword (self s) with
                 | Some w => encryptData exportedDb w
                 | None => ret exportedDb
                 end
            else ret exportedDb) ;;
         let record :=
           {| key := getStorageKey s; data := uint8ArrayToBase64 exportedDb;
              stamp := epoch (env (world s));
              stored_encrypted := encrypted (options (self s)) |} in
         let finished :=
           encrypted (options (self s)) && truthy (currentPassword (self s)) in
         (if finished then throw TransactionInactiveError
          else if match indexedDB (env (world s)) with
                  | IdbCommitFails => true
                  | _ => false
                  end
          then throw idb_error
          else modify (on_world (record_put record))) ;;;
         ret (Some true))
        (fun _ => ret (Some false))
  end.

Definition msg_cancel_file : string :=
  "File save cancelled, but changes are saved locally.".
Definition msg_cancel_share : string :=
  "Export cancelled, but changes are saved locally.".

Definition cancelled_result (persist : bool) (msg : string) : SaveResult :=
  {| r_success := persist; r_cancelled := true; r_method := None;
     r_persistedToStorage := Some persist; r_encrypted := None;
     r_passwordChanged := None;
     r_message := if persist then Some msg else None |}.

(** [navigator.share({files, title})] *)
Definition navigator_share (filename htmlContent : string) : Eff State unit :=
  fun s =>
    match share_rejects (env (world s)) with
    | Some e => (Thrown e, s)
    | None => (Returned tt, on_world (record_share (filename, htmlContent)) s)
    end.

(** The download at the end of the branch without a file picker. *)
Definition download_copy (filename htmlContent : string)
    (password : option DOMString)
    (changePassword : bool) : Eff State SaveResult :=
  s <- get ;;
  let persist := Core.persistToStorage (options (self s)) in
  fallbackDownload htmlContent filename ;;;
  ret {| r_success := true; r_cancelled := false;
         r_method := Some (if persist then "storage" else "download");
         r_persistedToStorage := Some persist;
         r_encrypted := Some (encrypted (options (self s)));
         r_passwordChanged := Some (changePassword && truthy password);
         r_message :=
           if persist
           then Some "Changes saved. Downloaded copy for backup/portability."
           else limitation (capabilities (env (world s))) |}.

(** The start of [saveToFile]: when storage persistence is on, a requested
    password change is taken over and the database is persisted to IndexedDB
    before anything else.  [s] is the state the call started in. *)
Definition persist_first (s : State) (password : option DOMString)
    (changePassword : bool) : Eff State unit :=
  if Core.persistToStorage (options (self s))
  then adopt_password password changePassword ;;; persistToStorage ;;; ret tt
  else ret tt.

(** The [try] block of [saveToFile] and its [catch]. *)
Definition write_out (s : State) (image : list byte) (filename : string)
    (password : option DOMString) (changePassword : bool) : Eff State SaveResult :=
  let caps := capabilities (env (world s)) in
  let persist := Core.persistToStorage (options (self s)) in
  try_catch
    (htmlContent <- prepare_document image password ;;
     match picker (env (world s)) with
     | Some _ =>
         try_catch
           (interactive_write filename htmlContent ;;;
            adopt_password password changePassword ;;;
            ret {| r_success := true; r_cancelled := false;
                   r_method := Some "file-system-access";
                   r_persistedToStorage := Some persist;
                   r_encrypted := Some (encrypted (options (self s)));
                   r_passwordChanged := Some (changePassword && truthy password);
                   r_message := None |})
           (fun err =>
              if String.eqb (name err) "AbortError"
              then ret (cancelled_result persist msg_cancel_file)
              else throw err)
     | None =>
         shared_or_cancelled <-
           (if isIOSAnyBrowser caps && share caps
            then
              try_catch
                (if canShare_files (env (world s))
                 then
                   navigator_share filename htmlContent ;;;
                   ret (Some
                     {| r_success := true; r_cancelled := false;
                        r_method := Some "share";
                        r_persistedToStorage := Some persist;
                        r_encrypted := Some (encrypted (options (self s)));
                        r_passwordChanged :=
                          Some (changePassword && truthy password);
                        r_message :=
                          Some (if persist
                                then "Changes saved. Use Share to export a portable copy."
                                else "File shared. Save to Files app to keep your changes.") |})
                 else ret None)
                (fun shareErr =>
                   if String.eqb (name shareErr) "AbortError"
                   then ret (Some (cancelled_result persist msg_cancel_share))
                   else ret None)
            else ret None) ;;
         match shared_or_cancelled with
         | Some result => ret result
         | None => download_copy filename htmlContent password changePassword
         end
     end)
    (fun error => throw (Error ("Save failed: " ++ message error))).

(** [saveToFile(filename, password, changePassword)] *)
Definition saveToFile (filename : string) (password : option DOMString)
    (changePassword : bool) : Eff State SaveResult :=
  s <- get ;;
  match db (self s) with
  | None => throw (Error msg_no_db)
  | Some image =>
      persist_first s password changePassword ;;;
      write_out s image filename password changePassword
  end.

End WithProvider.

End CoreStorage.

(** ** [lib/trust-manager.js]: class [TrustManager] *)

Module Trust.
Local Open Scope eff_scope.

Definition chars : string -> list ascii := list_ascii_of_string.
Definition str : list ascii -> string := string_of_list_ascii.

Definition code (c : ascii) : nat := nat_of_ascii c.

Definition in_range (lo hi : nat) (c : ascii) : bool :=
  (lo <=? code c)%nat && (code c <=? hi)%nat.

(** The class [[a-f0-9]] under the flag [i]. *)
Definition is_hex_class (c : ascii) : bool :=
  in_range 48 57 c || in_range 97 102 c || in_range 65 70 c.

(** Case folding of the flag [i]: a pattern character of the ASCII range
    matches its own two cases and nothing else. *)
Definition fold_case (c : ascii) : ascii :=
  if in_range 97 122 c then ascii_of_nat (code c - 32) else c.

Definition char_is (p c : ascii) : bool := Ascii.eqb (fold_case c) (fold_case p).

(** [String.prototype.toLowerCase] on the code units below U+0100. *)
Definition toLowerCase_char (c : ascii) : ascii :=
  if in_range 65 90 c || (in_range 192 222 c && negb (code c =? 215)%nat)
  then ascii_of_nat (code c + 32)
  else c.

Definition toLowerCase (s : list ascii) : list ascii := map toLowerCase_char s.

(** *** [extractHashFromFilename]: the pattern [/\.([a-f0-9]{6,64})\.html$/i] *)

(** [\.html$] *)
Definition ends_dot_html (t : list ascii) : bool :=
  match t with
  | [c0; c1; c2; c3; c4] =>
      char_is "." c0 && char_is "h" c1 && char_is "t" c2 && char_is "m" c3
      && char_is "l" c4
  | _ => false
  end.

(** How many characters the greedy [[a-f0-9]{,max}] takes. *)
Fixpoint hex_run (max : nat) (s : list ascii) : nat :=
  match max, s with
  | S m, c :: s' => if is_hex_class c then S (hex_run m s') else 0
  | _, _ => 0
  end.

(** The repetition counts the matcher tries, in order: [n], [n - 1], ..., [6]. *)
Fixpoint counts_down (n : nat) : list nat :=
  match n with
  | O => []
  | S m => if (6 <=? n)%nat then n :: counts_down m else []
  end.

(** A match starting at the first character; the result is group 1. *)
Definition match_at (s : list ascii) : option (list ascii) :=
  match s with
  | dot :: r =>
      if char_is "." dot
      then match find (fun n => ends_dot_html (skipn n r))
                      (counts_down (hex_run 64 r)) with
           | Some n => Some (firstn n r)
           | None => None
           end
      else None
  | [] => None
  end.

(** [filename.match(...)]: the leftmost start that matches. *)
Fixpoint regex_match (s : list ascii) : option (list ascii) :=
  match match_at s with
  | Some h => Some h
  | None => match s with
            | [] => None
            | _ :: s' => regex_match s'
            end
  end.

Definition extractHashFromFilename (filename : string) : option string :=
  match regex_match (chars filename) with
  | Some group1 => Some (str (toLowerCase group1))
  | None => None
  end.

(** *** [normalizeHTML] *)

(** The selector goes into the source of a [RegExp] unescaped.  For a
    selector made of letters, digits, [-], [_], [#] and [.] the expression is
    interpreted here: a dot matches any character but a line terminator,
    every other character itself, in either case.  For any other selector the
    engine of the host decides what the expression matches and whether it can
    be built at all. *)
Definition plain_char (c : ascii) : bool :=
  in_range 48 57 c || in_range 65 90 c || in_range 97 122 c
  || Ascii.eqb c "-" || Ascii.eqb c "_" || Ascii.eqb c "#" || Ascii.eqb c ".".

Definition plain_selector (selector : string) : bool :=
  forallb plain_char (chars selector).

Class RegExpEngine : Type := {
  (** [subject.replace(new RegExp(source, 'gi'), empty)]: the new string, or
      the [SyntaxError] of the constructor *)
  RegExp_remove_all : string -> string -> Outcome string;
}.

(** One character of the source built from a plain selector. *)
Inductive PatChar : Type := Lit (c : ascii) | AnyChar.

Fixpoint remove_first (x : ascii) (s : list ascii) : list ascii :=
  match s with
  | [] => []
  | c :: s' => if Ascii.eqb c x then s' else c :: remove_first x s'
  end.

Definition dquote : ascii := ascii_of_nat 34.

(** The source [id=".."] around the selector with its first [#] removed. *)
Definition id_pattern (selector : string) : list PatChar :=
  map Lit (chars "id=" ++ [dquote])
  ++ map (fun c => if Ascii.eqb c "." then AnyChar else Lit c)
         (remove_first "#" (chars selector))
  ++ [Lit dquote].

Definition pat_matches (p : PatChar) (c : ascii) : bool :=
  match p with
  | Lit x => char_is x c
  | AnyChar => negb ((code c =? 10)%nat || (code c =? 13)%nat)
  end.

Fixpoint match_pattern (p : list PatChar) (s : list ascii) : option (list ascii) :=
  match p, s with
  | [], _ => Some s
  | x :: p', c :: s' => if pat_matches x c then match_pattern p' s' else None
  | _ :: _, [] => None
  end.

Definition not_gt (c : ascii) : bool := negb (Ascii.eqb c ">").

Fixpoint run_length (f : ascii -> bool) (s : list ascii) : nat :=
  match s with
  | c :: s' => if f c then S (run_length f s') else 0
  | [] => 0
  end.

(** [[^>]*>] (with [min = 0]) and [[^>]+>] (with [min = 1]): the whole run,
    then the [>] that ends it. *)
Definition run_then_gt (min : nat) (s : list ascii) : option (list ascii) :=
  let n := run_length not_gt s in
  if (min <=? n)%nat
  then match skipn n s with
       | c :: rest => if Ascii.eqb c ">" then Some rest else None
       | [] => None
       end
  else None.

(** [</[^>]+>] *)
Definition closing_tag (s : list ascii) : option (list ascii) :=
  match s with
  | c0 :: c1 :: t =>
      if Ascii.eqb c0 "<" && Ascii.eqb c1 "/" then run_then_gt 1 t else None
  | _ => None
  end.

(** [[\s\S]*?</[^>]+>]: the nearest closing tag. *)
Fixpoint lazy_to_closing (s : list ascii) : option (list ascii) :=
  match closing_tag s with
  | Some rest => Some rest
  | None => match s with
            | [] => None
            | _ :: s' => lazy_to_closing s'
            end
  end.

Fixpoint down_to_zero (n : nat) : list nat :=
  match n with
  | O => [0%nat]
  | S m => n :: down_to_zero m
  end.

(** [<[^>]*id="..."[^>]*>[\s\S]*?</[^>]+>] starting at the first character;
    the result is what follows the match. *)
Definition match_element (pat : list PatChar) (s : list ascii)
  : option (list ascii) :=
  match s with
  | c :: r =>
      if Ascii.eqb c "<"
      then
        let attempt (k : nat) :=
          match match_pattern pat (skipn k r) with
          | Some r2 => match run_then_gt 0 r2 with
                       | Some r3 => lazy_to_closing r3
                       | None => None
                       end
          | None => None
          end in
        match find (fun k => match attempt k with Some _ => true | None => false end)
                   (down_to_zero (run_length not_gt r)) with
        | Some k => attempt k
        | None => None
        end
      else None
  | [] => None
  end.

(** [normalized.replace(regex, empty)] with the flag [g]. *)
Fixpoint remove_elements (fuel : nat) (pat : list PatChar) (s : list ascii)
  : list ascii :=
  match fuel with
  | O => s
  | S fuel' =>
      match s with
      | [] => []
      | c :: s' =>
          match match_element pat s with
          | Some rest => remove_elements fuel' pat rest
          | None => c :: remove_elements fuel' pat s'
          end
      end
  end.

(** [\s] on the code units below U+0100. *)
Definition is_space (c : ascii) : bool :=
  in_range 9 13 c || (code c =? 32)%nat || (code c =? 160)%nat.

(** [replace(/\s+/g, " ")] *)
Fixpoint collapse_spaces (in_run : bool) (s : list ascii) : list ascii :=
  match s with
  | [] => []
  | c :: s' =>
      if is_space c
      then if in_run then collapse_spaces true s'
           else " "%char :: collapse_spaces true s'
      else c :: collapse_spaces false s'
  end.

Fixpoint drop_spaces (s : list ascii) : list ascii :=
  match s with
  | c :: s' => if is_space c then drop_spaces s' else s
  | [] => []
  end.

Definition trim (s : list ascii) : list ascii :=
  rev (drop_spaces (rev (drop_spaces s))).

(** The source of the expression, for the engine. *)
Definition element_source (selector : string) : string :=
  ("<[^>]*id=" ++ str (dquote :: remove_first "#" (chars selector) ++ [dquote])
   ++ "[^>]*>[\s\S]*?</[^>]+>")%string.

Section WithEngine.
Context {RX : RegExpEngine}.

(** One turn of the loop over [excludeSelectors]. *)
Definition strip_selector (normalized : list ascii) (selector : string)
  : Outcome (list ascii) :=
  if plain_selector selector
  then Returned (remove_elements (length normalized) (id_pattern selector) normalized)
  else match RegExp_remove_all (element_source selector) (str normalized) with
       | Returned replaced => Returned (chars replaced)
       | Thrown e => Thrown e
       end.

Fixpoint strip_selectors (selectors : list string) (normalized : list ascii)
  : Outcome (list ascii) :=
  match selectors with
  | [] => Returned normalized
  | selector :: rest =>
      match strip_selector normalized selector with
      | Returned normalized' => strip_selectors rest normalized'
      | Thrown e => Thrown e
      end
  end.

(** [normalizeHTML(html)] *)
Definition normalizeHTML (excludeSelectors : list string) (html : string)
  : Outcome string :=
  match strip_selectors excludeSelectors (chars html) with
  | Returned stripped => Returned (str (trim (collapse_spaces false stripped)))
  | Thrown e => Thrown e
  end.

End WithEngine.

(** *** Hashing and file names *)

Definition hex_digit (n : N) : ascii :=
  if (n <? 10)%N then ascii_of_N (48 + n) else ascii_of_N (87 + n).

(** [b.toString(16).padStart(2, "0")] *)
Definition hex_of_byte (b : byte) : list ascii :=
  [hex_digit (Byte.to_N b / 16); hex_digit (Byte.to_N b mod 16)].

Definition hex (bs : list byte) : string := str (flat_map hex_of_byte bs).

(** [s.slice(0, n)] for any integer [n]. *)
Definition slice0 (n : Z) (s : string) : string :=
  let len := Z.of_nat (String.length s) in
  let stop := if (n <? 0)%Z then Z.max (len + n) 0 else Z.min n len in
  substring 0 (Z.to_nat stop) s.

Record Config : Type := {
  hashLength : Z;
  showBadge : bool;
  excludeSelectors : list string;
  (** whether [onVerificationComplete] is set *)
  hasCallback : bool;
}.

(** The object stored in [this.verificationResult], by [status]. *)
Inductive VerificationResult : Type :=
| UNVERIFIED (reason : string) (filename : option string)
| VERIFIED (hash fullHash filename : string)
| TAMPERED (expected actual fullExpected fullActual filename : string).

(** A badge element, by the result it was created for. *)
Definition Badge : Type := option VerificationResult.

Record TrustManager : Type := {
  config : Config;
  verificationResult : option VerificationResult;
  (** [this.badgeElement] *)
  badgeElement : option Badge;
  (** what the callback was handed, latest first *)
  notified : list VerificationResult;
}.

(** The steps of [renderBadge] that can throw: [createBadgeElement],
    [document.body.appendChild] and [attachBadgeListeners]. *)
Inductive BadgeStep : Type := AtCreateBadgeElement | AtAppendChild | AtAttachListeners.

Record World : Type := {
  crypto : Core.CryptoSupport;
  (** [getFilename()] *)
  doc_filename : string;
  (** the element with the id [trust-badge] that the document holds *)
  doc_badge : option Badge;
  (** [document.documentElement.outerHTML], which shows that element *)
  doc_outerHTML : option Badge -> string;
  (** where [renderBadge] throws, and the exception of the callback *)
  renderBadge_throws : option (BadgeStep * JsError);
  callback_throws : option JsError;
}.

Record State : Type := { self : TrustManager; world : World }.

Definition set_verificationResult (r : VerificationResult) (s : State) : State :=
  {| self := {| config := config (self s); verificationResult := Some r;
                badgeElement := badgeElement (self s);
                notified := notified (self s) |};
     world := world s |}.

Definition set_badgeElement (b : Badge) (s : State) : State :=
  {| self := {| config := config (self s);
                verificationResult := verificationResult (self s);
                badgeElement := Some b;
                notified := notified (self s) |};
     world := world s |}.

Definition set_doc_badge (b : option Badge) (s : State) : State :=
  {| self := self s;
     world := {| crypto := crypto (world s); doc_filename := doc_filename (world s);
                 doc_badge := b; doc_outerHTML := doc_outerHTML (world s);
                 renderBadge_throws := renderBadge_throws (world s);
                 callback_throws := callback_throws (world s) |} |}.

Definition add_notified (r : VerificationResult) (s : State) : State :=
  {| self := {| config := config (self s);
                verificationResult := verificationResult (self s);
                badgeElement := badgeElement (self s);
                notified := r :: notified (self s) |};
     world := world s |}.

(** [getHTMLContent()] *)
Definition getHTMLContent (s : State) : string :=
  doc_outerHTML (world s) (doc_badge (world s)).

Section WithProvider.
Context {SC : SubtleCrypto} {RX : RegExpEngine}.

(** [crypto.subtle.digest("SHA-256", data)] *)
Definition subtle_digest (data : list byte) : Eff State (list byte) :=
  s <- get ;;
  match crypto (world s) with
  | Core.WebCrypto => ret (sha256 data)
  | Core.SubtleUndefined =>
      throw (mkError "TypeError" "Cannot read properties of undefined (reading 'digest')")
  | Core.CryptoUndefined => throw (mkError "ReferenceError" "crypto is not defined")
  end.

(** [generateContentHash(htmlContent)] *)
Definition generateContentHash (htmlContent : string) : Eff State string :=
  s <- get ;;
  match normalizeHTML (excludeSelectors (config (self s))) htmlContent with
  | Thrown e => throw e
  | Returned normalized =>
      let data := TextEncoder_encode normalized in
      hashBuffer <- subtle_digest data ;;
      ret (hex hashBuffer)
  end.

(** [generateCommitFilename(basename, htmlContent)] *)
Definition generateCommitFilename (basename htmlContent : string) : Eff State string :=
  hash <- generateContentHash htmlContent ;;
  s <- get ;;
  let shortHash := slice0 (hashLength (config (self s))) hash in
  ret (basename ++ "." ++ shortHash ++ ".html")%string.

(** One of the calls of [renderBadge] that can throw. *)
Definition badge_step (step : BadgeStep) : Eff State unit :=
  s <- get ;;
  match renderBadge_throws (world s) with
  | Some (at_, e) =>
      match at_, step with
      | AtCreateBadgeElement, AtCreateBadgeElement
      | AtAppendChild, AtAppendChild
      | AtAttachListeners, AtAttachListeners => throw e
      | _, _ => ret tt
      end
  | None => ret tt
  end.

(** [renderBadge()]: the badge the document holds is removed, a new one is
    created for [this.verificationResult], stored in [this.badgeElement] and
    appended to the document. *)
Definition renderBadge : Eff State unit :=
  modify (set_doc_badge None) ;;;
  badge_step AtCreateBadgeElement ;;;
  s <- get ;;
  modify (set_badgeElement (verificationResult (self s))) ;;;
  badge_step AtAppendChild ;;;
  modify (set_doc_badge (Some (verificationResult (self s)))) ;;;
  badge_step AtAttachListeners.

Definition onVerificationComplete (r : VerificationResult) : Eff State unit :=
  s <- get ;;
  match callback_throws (world s) with
  | Some e => throw e
  | None => modify (add_notified r)
  end.

(** The branches of [verify] that assign [this.verificationResult]. *)
Definition classify : Eff State VerificationResult :=
  s <- get ;;
  let filename := doc_filename (world s) in
  match extractHashFromFilename filename with
  | None => ret (UNVERIFIED "No hash found in filename" (Some filename))
  | Some expectedHash =>
      if (String.length expectedHash =? 0)%nat
      then ret (UNVERIFIED "No hash found in filename" (Some filename))
      else
        let htmlContent := getHTMLContent s in
        actualHash <- generateContentHash htmlContent ;;
        if prefix expectedHash actualHash
        then ret (VERIFIED expectedHash actualHash filename)
        else ret (TAMPERED expectedHash
                    (slice0 (Z.of_nat (String.length expectedHash)) actualHash)
                    expectedHash actualHash filename)
  end.

(** [verify()] *)
Definition verify : Eff State VerificationResult :=
  try_catch
    (result <- classify ;;
     modify (set_verificationResult result) ;;;
     s <- get ;;
     (if showBadge (config (self s)) then renderBadge else ret tt) ;;;
     (if hasCallback (config (self s)) then onVerificationComplete result
      else ret tt) ;;;
     ret result)
    (fun error =>
       let result :=
         UNVERIFIED ("Verification error: " ++ message error)%string None in
       modify (set_verificationResult result) ;;;
       ret result).

End WithProvider.

End Trust.

(** ** The commit cycle: class [MemoryFileSimulator] *)

Module Commits.
Local Open Scope eff_scope.

(** A row of [entries]; [id] is [INTEGER PRIMARY KEY AUTOINCREMENT]. *)
Record Entry : Type := {
  id : nat;
  text : string;
  entry_created_at : N;
}.

(** A row of [commits]; [hash] is the primary key. *)
Record Commit : Type := {
  hash : string;
  parent_hash : option string;
  message : string;
  created_at : N;
}.

(** The two tables, latest insertion first, and the AUTOINCREMENT sequence. *)
Record Database : Type := {
  entries : list Entry;
  sequence : nat;
  commits : list Commit;
}.

Record Metadata : Type := {
  commitHash : option string;
  parentHash : option string;
  commitMessage : option string;
  commitDate : option N;
}.

Record Simulator : Type := {
  db : option Database;
  (** whether [this.sqlJS] is set *)
  sqlJS : bool;
  metadata : Metadata;
}.

(** The clock: the successive readings of [Date.now()] and
    [new Date().toISOString()], and how many were taken. *)
Record World : Type := {
  clock : nat -> N;
  ticks : nat;
}.

Record State : Type := { self : Simulator; world : World }.

(** The object handed to [generateHash]: the initial commit's
    [{timestamp, message: 'Initial commit', firstOpen: true}] or an entry's
    [{db, timestamp, text, parent}]. *)
Inductive CommitData : Type :=
| InitialData (timestamp : N)
| EntryData (db64 : string) (timestamp : N) (text50 : string) (parent : option string).

(** The runtime next to [crypto.subtle]: [JSON.stringify], [btoa] of a byte
    string, and the engine's [db.export()]. *)
Class Runtime : Type := {
  JSON_stringify : CommitData -> string;
  btoa : list byte -> string;
  db_export : Database -> list byte;
}.

(** [new MemoryFileSimulator()] *)
Definition constructed : Simulator :=
  {| db := None;
     sqlJS := false;
     metadata := {| commitHash := None; parentHash := None; commitMessage := None;
                    commitDate := None |} |}.

Definition empty_database : Database :=
  {| entries := []; sequence := 0; commits := [] |}.

Definition set_db (d : Database) (s : State) : State :=
  {| self := {| db := Some d; sqlJS := sqlJS (self s); metadata := metadata (self s) |};
     world := world s |}.

Definition set_metadata (m : Metadata) (s : State) : State :=
  {| self := {| db := db (self s); sqlJS := sqlJS (self s); metadata := m |};
     world := world s |}.

Definition set_sqlJS (s : State) : State :=
  {| self := {| db := db (self s); sqlJS := true; metadata := metadata (self s) |};
     world := world s |}.

(** One reading of the clock. *)
Definition read_clock : Eff State N :=
  fun s =>
    (Returned (clock (world s) (ticks (world s))),
     {| self := self s;
        world := {| clock := clock (world s); ticks := S (ticks (world s)) |} |}).

(** [this.db.run(statement)] *)
Definition db_run (statement : Database -> Outcome Database) : Eff State unit :=
  fun s =>
    match db (self s) with
    | None =>
        (Thrown (mkError "TypeError" "Cannot read properties of null (reading 'run')"), s)
    | Some d =>
        match statement d with
        | Returned d' => (Returned tt, set_db d' s)
        | Thrown e => (Thrown e, s)
        end
    end.

Definition has_hash (h : string) (d : Database) : bool :=
  existsb (fun c => String.eqb (hash c) h) (commits d).

Definition add_commit (row : Commit) (d : Database) : Database :=
  {| entries := entries d; sequence := sequence d; commits := row :: commits d |}.

(** [INSERT INTO commits ... VALUES (?, ?, ?, ?)] *)
Definition insert_commit (row : Commit) (d : Database) : Outcome Database :=
  if has_hash (hash row) d
  then Thrown (Error "UNIQUE constraint failed: commits.hash")
  else Returned (add_commit row d).

(** [INSERT OR IGNORE INTO commits ... VALUES (?, ?, ?, ?)] *)
Definition insert_or_ignore_commit (row : Commit) (d : Database) : Outcome Database :=
  if has_hash (hash row) d then Returned d else Returned (add_commit row d).

(** [INSERT INTO entries (text, created_at) VALUES (?, ?)] *)
Definition insert_entry (t : string) (at_ : N) (d : Database) : Outcome Database :=
  Returned {| entries := {| id := S (sequence d); text := t; entry_created_at := at_ |}
                          :: entries d;
              sequence := S (sequence d);
              commits := commits d |}.

(** [DELETE FROM entries] *)
Definition delete_entries (d : Database) : Outcome Database :=
  Returned {| entries := []; sequence := sequence d; commits := commits d |}.

Definition is_root (c : Commit) : bool :=
  match parent_hash c with
  | None => true
  | Some _ => false
  end.

(** [DELETE FROM commits WHERE parent_hash IS NOT NULL] *)
Definition delete_child_commits (d : Database) : Outcome Database :=
  Returned {| entries := entries d; sequence := sequence d;
              commits := filter is_root (commits d) |}.

Section WithHost.
Context {SC : SubtleCrypto} {RT : Runtime}.

(** [generateHash(data)]: the first 8 hex characters of the SHA-256 of the
    JSON text. *)
Definition generateHash (data : CommitData) : string :=
  substring 0 8 (Trust.hex (sha256 (TextEncoder_encode (JSON_stringify data)))).

(** [ensureInitialCommit()] *)
Definition ensureInitialCommit : Eff State unit :=
  s <- get ;;
  match commitHash (metadata (self s)) with
  | Some _ => ret tt
  | None =>
      now <- read_clock ;;
      timestamp <- read_clock ;;
      let commitHash := generateHash (InitialData timestamp) in
      modify (set_metadata
        {| commitHash := Some commitHash; parentHash := None;
           commitMessage := Some "Initial commit"; commitDate := Some now |}) ;;;
      db_run (insert_or_ignore_commit
        {| hash := commitHash; parent_hash := None; message := "Initial commit";
           created_at := now |})
  end.

(** [init()]: the engine, a fresh database, the schema, the initial
    commit. *)
Definition init : Eff State unit :=
  modify set_sqlJS ;;;
  modify (set_db empty_database) ;;;
  ensureInitialCommit.

(** What [addEntry] hashes in state [s]; the clock reading is the one taken
    after the entry was inserted. *)
Definition commit_data (t : string) (timestamp : N) (s : State) : CommitData :=
  match db (self s) with
  | Some d =>
      EntryData (btoa (firstn 100 (db_export d))) timestamp (substring 0 50 t)
                (commitHash (metadata (self s)))
  | None => EntryData (btoa []) timestamp (substring 0 50 t)
                      (commitHash (metadata (self s)))
  end.

(** [addEntry(text)] *)
Definition addEntry (t : string) : Eff State string :=
  entry_at <- read_clock ;;
  db_run (insert_entry t entry_at) ;;;
  timestamp <- read_clock ;;
  s <- get ;;
  let newHash := generateHash (commit_data t timestamp s) in
  now <- read_clock ;;
  db_run (insert_commit
    {| hash := newHash; parent_hash := commitHash (metadata (self s));
       message := substring 0 50 t; created_at := now |}) ;;;
  modify (set_metadata
    {| commitHash := Some newHash; parentHash := commitHash (metadata (self s));
       commitMessage := Some (substring 0 50 t); commitDate := Some now |}) ;;;
  ret newHash.

(** [clearData()] *)
Definition clearData : Eff State unit :=
  db_run delete_entries ;;;
  db_run delete_child_commits.

(** [N] sequential calls of [addEntry]; the hashes come back in call order. *)
Fixpoint addEntries (texts : list string) : Eff State (list string) :=
  match texts with
  | [] => ret []
  | t :: rest =>
      h <- addEntry t ;;
      hs <- addEntries rest ;;
      ret (h :: hs)
  end.

(** The operations on an initialised simulator. *)
Inductive Operation : Type :=
| EnsureInitialCommit
| AddEntry (t : string)
| ClearData.

Definition perform (op : Operation) (s : State) : State :=
  match op with
  | EnsureInitialCommit => snd (ensureInitialCommit s)
  | AddEntry t => snd (addEntry t s)
  | ClearData => snd (clearData s)
  end.

(** The simulator after [new MemoryFileSimulator()] and [init()]. *)
Definition initialised (w : World) : State :=
  snd (init {| self := constructed; world := w |}).

Inductive reachable : State -> Prop :=
| reachable_init : forall w, reachable (initialised w)
| reachable_step : forall s op, reachable s -> reachable (perform op s).

Definition is_clear (op : Operation) : bool :=
  match op with
  | ClearData => true
  | _ => false
  end.

(** Reachable without [clearData]. *)
Inductive reachable_unreset : State -> Prop :=
| unreset_init : forall w, reachable_unreset (initialised w)
| unreset_step : forall s op,
    reachable_unreset s -> is_clear op = false -> reachable_unreset (perform op s).

Definition table (s : State) : list Commit :=
  match db (self s) with
  | Some d => commits d
  | None => []
  end.

(** Exactly one record has a null [parent_hash]. *)
Definition one_root (s : State) : Prop :=
  length (filter is_root (table s)) = 1%nat.

(** Every non-null [parent_hash] is the [hash] of a record in the store. *)
Definition parents_exist (s : State) : Prop :=
  forall c p, In c (table s) -> parent_hash c = Some p ->
              exists c', In c' (table s) /\ hash c' = p.

Definition parents_existb (s : State) : bool :=
  forallb (fun c => match parent_hash c with
                    | None => true
                    | Some p => existsb (fun c' => String.eqb (hash c') p) (table s)
                    end)
          (table s).

(** The state of [addEntry t] once the entry row is in. *)
Definition staged (t : string) (s : State) : State :=
  snd ((entry_at <- read_clock ;; db_run (insert_entry t entry_at)) s).

(** The hash [addEntry t] computes from state [s]. *)
Definition next_hash (t : string) (s : State) : string :=
  generateHash (commit_data t (clock (world s) (S (ticks (world s)))) (staged t s)).

(** Whether that hash is new to the store. *)
Definition fresh (t : string) (s : State) : bool :=
  match db (self s) with
  | Some d => negb (has_hash (next_hash t s) d)
  | None => false
  end.

(** No hash collides along the run of [addEntries texts] from [s]. *)
Fixpoint fresh_run (texts : list string) (s : State) : bool :=
  match texts with
  | [] => true
  | t :: rest => fresh t s && fresh_run rest (snd (addEntry t s))
  end.

End WithHost.

End Commits.

(** ** Concrete hosts

    Small providers on which the model runs: a fixed-tag cipher whose tag is
    the head of the key and nonce, and a cipher that writes key, nonce and
    plaintext twice over so that it has the properties of the idealised
    provider. *)

Module Toy.

Fixpoint bytes_eqb (a b : list byte) : bool :=
  match a, b with
  | [], [] => true
  | x :: a', y :: b' => Byte.eqb x y && bytes_eqb a' b'
  | _, _ => false
  end.

Definition pad (n : nat) (bs : list byte) : list byte :=
  firstn n (bs ++ repeat x00 n).

Definition tag16 (k iv : list byte) : list byte := pad 16 (k ++ iv).

Definition seal (k iv p : list byte) : list byte := p ++ tag16 k iv.

Definition open (k iv c : list byte) : option (list byte) :=
  if (length c <? 16)%nat then None
  else if bytes_eqb (skipn (length c - 16) c) (tag16 k iv)
       then Some (firstn (length c - 16) c)
       else None.

#[export] Instance crypto : SubtleCrypto := {|
  CryptoKey := list byte;
  pbkdf2 := fun pw salt _ => pw ++ salt;
  aes_gcm_encrypt := seal;
  aes_gcm_decrypt := open;
  sha256 := pad 32;
|}.

(** Self-delimiting framing of a byte string: a [x01] before each byte, a
    [x00] at the end. *)
Fixpoint frame (bs : list byte) : list byte :=
  match bs with
  | [] => [x00]
  | b :: rest => x01 :: b :: frame rest
  end.

(** Every byte written twice. *)
Fixpoint twice (bs : list byte) : list byte :=
  match bs with
  | [] => []
  | b :: rest => b :: b :: twice rest
  end.

Fixpoint untwice (bs : list byte) : option (list byte) :=
  match bs with
  | [] => Some []
  | a :: b :: rest =>
      if Byte.eqb a b
      then match untwice rest with
           | Some r => Some (a :: r)
           | None => None
           end
      else None
  | [_] => None
  end.

Definition header (k : list byte * list byte) (iv : list byte) : list byte :=
  frame (fst k) ++ frame (snd k) ++ frame iv.

Definition ideal_seal (k : list byte * list byte) (iv p : list byte) : list byte :=
  twice (header k iv ++ p).

Definition ideal_open (k : list byte * list byte) (iv c : list byte)
  : option (list byte) :=
  match untwice c with
  | Some body =>
      let h := header k iv in
      if bytes_eqb (firstn (length h) body) h
      then Some (skipn (length h) body)
      else None
  | None => None
  end.

Definition ideal_crypto : SubtleCrypto := {|
  CryptoKey := list byte * list byte;
  pbkdf2 := fun pw salt _ => (pw, salt);
  aes_gcm_encrypt := ideal_seal;
  aes_gcm_decrypt := ideal_open;
  sha256 := pad 32;
|}.

#[export] Instance page : Core.Page := {|
  Core.pako_gzip := None;
  Core.uint8ArrayToBase64 := Trust.hex;
  Core.rebuildHTML := fun embedId base64Db => (embedId ++ ":" ++ base64Db)%string;
|}.

(** An engine that builds none of the expressions left to it. *)
#[export] Instance regexp : Trust.RegExpEngine := {|
  Trust.RegExp_remove_all := fun source _ =>
    Thrown (mkError "SyntaxError"
                    ("Invalid regular expression: /" ++ source ++ "/gi")%string);
|}.

(** A runtime whose JSON text starts with the timestamp. *)
#[export] Instance runtime : Commits.Runtime := {|
  Commits.JSON_stringify := fun data =>
    match data with
    | Commits.InitialData ts => string_of_N ts
    | Commits.EntryData _ ts _ _ => string_of_N ts
    end;
  Commits.btoa := Trust.hex;
  Commits.db_export := fun _ => [];
|}.

Definition env (support : Core.CryptoSupport) (dialog : option Core.SaveDialog)
  : Core.Env :=
  {| Core.crypto := support;
     Core.entropy := fun i => byte_of_N (N.of_nat i);
     Core.now := "2024-01-01T00:00:00.000Z";
     Core.epoch := 1704067200000;
     Core.picker := dialog;
     Core.indexedDB := Core.IdbCompletes;
     Core.pathname := "/app.html";
     Core.capabilities :=
       {| Core.isIOSAnyBrowser := false; Core.share := false;
          Core.limitation := None |};
     Core.canShare_files := false;
     Core.share_rejects := None |}.

Definition world (support : Core.CryptoSupport) (dialog : option Core.SaveDialog)
  : Core.World :=
  {| Core.env := env support dialog; Core.drawn := 0; Core.calls := [];
     Core.written := []; Core.downloaded := []; Core.shared := [];
     Core.stored := [] |}.

Definition session (persist : bool) (pw : option string) : Core.MemoryFile :=
  {| Core.db := Some [x53; x51; x4c];
     Core.options :=
       {| Core.embedId := "embedded-db"; Core.compression := false;
          Core.encrypted := true; Core.persistToStorage := persist;
          Core.storageKey := None |};
     Core.currentPassword := option_map wide pw;
     Core.encryptionMetadata := None |}.

Definition state (persist : bool) (pw : option string)
    (dialog : option Core.SaveDialog) : Core.State :=
  {| Core.self := session persist pw; Core.world := world Core.WebCrypto dialog |}.

Definition user_cancels : option Core.SaveDialog :=
  Some (Core.Rejects Core.AtPicker (mkError "AbortError" "The user aborted a request.")).

(** A clock that advances by one at every reading, and one that stands still. *)
Definition ticking : Commits.World :=
  {| Commits.clock := fun n => (1000 + N.of_nat n)%N; Commits.ticks := 0 |}.

Definition frozen : Commits.World :=
  {| Commits.clock := fun _ => 1000%N; Commits.ticks := 0 |}.

End Toy.

(** ** Base64: the host's [btoa] and [atob], and the two converters of
    [MemoryFile] built on them *)

Module Base64.
Import Trust.

(** The 64 characters of the encoding, by value. *)
Definition table : list ascii :=
  chars "ABCDEFGHIJKLMNOPQRSTUVWXYZabcdefghijklmnopqrstuvwxyz0123456789+/".

Definition alphabet (n : N) : ascii := nth (N.to_nat n) table "/"%char.

Fixpoint position (c : ascii) (l : list ascii) : option N :=
  match l with
  | [] => None
  | x :: l' =>
      if Ascii.eqb x c then Some 0%N
      else match position c l' with
           | Some n => Some (N.succ n)
           | None => None
           end
  end.

Definition value (c : ascii) : option N := position c table.

(** Three bytes make four characters; a last group of one or two bytes is
    padded with [=]. *)
Fixpoint encode (codes : list N) : list ascii :=
  match codes with
  | a :: b :: c :: rest =>
      alphabet (a / 4) :: alphabet ((a mod 4) * 16 + b / 16)
      :: alphabet ((b mod 16) * 4 + c / 64) :: alphabet (c mod 64) :: encode rest
  | [a; b] =>
      [alphabet (a / 4); alphabet ((a mod 4) * 16 + b / 16);
       alphabet ((b mod 16) * 4); "="%char]
  | [a] => [alphabet (a / 4); alphabet ((a mod 4) * 16); "="%char; "="%char]
  | [] => []
  end.

(** [btoa(binaryString)]; every code unit of the model is below 256, so the
    [InvalidCharacterError] of a wider character does not arise. *)
Definition btoa (binaryString : string) : string :=
  str (encode (map N_of_ascii (chars binaryString))).

(** [atob] follows the forgiving decoding of the HTML standard: ASCII
    whitespace is dropped; one or two [=] at the end of a string whose length
    is a multiple of four are dropped; a length of 1 modulo 4 and any
    character outside the alphabet are errors; the bits of an incomplete last
    group are discarded. *)
Definition ascii_whitespace (c : ascii) : bool :=
  (code c =? 9)%nat || (code c =? 10)%nat || (code c =? 12)%nat
  || (code c =? 13)%nat || (code c =? 32)%nat.

Fixpoint strip_padding (data : list ascii) : list ascii :=
  match data with
  | [] => []
  | c :: rest =>
      match rest with
      | [] => if Ascii.eqb c "=" then [] else [c]
      | [d] => if Ascii.eqb c "=" && Ascii.eqb d "=" then []
               else c :: strip_padding rest
      | _ => c :: strip_padding rest
      end
  end.

Fixpoint values (data : list ascii) : option (list N) :=
  match data with
  | [] => Some []
  | c :: rest =>
      match value c, values rest with
      | Some v, Some vs => Some (v :: vs)
      | _, _ => None
      end
  end.

Fixpoint octets (vs : list N) : list N :=
  match vs with
  | s0 :: s1 :: s2 :: s3 :: rest =>
      (s0 * 4 + s1 / 16) :: ((s1 mod 16) * 16 + s2 / 4) :: ((s2 mod 4) * 64 + s3)
      :: octets rest
  | [s0; s1; s2] => [s0 * 4 + s1 / 16; (s1 mod 16) * 16 + s2 / 4]
  | [s0; s1] => [s0 * 4 + s1 / 16]
  | _ => []
  end%N.

Definition InvalidCharacterError : JsError :=
  mkError "InvalidCharacterError" "The string to be decoded is not correctly encoded.".

Definition atob (data : string) : Outcome string :=
  let data := filter (fun c => negb (ascii_whitespace c)) (chars data) in
  let data := if (length data mod 4 =? 0)%nat then strip_padding data else data in
  if (length data mod 4 =? 1)%nat then Thrown InvalidCharacterError
  else match values data with
       | Some vs => Returned (str (map ascii_of_N (octets vs)))
       | None => Thrown InvalidCharacterError
       end.

(** [String.fromCharCode.apply(null, bytes)] *)
Definition fromCharCode (bytes : list byte) : string :=
  str (map ascii_of_byte bytes).

Definition chunkSize : nat := N.to_nat 32768.

(** The loop of [uint8ArrayToBase64]: [i] advances by [chunkSize] while it is
    below the length. *)
Fixpoint append_chunks (fuel : nat) (uint8Array : list byte) (i : nat)
    (binaryString : string) : string :=
  match fuel with
  | O => binaryString
  | S fuel' =>
      if (i <? length uint8Array)%nat
      then
        let chunk :=
          slice i (Nat.min (i + chunkSize) (length uint8Array)) uint8Array in
        append_chunks fuel' uint8Array (i + chunkSize)
                      (binaryString ++ fromCharCode chunk)
      else binaryString
  end.

(** [uint8ArrayToBase64(uint8Array)] *)
Definition uint8ArrayToBase64 (uint8Array : list byte) : string :=
  btoa (append_chunks (length uint8Array) uint8Array 0 EmptyString).

(** [base64ToUint8Array(base64)] *)
Definition base64ToUint8Array (base64 : string) : Outcome (list byte) :=
  match atob base64 with
  | Returned binaryString => Returned (map byte_of_ascii (chars binaryString))
  | Thrown _ => Thrown (Error "Invalid base64 data")
  end.

End Base64.

(** ** Opening and closing: the rest of [lib/html-sqlite-core.js] *)

Module CoreLoad.
Import Core.
Local Open Scope eff_scope.

(** [typeof initSqlJs], and the promise [initSqlJs(...)] returns. *)
Inductive InitSqlJs : Type :=
| InitSqlJsUndefined
| InitSqlJsRejects (e : JsError)
| InitSqlJsResolves.

Record Document : Type := {
  initSqlJs : InitSqlJs;
  (** [document.getElementById(id).textContent]; [None] without the element *)
  getElementById : string -> option string;
}.

(** A [MemoryFile] with the two fields that only loading reads and writes:
    whether [this.sqlJS] is set and, in the IndexedDB-persisting variant,
    [this.loadedFromStorage]. *)
Record State : Type := {
  session : Core.State;
  sqlJS : bool;
  loadedFromStorage : bool;
  document : Document;
}.

(** The engine and the inflater: the image of [new Database()], and
    [pako.ungzip], which throws on data that is not gzip.  A database opened
    on an image, [new Database(image)], is that image. *)
Class Engine : Type := {
  new_Database : list byte;
  pako_ungzip : list byte -> Outcome (list byte);
}.

Definition lift_outcome {S A} (o : Outcome A) : Eff S A := fun s => (o, s).

Definition on_session (f : Core.State -> Core.State) (s : State) : State :=
  {| session := f (session s); sqlJS := sqlJS s;
     loadedFromStorage := loadedFromStorage s; document := document s |}.

Definition set_sqlJS (s : State) : State :=
  {| session := session s; sqlJS := true;
     loadedFromStorage := loadedFromStorage s; document := document s |}.

Definition set_loadedFromStorage (b : bool) (s : State) : State :=
  {| session := session s; sqlJS := sqlJS s; loadedFromStorage := b;
     document := document s |}.

(** A method of the session run on the whole object. *)
Definition lift {A} (m : Eff Core.State A) : Eff State A :=
  fun s => match m (session s) with
           | (o, c) => (o, on_session (fun _ => c) s)
           end.

Definition set_db (d : option (list byte)) (m : MemoryFile) : MemoryFile :=
  {| db := d; options := options m; currentPassword := currentPassword m;
     encryptionMetadata := encryptionMetadata m |}.

Definition msg_no_sqlite : string :=
  "SQLite WASM not loaded. Include sql-wasm.js first.".
Definition msg_no_element (id : string) : string :=
  "No embedded database found with id: " ++ id.
Definition msg_encrypted_db : string :=
  "Password required: This database is encrypted".
Definition msg_no_pako : string := "Decompression failed: pako library not loaded".
Definition msg_not_enabled : string :=
  "Cannot change password: encryption is not enabled".
Definition msg_empty_password : string := "New password cannot be empty".

(** [exportDatabase()] *)
Definition exportDatabase : Eff Core.State (list byte) :=
  s <- get ;;
  match db (self s) with
  | None => throw (Error msg_no_db)
  | Some image => ret image
  end.

(** [getDatabaseSize()] *)
Definition getDatabaseSize (s : Core.State) : nat :=
  match db (self s) with
  | None => 0
  | Some image => length image
  end.

(** [close()] *)
Definition close : Eff Core.State unit :=
  modify (on_self (fun m =>
    {| db := None; options := options m; currentPassword := None;
       encryptionMetadata := None |})).

(** [isEncrypted()] and [getEncryptionMetadata()] *)
Definition isEncrypted (s : Core.State) : bool := encrypted (options (self s)).

Definition getEncryptionMetadata (s : Core.State) : option EncryptionMetadata :=
  encryptionMetadata (self s).

(** [changePassword(newPassword)], for a string. *)
Definition changePassword (newPassword : DOMString) : Eff Core.State unit :=
  s <- get ;;
  if negb (encrypted (options (self s))) then throw (Error msg_not_enabled)
  else if (length newPassword =? 0)%nat then throw (Error msg_empty_password)
  else modify (on_self (set_currentPassword (Some newPassword))).

(** [initSQL()] *)
Definition initSQL : Eff State unit :=
  s <- get ;;
  if sqlJS s then ret tt else
  try_catch
    (match initSqlJs (document s) with
     | InitSqlJsUndefined => throw (Error msg_no_sqlite)
     | InitSqlJsRejects e => throw e
     | InitSqlJsResolves => modify set_sqlJS
     end)
    (fun error => throw (Error ("Failed to initialize SQLite: " ++ message error))).

Section WithProvider.
Context {SC : SubtleCrypto} {PG : Page} {EN : Engine}.

(** [decompress(data)] *)
Definition decompress (data : list byte) : Outcome (list byte) :=
  match pako_gzip with
  | None => Thrown (Error msg_no_pako)
  | Some _ => pako_ungzip data
  end.

(** The branch of [loadEmbeddedDatabase] for an element without text. *)
Definition new_database (password : option DOMString) : Eff Core.State (list byte) :=
  s <- get ;;
  modify (on_self (set_db (Some new_Database))) ;;;
  (if encrypted (options (self s)) && truthy password
   then modify (on_self (set_currentPassword password))
   else ret tt) ;;;
  ret new_Database.

(** The [try] block of [loadEmbeddedDatabase]: decode, decrypt, inflate,
    open. *)
Definition open_payload (base64Data : string) (password : option DOMString)
  : Eff Core.State (list byte) :=
  s <- get ;;
  binaryData <- lift_outcome (Base64.base64ToUint8Array base64Data) ;;
  binaryData <-
    (if encrypted (options (self s)) && isEncryptedData binaryData
     then match password with
          | Some w =>
              if truthy password
              then decrypted <- decryptData binaryData w ;;
                   modify (on_self (set_currentPassword password)) ;;;
                   ret decrypted
              else throw (Error msg_encrypted_db)
          | None => throw (Error msg_encrypted_db)
          end
     else ret binaryData) ;;
  finalData <-
    (if compression (options (self s)) then lift_outcome (decompress binaryData)
     else ret binaryData) ;;
  modify (on_self (set_db (Some finalData))) ;;;
  ret finalData.

(** [loadEmbeddedDatabase(password)]; the result is the image of the
    database it returns. *)
Definition loadEmbeddedDatabase (password : option DOMString) : Eff State (list byte) :=
  s <- get ;;
  (if sqlJS s then ret tt else initSQL) ;;;
  let id := embedId (options (self (session s))) in
  match getElementById (document s) id with
  | None => throw (Error (msg_no_element id))
  | Some textContent =>
      let base64Data := Trust.str (Trust.trim (Trust.chars textContent)) in
      if (String.length base64Data =? 0)%nat
      then lift (new_database password)
      else
        try_catch (lift (open_payload base64Data password))
          (fun error => throw (Error ("Failed to load database: " ++ message error)))
  end.

End WithProvider.

End CoreLoad.

(** ** Reading the IndexedDB store back: the rest of the persisting variant *)

Module CoreStorageLoad.
Import Core CoreStorage CoreLoad.
Local Open Scope eff_scope.

(** [store.get(key)]: the latest record put under the key. *)
Definition store_get (k : string) (w : World) : option StorageRecord :=
  find (fun r => String.eqb (key r) k) (stored w).


Definition msg_stored_encrypted : string :=
  "Password required: Stored database is encrypted".
Definition msg_no_persistence : string := "Storage persistence is disabled".

(** [openIndexedDB()] *)
Definition openIndexedDB : Eff Core.State unit :=
  s <- get ;;
  match indexedDB (env (world s)) with
  | IdbOpenFails => throw idb_error
  | _ => ret tt
  end.

Section WithProvider.
Context {SC : SubtleCrypto} {PG : Page} {EN : Engine}.

(** The part of [loadFromStorage] that turns a record into the bytes of the
    database: decode, decrypt, inflate. *)
Definition read_record (record : StorageRecord) (password : option DOMString)
  : Eff Core.State (option (list byte * N)) :=
  s <- get ;;
  binaryData <- lift_outcome (Base64.base64ToUint8Array (data record)) ;;
  binaryData <-
    (if stored_encrypted record && isEncryptedData binaryData
     then match password with
          | Some w =>
              if truthy password
              then decrypted <- decryptData binaryData w ;;
                   modify (on_self (set_currentPassword password)) ;;;
                   ret decrypted
              else throw (Error msg_stored_encrypted)
          | None => throw (Error msg_stored_encrypted)
          end
     else ret binaryData) ;;
  binaryData <-
    (if compression (options (self s)) then lift_outcome (decompress binaryData)
     else ret binaryData) ;;
  ret (Some (binaryData, stamp record)).

(** [loadFromStorage(password)]: the data and the timestamp of the record, or
    [None] for [null].  A read request on an open store succeeds; the
    warning written to the console in the handler is not part of the state. *)
Definition loadFromStorage (password : option DOMString)
  : Eff Core.State (option (list byte * N)) :=
  s <- get ;;
  if negb (Core.persistToStorage (options (self s))) then ret None else
  try_catch
    (openIndexedDB ;;;
     match store_get (getStorageKey s) (world s) with
     | None => ret None
     | Some record =>
         if (String.length (data record) =? 0)%nat then ret None
         else read_record record password
     end)
    (fun _ => ret None).



(** [save()]: [success] and [persistedToStorage] are what [persistToStorage]
    returned. *)
Definition save : Eff Core.State (option bool) :=
  s <- get ;;
  match db (self s) with
  | None => throw (Error msg_no_db)
  | Some _ =>
      if negb (Core.persistToStorage (options (self s)))
      then throw (Error msg_no_persistence)
      else persistToStorage
  end.

(** The variant's [loadEmbeddedDatabase(password)]: a readable record of the
    IndexedDB store comes before the embedded payload. *)
Definition loadEmbeddedDatabase (password : option DOMString)
  : Eff CoreLoad.State (list byte) :=
  s <- get ;;
  (if sqlJS s then ret tt else initSQL) ;;;
  let id := embedId (options (self (session s))) in
  match getElementById (document s) id with
  | None => throw (Error (msg_no_element id))
  | Some textContent =>
      from_storage <-
        (if Core.persistToStorage (options (self (session s)))
         then
           try_catch
             (stored <- lift (loadFromStorage password) ;;
              match stored with
              | Some (image, _) =>
                  modify (on_session (on_self (set_db (Some image)))) ;;;
                  modify (set_loadedFromStorage true) ;;;
                  (if encrypted (options (self (session s))) && truthy password
                   then modify (on_session (on_self (set_currentPassword password)))
                   else ret tt) ;;;
                  ret (Some image)
              | None => ret None
              end)
             (fun _ => ret None)
         else ret None) ;;
      match from_storage with
      | Some image => ret image
      | None =>
          let base64Data := Trust.str (Trust.trim (Trust.chars textContent)) in
          if (String.length base64Data =? 0)%nat
          then lift (new_database password)
          else
            try_catch
              (image <- lift (open_payload base64Data password) ;;
               modify (set_loadedFromStorage false) ;;;
               ret image)
              (fun error =>
                 throw (Error ("Failed to load database: " ++ message error)))
      end
  end.

End WithProvider.

End CoreStorageLoad.

(** ** The simulator's queries and its exported state *)

Module CommitsState.
Import Commits.
Local Open Scope eff_scope.

(** [this.db.exec(query)] *)
Definition db_exec {A} (query : Database -> A) : Eff State A :=
  fun s =>
    match db (self s) with
    | None =>
        (Thrown (mkError "TypeError" "Cannot read properties of null (reading 'exec')"), s)
    | Some d => (Returned (query d), s)
    end.

(** [isFirstRun()]: [SELECT COUNT( * ) FROM commits] has one row, the count. *)
Definition isFirstRun : Eff State bool :=
  db_exec (fun d => (length (commits d) <=? 1)%nat).

(** [getEntryCount()] and [getCommitCount()] *)
Definition getEntryCount : Eff State nat := db_exec (fun d => length (entries d)).

Definition getCommitCount : Eff State nat := db_exec (fun d => length (commits d)).

(** The object [exportState] returns. *)
Record Exported : Type := {
  dbBase64 : string;
  exported_metadata : Metadata;
}.

(** The engine opening an image: [new this.sqlJS.Database(bytes)]. *)
Class Engine : Type := {
  db_open : list byte -> Database;
}.

Section WithHost.
Context {RT : Runtime} {EG : Engine}.

(** [exportState()] *)
Definition exportState : Eff State Exported :=
  fun s =>
    match db (self s) with
    | None =>
        (Thrown (mkError "TypeError" "Cannot read properties of null (reading 'export')"), s)
    | Some d =>
        (Returned {| dbBase64 := btoa (db_export d);
                     exported_metadata := metadata (self s) |}, s)
    end.

(** [importState(state)] *)
Definition importState (state : Exported) : Eff State unit :=
  fun s =>
    match Base64.atob (dbBase64 state) with
    | Thrown e => (Thrown e, s)
    | Returned binaryString =>
        let bytes := map byte_of_ascii (Trust.chars binaryString) in
        if sqlJS (self s)
        then (Returned tt,
              {| self := {| db := Some (db_open bytes); sqlJS := true;
                            metadata := exported_metadata state |};
                 world := world s |})
        else (Thrown (mkError "TypeError"
                        "Cannot read properties of null (reading 'Database')"), s)
    end.

End WithHost.

End CommitsState.

(** ** Concrete pages and engines for loading *)

Module ToyLoad.
Import CoreLoad.

(** A compressor that writes the two magic bytes of gzip before the data,
    and its inverse. *)
Definition gzip (d : list byte) : list byte := x1f :: x8b :: d.

Definition ungzip (d : list byte) : Outcome (list byte) :=
  match d with
  | x1f :: x8b :: r => Returned r
  | _ => Thrown (Error "incorrect header check")
  end.

(** A page with the base64 built on [btoa], with or without pako. *)
Definition page (pako : bool) : Core.Page := {|
  Core.pako_gzip := if pako then Some gzip else None;
  Core.uint8ArrayToBase64 := Base64.uint8ArrayToBase64;
  Core.rebuildHTML := fun embedId base64Db =>
    ("<script id=" ++ embedId ++ ">" ++ String (ascii_of_nat 10) base64Db
     ++ String (ascii_of_nat 10) "</script>")%string;
|}.

Definition engine : Engine := {|
  new_Database := [];
  pako_ungzip := ungzip;
|}.

(** A session with the options [compression] and [persistToStorage], the
    database [image] and the current password [pw], on a host with Web
    Crypto and the save dialog [dialog]. *)
Definition state (compression persist : bool) (image : option (list byte))
    (pw : option DOMString) (dialog : option Core.SaveDialog) : Core.State :=
  {| Core.self :=
       {| Core.db := image;
          Core.options :=
            {| Core.embedId := "embedded-db"; Core.compression := compression;
               Core.encrypted := true; Core.persistToStorage := persist;
               Core.storageKey := None |};
          Core.currentPassword := pw;
          Core.encryptionMetadata := None |};
     Core.world := Toy.world Core.WebCrypto dialog |}.

(** A document whose script element holds [text]. *)
Definition document_with (text : option string) : Document :=
  {| initSqlJs := InitSqlJsResolves;
     getElementById := fun id => if String.eqb id "embedded-db" then text else None |}.

(** A [MemoryFile] just constructed in that document. *)
Definition opening (s : Core.State) (text : option string) : State :=
  {| session := s; sqlJS := false; loadedFromStorage := false;
     document := document_with text |}.

(** The text [rebuildHTML] puts into the script element for the payload. *)
Definition embedded (payload : list byte) : string :=
  String (ascii_of_nat 10)
    (Base64.uint8ArrayToBase64 payload ++ String (ascii_of_nat 10) EmptyString).

Definition sqlite_image : list byte := [x53; x51; x4c; x69; x74; x65].

(** A runtime whose [btoa] is the standard one and whose engine exports a
    fixed image, and an engine that opens every image as the database of a
    freshly initialised simulator. *)
Definition runtime : Commits.Runtime := {|
  Commits.JSON_stringify := fun data =>
    match data with
    | Commits.InitialData ts => string_of_N ts
    | Commits.EntryData _ ts _ _ => string_of_N ts
    end;
  Commits.btoa := fun bytes => Base64.btoa (Base64.fromCharCode bytes);
  Commits.db_export := fun _ => sqlite_image;
|}.

Definition fresh_database : Commits.Database :=
  match Commits.db (Commits.self
          (@Commits.initialised Toy.crypto runtime Toy.ticking)) with
  | Some d => d
  | None => Commits.empty_database
  end.

Definition simulator_engine : CommitsState.Engine := {|
  CommitsState.db_open := fun _ => fresh_database;
|}.

End ToyLoad.

(** * Properties *)

(** ** Bytes and typed arrays *)

Lemma byte_eqb_eq (a b : byte) : Byte.eqb a b = true <-> a = b.
Proof.
  split; [apply Byte.byte_dec_bl | apply Byte.byte_dec_lb].
Qed.

Lemma byte_eqb_refl (a : byte) : Byte.eqb a a = true.
Proof. now apply byte_eqb_eq. Qed.

Lemma byte_eqb_neq (a b : byte) : Byte.eqb a b = false <-> a <> b.
Proof.
  split.
  - intros H E. apply byte_eqb_eq in E. congruence.
  - intros H. destruct (Byte.eqb a b) eqn:E; [apply byte_eqb_eq in E; contradiction | reflexivity].
Qed.

Lemma typed_set_fill (pre src : list byte) (k : nat) :
  typed_set (pre ++ repeat x00 (length src + k)) src (length pre)
  = Some (pre ++ src ++ repeat x00 k).
Proof.
  unfold typed_set.
  rewrite length_app, repeat_length.
  replace (length pre + length src <=? length pre + (length src + k))%nat with true
    by (symmetry; apply Nat.leb_le; lia).
  f_equal.
  rewrite firstn_app, Nat.sub_diag, firstn_all. simpl. rewrite app_nil_r.
  f_equal. f_equal.
  rewrite skipn_app.
  replace (length pre + length src - length pre)%nat with (length src) by lia.
  rewrite skipn_all2 by lia. simpl.
  rewrite <- (repeat_length x00 (length src)) at 1.
  rewrite repeat_app, skipn_app, skipn_all, repeat_length, Nat.sub_diag.
  reflexivity.
Qed.





(** ** [TextEncoder] on strings of 16-bit code units *)

Ltac div_lia := zify; Z.to_euclidean_division_equations; lia.










Lemma scalar_values_cons (u : code_unit) (rest : DOMString) :
  scalar_values (u :: rest)
  = if is_lead (unit_value u)
    then match rest with
         | d :: rest' =>
             if is_trail (unit_value d)
             then (65536 + (unit_value u - 55296) * 1024 + (unit_value d - 56320))%N
                  :: scalar_values rest'
             else 65533%N :: scalar_values rest
         | [] => [65533%N]
         end
    else if is_trail (unit_value u) then 65533%N :: scalar_values rest
         else unit_value u :: scalar_values rest.
Proof. reflexivity. Qed.

Lemma well_formed_cons (u : code_unit) (rest : DOMString) :
  well_formed (u :: rest)
  = if is_lead (unit_value u)
    then match rest with
         | d :: rest' => is_trail (unit_value d) && well_formed rest'
         | [] => false
         end
    else negb (is_trail (unit_value u)) && well_formed rest.
Proof. reflexivity. Qed.









(** On code units below U+0100 the two encoders agree. *)
Lemma TextEncoder_encode_units_wide (s : string) :
  TextEncoder_encode_units (wide s) = TextEncoder_encode s.
Proof.
  unfold TextEncoder_encode_units, wide.
  induction s as [|c s IH]; [reflexivity|].
  cbn [list_ascii_of_string map TextEncoder_encode]. rewrite scalar_values_cons.
  rewrite <- IH.
  destruct c as [[] [] [] [] [] [] [] []]; reflexivity.
Qed.

Lemma well_formed_wide (s : string) : well_formed (wide s) = true.
Proof.
  unfold wide. induction s as [|c s IH]; [reflexivity|].
  cbn [list_ascii_of_string map]. rewrite well_formed_cons, IH.
  destruct c as [[] [] [] [] [] [] [] []]; reflexivity.
Qed.

(** ** The encryption envelope *)

Module CoreProps.
Import Core.

(** [isEncryptedData] by cases. *)
Lemma byte_at_is_spec (d : list byte) (i : nat) (b : byte) :
  byte_at_is d i b = true <-> nth_error d i = Some b.
Proof.
  unfold byte_at_is. destruct (nth_error d i) as [x|].
  - rewrite byte_eqb_eq. split; congruence.
  - split; discriminate.
Qed.

(** C10. [isEncryptedData d] is true exactly when [d] has at least 29 bytes
    and [d[0]] is 1; once the two guards are passed the SQLite-signature test
    is false, so its branch is never taken; and data that carries the SQLite
    signature is rejected by the version-byte guard, its first byte not
    being 1. *)
Theorem isEncryptedData_characterised (d : list byte) :
  (isEncryptedData d = true <-> (29 <= length d)%nat /\ nth_error d 0 = Some x01)
  /\ ((length d <? 29)%nat = false -> negb (byte_at_is d 0 x01) = false ->
      sqlite_signature d = false)
  /\ (sqlite_signature d = true ->
      byte_at_is d 0 x01 = false /\ isEncryptedData d = false).
Proof.
  assert (Hsig : byte_at_is d 0 x01 = true -> sqlite_signature d = false).
  { intros H. apply byte_at_is_spec in H. unfold sqlite_signature.
    replace (byte_at_is d 0 x53) with false.
    - now rewrite andb_false_r.
    - symmetry. unfold byte_at_is. rewrite H. reflexivity. }
  split; [|split].
  - unfold isEncryptedData.
    destruct (length d <? 29)%nat eqn:L.
    + apply Nat.ltb_lt in L. split; [discriminate | intros [H _]; lia].
    + apply Nat.ltb_ge in L.
      destruct (byte_at_is d 0 x01) eqn:V; simpl.
      * rewrite (Hsig eq_refl). apply byte_at_is_spec in V. tauto.
      * split; [discriminate|]. intros [_ H].
        assert (byte_at_is d 0 x01 = true) by (apply byte_at_is_spec; exact H).
        congruence.
  - intros _ V. apply negb_false_iff in V. auto.
  - intros S. destruct (byte_at_is d 0 x01) eqn:V.
    + rewrite (Hsig eq_refl) in S. discriminate.
    + split; [reflexivity|]. unfold isEncryptedData. rewrite V. simpl.
      now destruct (length d <? 29)%nat.
Qed.

Section WithProvider.
Context {SC : SubtleCrypto}.

(** The salt and nonce [encryptData] draws in state [s]. *)
Definition salt_of (s : State) : list byte :=
  map (entropy (env (world s))) (seq (drawn (world s)) 16).

Definition iv_of (s : State) : list byte :=
  map (entropy (env (world s))) (seq (drawn (world s) + 16) 12).

Definition key_of (password : DOMString) (salt : list byte) : CryptoKey :=
  pbkdf2 (TextEncoder_encode_units password) salt 100000.

Definition sealed (data : list byte) (password : DOMString) (s : State) : list byte :=
  aes_gcm_encrypt (key_of password (salt_of s)) (iv_of s) data.

(** The state [encryptData] leaves behind. *)
Definition after_encrypt (s : State) : State :=
  on_self (set_encryptionMetadata
             (Some {| version := 1; algorithm := "AES-GCM-256"; kdf := "PBKDF2";
                      iterations := 100000;
                      timestamp := Some (now (env (world s))) |}))
    (on_world (fun w => log_call Encrypt (log_call DeriveKey (log_call ImportKey
                          (draw 12 (draw 16 w))))) s).

Lemma salt_length (s : State) : length (salt_of s) = 16%nat.
Proof. unfold salt_of. now rewrite length_map, length_seq. Qed.

Lemma iv_length (s : State) : length (iv_of s) = 12%nat.
Proof. unfold iv_of. now rewrite length_map, length_seq. Qed.

Lemma nonempty_length (w : DOMString) : w <> [] -> (length w =? 0)%nat = false.
Proof. destruct w; [congruence | reflexivity]. Qed.

(** [encryptData] on a host with Web Crypto: the envelope and the state. *)
Lemma encryptData_returns (data : list byte) (password : DOMString) (s : State) :
  crypto (env (world s)) = WebCrypto ->
  password <> [] ->
  encryptData data password s
  = (Returned (x01 :: salt_of s ++ iv_of s ++ sealed data password s),
     after_encrypt s).
Proof.
  intros Hc Hp. unfold encryptData. rewrite (nonempty_length _ Hp).
  unfold bind at 1. unfold getRandomValues at 1. rewrite Hc.
  unfold bind at 1. unfold getRandomValues at 1. cbn [world on_world env draw]. rewrite Hc.
  unfold bind at 1. unfold deriveKey, get, host_call, modify, ret, bind.
  cbn [world on_world env draw log_call self on_self]. rewrite Hc.
  cbn [world on_world env draw log_call self on_self drawn entropy now].
  fold (salt_of s). fold (iv_of s). fold (key_of password (salt_of s)).
  fold (sealed data password s).
  set (ct := sealed data password s).
  assert (E0 : typed_store (new_Uint8Array (1 + 16 + 12 + length ct)) 0
                 (byte_of_N (version {| version := 1; algorithm := "AES-GCM-256";
                    kdf := "PBKDF2"; iterations := 100000;
                    timestamp := Some (now (env (world s))) |}))
               = [x01] ++ repeat x00 (length (salt_of s) + (12 + length ct))).
  { rewrite salt_length. reflexivity. }
  rewrite E0.
  change 1%nat with (length [x01]) at 2.
  rewrite typed_set_fill. cbn [lift_set ret].
  assert (E1 : [x01] ++ salt_of s ++ repeat x00 (12 + length ct)
               = ([x01] ++ salt_of s) ++ repeat x00 (length (iv_of s) + length ct)).
  { rewrite iv_length, <- app_assoc. reflexivity. }
  rewrite E1.
  replace 17%nat with (length ([x01] ++ salt_of s))
    by (rewrite length_app, salt_length; reflexivity).
  rewrite typed_set_fill. cbn [lift_set ret].
  assert (E2 : ([x01] ++ salt_of s) ++ iv_of s ++ repeat x00 (length ct)
               = (([x01] ++ salt_of s) ++ iv_of s) ++ repeat x00 (length ct + 0)).
  { rewrite Nat.add_0_r, <- !app_assoc. reflexivity. }
  rewrite E2.
  replace 29%nat with (length (([x01] ++ salt_of s) ++ iv_of s))
    by (rewrite !length_app, salt_length, iv_length; reflexivity).
  rewrite typed_set_fill. cbn [lift_set ret repeat].
  rewrite app_nil_r, <- !app_assoc. reflexivity.
Qed.

(** The states [decryptData] leaves behind: after a rejection by the
    provider, and after a success. *)
Definition after_reject (s : State) : State :=
  on_world (fun w => log_call Decrypt (log_call DeriveKey (log_call ImportKey w))) s.

Definition after_decrypt (s : State) : State :=
  on_self (set_encryptionMetadata
             (Some {| version := 1; algorithm := "AES-GCM-256"; kdf := "PBKDF2";
                      iterations := 100000; timestamp := None |}))
    (after_reject s).

Lemma decryptData_short (d : list byte) (password : DOMString) (s : State) :
  (length d < 29)%nat ->
  decryptData d password s = (Thrown (Error msg_short), s).
Proof.
  intros H. unfold decryptData.
  replace (length d <? 29)%nat with true by (symmetry; now apply Nat.ltb_lt).
  reflexivity.
Qed.

Lemma decryptData_version (d : list byte) (password : DOMString) (s : State) :
  (29 <= length d)%nat ->
  password <> [] ->
  nth 0 d x00 <> x01 ->
  decryptData d password s = (Thrown (Error (msg_version (nth 0 d x00))), s).
Proof.
  intros H Hp Hv. unfold decryptData.
  replace (length d <? 29)%nat with false by (symmetry; now apply Nat.ltb_ge).
  rewrite (nonempty_length _ Hp).
  replace (Byte.eqb (nth 0 d x00) x01) with false
    by (symmetry; now apply byte_eqb_neq).
  reflexivity.
Qed.

Section Layout.
Variables salt iv ct : list byte.
Hypothesis Hs : length salt = 16%nat.
Hypothesis Hi : length iv = 12%nat.

Lemma envelope_salt : slice 1 17 (x01 :: salt ++ iv ++ ct) = salt.
Proof.
  unfold slice. cbn [skipn Nat.sub]. rewrite firstn_app, Hs, Nat.sub_diag.
  rewrite <- Hs, firstn_all. simpl. now rewrite app_nil_r.
Qed.

Lemma envelope_iv : slice 17 29 (x01 :: salt ++ iv ++ ct) = iv.
Proof.
  unfold slice. change (x01 :: salt ++ iv ++ ct) with ([x01] ++ salt ++ iv ++ ct).
  rewrite app_assoc, skipn_app.
  replace (length ([x01] ++ salt)) with 17%nat by (rewrite length_app, Hs; reflexivity).
  rewrite skipn_all2 by (rewrite length_app, Hs; simpl; lia).
  rewrite Nat.sub_diag. cbn [skipn app Nat.sub].
  rewrite firstn_app, Hi, Nat.sub_diag, <- Hi, firstn_all. simpl.
  now rewrite app_nil_r.
Qed.

Lemma envelope_ciphertext : skipn 29 (x01 :: salt ++ iv ++ ct) = ct.
Proof.
  change (x01 :: salt ++ iv ++ ct) with ([x01] ++ salt ++ iv ++ ct).
  rewrite !app_assoc, skipn_app.
  replace (length (([x01] ++ salt) ++ iv)) with 29%nat
    by (rewrite !length_app, Hs, Hi; reflexivity).
  rewrite skipn_all2 by (rewrite !length_app, Hs, Hi; simpl; lia).
  now rewrite Nat.sub_diag.
Qed.

Lemma envelope_length : length (x01 :: salt ++ iv ++ ct) = (29 + length ct)%nat.
Proof. cbn [length]. rewrite !length_app, Hs, Hi. lia. Qed.

End Layout.

(** [decryptData] on a well-formed envelope hands salt, nonce and ciphertext
    to the provider and maps its verdict. *)
Lemma decryptData_envelope (salt iv ct : list byte) (password : DOMString) (s : State) :
  length salt = 16%nat ->
  length iv = 12%nat ->
  crypto (env (world s)) = WebCrypto ->
  password <> [] ->
  decryptData (x01 :: salt ++ iv ++ ct) password s
  = match aes_gcm_decrypt (key_of password salt) iv ct with
    | Some p => (Returned p, after_decrypt s)
    | None => (Thrown DecryptionFailed, after_reject s)
    end.
Proof.
  intros Hs Hi Hc Hp. unfold decryptData.
  replace (length (x01 :: salt ++ iv ++ ct) <? 29)%nat with false.
  2:{ symmetry. apply Nat.ltb_ge. rewrite envelope_length by assumption. lia. }
  rewrite (nonempty_length _ Hp).
  cbn [nth]. cbn [Byte.eqb negb].
  change (negb (Byte.eqb x01 x01)) with false. cbn iota.
  rewrite envelope_salt, envelope_iv, envelope_ciphertext by assumption.
  unfold bind at 1. unfold deriveKey, get, host_call, modify, ret, bind.
  rewrite Hc. cbn [world on_world env log_call self on_self].
  unfold try_catch, subtle_decrypt, bind, host_call, modify, ret, throw.
  fold (key_of password salt).
  destruct (aes_gcm_decrypt (key_of password salt) iv ct); reflexivity.
Qed.

(** Whatever it is given, [decryptData] fails in one of four ways only. *)
Lemma decryptData_errors (d : list byte) (password : DOMString) (s s' : State)
    (e : JsError) :
  crypto (env (world s)) = WebCrypto ->
  decryptData d password s = (Thrown e, s') ->
  e = Error msg_short \/ e = Error msg_password
  \/ e = Error (msg_version (nth 0 d x00)) \/ e = DecryptionFailed.
Proof.
  intros Hc. unfold decryptData.
  destruct (length d <? 29)%nat; [intros H; injection H as <- _; auto|].
  destruct (length password =? 0)%nat; [intros H; injection H as <- _; auto|].
  destruct (negb _); [intros H; injection H as <- _; auto|].
  unfold bind at 1. unfold deriveKey, get, host_call, modify, ret, bind.
  rewrite Hc. cbn [world on_world env log_call self on_self].
  unfold try_catch, subtle_decrypt, bind, host_call, modify, ret, throw.
  destruct (aes_gcm_decrypt _ _ _); intros H; [discriminate|].
  injection H as <- _. auto.
Qed.

(** C1. With a provider whose decryption inverts its encryption, on a host
    with Web Crypto, [decryptData(encryptData(P, W), W)] returns [P] for every
    plaintext [P] and non-empty password [W]. *)
Theorem encrypt_decrypt_roundtrip :
  aead_correct SC ->
  forall (P : list byte) (W : DOMString) (s : State),
    crypto (env (world s)) = WebCrypto ->
    W <> [] ->
    exists envelope s1 s2,
      encryptData P W s = (Returned envelope, s1)
      /\ decryptData envelope W s1 = (Returned P, s2).
Proof.
  intros Hok P W s Hc Hw.
  exists (x01 :: salt_of s ++ iv_of s ++ sealed P W s), (after_encrypt s),
         (after_decrypt (after_encrypt s)).
  split; [now apply encryptData_returns|].
  rewrite decryptData_envelope; auto using salt_length, iv_length.
  unfold sealed. now rewrite Hok.
Qed.

(** C4. Every array [encryptData] returns has byte 0 equal to 1, the salt in
    bytes 1-16, the nonce in bytes 17-28 and the provider's output from byte
    29 on, so its length is 29 plus the length of that output, and at least
    29 plus the tag length for a provider that appends a tag; it does return
    on a host with Web Crypto.  [decryptData] rejects an input shorter than
    29 bytes, and an input whose byte 0 is not 1, leaving the state as it
    was: the provider has not been called. *)
Theorem envelope_wire_format :
  (forall data password s envelope s',
      encryptData data password s = (Returned envelope, s') ->
      nth_error envelope 0 = Some x01
      /\ slice 1 17 envelope = salt_of s /\ length (salt_of s) = 16%nat
      /\ slice 17 29 envelope = iv_of s /\ length (iv_of s) = 12%nat
      /\ skipn 29 envelope = sealed data password s
      /\ length envelope = (29 + length (sealed data password s))%nat
      /\ (forall tag, aead_tag_length SC tag ->
                      length envelope = (29 + (length data + tag))%nat
                      /\ (29 + tag <= length envelope)%nat))
  /\ (forall data password s,
         crypto (env (world s)) = WebCrypto -> password <> [] ->
         exists envelope s', encryptData data password s = (Returned envelope, s'))
  /\ (forall d password s,
         (length d < 29)%nat ->
         decryptData d password s = (Thrown (Error msg_short), s))
  /\ (forall d password s,
         nth_error d 0 <> Some x01 ->
         exists e, decryptData d password s = (Thrown e, s)
                   /\ ((29 <= length d)%nat -> password <> [] ->
                       e = Error (msg_version (nth 0 d x00)))).
Proof.
  split; [|split; [|split]].
  - intros data password s envelope s' H.
    assert (Hc : crypto (env (world s)) = WebCrypto /\ password <> []).
    { unfold encryptData in H. destruct password as [|c w].
      - simpl in H. discriminate.
      - split; [|discriminate].
        change (length (c :: w) =? 0)%nat with false in H. cbn iota in H.
        unfold bind at 1 in H. unfold getRandomValues at 1 in H.
        destruct (crypto (env (world s))) eqn:E; [discriminate| |reflexivity].
        unfold bind at 1 in H. unfold getRandomValues at 1 in H.
        cbn [world on_world env draw] in H. rewrite E in H.
        unfold bind at 1 in H. unfold deriveKey, get, bind in H.
        cbn [world on_world env draw] in H. rewrite E in H. discriminate. }
    destruct Hc as [Hc Hp].
    rewrite (encryptData_returns data password s Hc Hp) in H.
    assert (He : envelope = x01 :: salt_of s ++ iv_of s ++ sealed data password s)
      by congruence.
    subst envelope. clear H.
    pose proof (salt_length s) as Ls. pose proof (iv_length s) as Li.
    pose proof (envelope_length _ _ (sealed data password s) Ls Li) as Hlen.
    split; [reflexivity|].
    split; [now apply envelope_salt|]. split; [assumption|].
    split; [now apply envelope_iv|]. split; [assumption|].
    split; [now apply envelope_ciphertext|]. split; [assumption|].
    intros tag H. rewrite Hlen. unfold sealed. rewrite H. lia.
  - intros data password s Hc Hp. eexists. eexists.
    now apply encryptData_returns.
  - intros d password s H. now apply decryptData_short.
  - intros d password s H.
    destruct (Nat.lt_ge_cases (length d) 29) as [L|L].
    + exists (Error msg_short). split; [now apply decryptData_short | lia].
    + destruct password as [|c w].
      * exists (Error msg_password). split; [|congruence].
        unfold decryptData.
        replace (length d <? 29)%nat with false by (symmetry; now apply Nat.ltb_ge).
        reflexivity.
      * exists (Error (msg_version (nth 0 d x00))). split; [|reflexivity].
        apply decryptData_version; [assumption | discriminate |].
        intros E. apply H. destruct d as [|b d']; [simpl in L; lia|].
        simpl in *. congruence.
Qed.


End WithProvider.

End CoreProps.

(** ** The concrete hosts have the assumed properties *)

Module ToyProps.
Import Toy.

Lemma bytes_eqb_eq (a : list byte) : forall b, bytes_eqb a b = true <-> a = b.
Proof.
  induction a as [|x a IH]; intros [|y b]; simpl; try (split; [discriminate | congruence]).
  - tauto.
  - rewrite andb_true_iff, byte_eqb_eq, IH. split.
    + intros [-> ->]. reflexivity.
    + intros H. injection H as -> ->. auto.
Qed.

Lemma pad_length (n : nat) (bs : list byte) : length (pad n bs) = n.
Proof.
  unfold pad. rewrite length_firstn, length_app, repeat_length. lia.
Qed.

Lemma seal_opens (k iv p : list byte) : open k iv (seal k iv p) = Some p.
Proof.
  unfold open, seal, tag16.
  rewrite length_app, pad_length.
  replace (length p + 16 <? 16)%nat with false by (symmetry; apply Nat.ltb_ge; lia).
  replace (length p + 16 - 16)%nat with (length p) by lia.
  rewrite skipn_app, Nat.sub_diag, skipn_all. simpl.
  replace (bytes_eqb (pad 16 (k ++ iv)) (pad 16 (k ++ iv))) with true
    by (symmetry; now apply bytes_eqb_eq).
  rewrite firstn_app, Nat.sub_diag, firstn_all. simpl. now rewrite app_nil_r.
Qed.

Lemma crypto_correct : aead_correct crypto.
Proof. intros k iv p. apply seal_opens. Qed.

Lemma crypto_tag_length : aead_tag_length crypto 16.
Proof.
  intros k iv p. simpl. unfold seal, tag16. now rewrite length_app, pad_length.
Qed.

Lemma crypto_sha256_length : sha256_is_32_bytes crypto.
Proof. intros d. apply pad_length. Qed.

Lemma untwice_twice (bs : list byte) : untwice (twice bs) = Some bs.
Proof.
  induction bs as [|b bs IH]; simpl; [reflexivity|].
  now rewrite byte_eqb_refl, IH.
Qed.

Lemma twice_length (bs : list byte) : length (twice bs) = (2 * length bs)%nat.
Proof. induction bs; simpl; lia. Qed.




Lemma ideal_opens (k : list byte * list byte) (iv p : list byte) :
  ideal_open k iv (ideal_seal k iv p) = Some p.
Proof.
  unfold ideal_open, ideal_seal. rewrite untwice_twice.
  rewrite firstn_app, Nat.sub_diag, firstn_all. simpl. rewrite app_nil_r.
  replace (bytes_eqb (header k iv) (header k iv)) with true
    by (symmetry; now apply bytes_eqb_eq).
  rewrite skipn_app, Nat.sub_diag, skipn_all. reflexivity.
Qed.

Lemma ideal_correct : aead_correct ideal_crypto.
Proof. intros k iv p. apply ideal_opens. Qed.




End ToyProps.

(** ** The envelope on concrete inputs *)

Module CoreExamples.
Import Core CoreProps Toy.

Definition plaintext : list byte := [x01; x02; x03; x04; x05].

Definition start : State := state false None None.

(** The scenario of the encrypted round trip: [[1,2,3,4,5]] under the
    password [correct]. *)
Lemma encrypt_decrypt_roundtrip_witness :
  exists envelope s1 s2,
    encryptData plaintext (wide "correct") start = (Returned envelope, s1)
    /\ decryptData envelope (wide "correct") s1 = (Returned plaintext, s2).
Proof.
  apply (encrypt_decrypt_roundtrip (SC := crypto) ToyProps.crypto_correct);
    [reflexivity | discriminate].
Defined.

(** The envelope of that scenario: 29 bytes of header, 5 of plaintext, 16
    of tag; and a two-byte input is turned away. *)
Lemma envelope_wire_format_witness :
  (exists envelope s',
      encryptData plaintext (wide "correct") start = (Returned envelope, s')
      /\ nth_error envelope 0 = Some x01
      /\ skipn 29 envelope = sealed plaintext (wide "correct") start
      /\ length envelope = (29 + (length plaintext + 16))%nat)
  /\ decryptData [x01; x02] (wide "correct") start = (Thrown (Error msg_short), start).
Proof.
  destruct (envelope_wire_format (SC := crypto)) as (H1 & H2 & H3 & _).
  split.
  - destruct (H2 plaintext (wide "correct") start) as (envelope & s' & E);
      [reflexivity | discriminate |].
    exists envelope, s'.
    destruct (H1 _ _ _ _ _ E) as (A & _ & _ & _ & _ & B & _ & T).
    split; [exact E|]. split; [exact A|]. split; [exact B|].
    exact (proj1 (T 16%nat ToyProps.crypto_tag_length)).
  - apply H3. simpl. lia.
Defined.


(** The same envelope under the password [wrong]. *)
Example wrong_password_scenario :
  exists envelope s1,
    encryptData plaintext (wide "correct") start = (Returned envelope, s1)
    /\ fst (decryptData envelope (wide "wrong") s1) = Thrown DecryptionFailed.
Proof.
  eexists. eexists. split; [vm_compute; reflexivity|]. vm_compute. reflexivity.
Qed.


End CoreExamples.

(** ** Content-addressed file names *)

Module TrustProps.
Import Trust.

Lemma chars_app (a b : string) : chars (a ++ b)%string = chars a ++ chars b.
Proof. induction a as [|c a IH]; simpl; [reflexivity | now rewrite IH]. Qed.

Lemma chars_length (s : string) : length (chars s) = String.length s.
Proof. induction s as [|c s IH]; simpl; [reflexivity | now rewrite IH]. Qed.

Lemma str_length (l : list ascii) : String.length (str l) = length l.
Proof. induction l as [|c l IH]; simpl; [reflexivity | now rewrite IH]. Qed.

Lemma chars_str (l : list ascii) : chars (str l) = l.
Proof. apply list_ascii_of_string_of_list_ascii. Qed.

Lemma str_chars (s : string) : str (chars s) = s.
Proof. apply string_of_list_ascii_of_string. Qed.

Lemma chars_substring0 (s : string) : forall n, chars (substring 0 n s) = firstn n (chars s).
Proof.
  induction s as [|c s IH]; intros [|n]; simpl; try reflexivity.
  now rewrite IH.
Qed.

Lemma substring0_all (s : string) : substring 0 (String.length s) s = s.
Proof. induction s as [|c s IH]; simpl; [reflexivity | now rewrite IH]. Qed.

(** *** The file-name pattern *)

Lemma ends_dot_html_length (t : list ascii) : ends_dot_html t = true -> length t = 5%nat.
Proof.
  destruct t as [|c0 [|c1 [|c2 [|c3 [|c4 [|c5 t]]]]]]; simpl; try discriminate.
  reflexivity.
Qed.

Lemma counts_down_In (m : nat) : forall n, In n (counts_down m) <-> (6 <= n <= m)%nat.
Proof.
  induction m as [|m IH]; intros n.
  - simpl. split; [tauto | lia].
  - cbn [counts_down]. destruct (6 <=? S m)%nat eqn:E.
    + apply Nat.leb_le in E. cbn [In]. rewrite IH. lia.
    + apply Nat.leb_gt in E. cbn [In]. lia.
Qed.

Lemma counts_down_head (m : nat) :
  (6 <= m)%nat -> exists tl, counts_down m = m :: tl.
Proof.
  destruct m as [|m]; [lia|]. intros H. cbn [counts_down].
  replace (6 <=? S m)%nat with true by (symmetry; now apply Nat.leb_le).
  eauto.
Qed.

Lemma hex_run_bound (max : nat) : forall s, (hex_run max s <= max)%nat.
Proof.
  induction max as [|m IH]; intros [|c s]; simpl; try lia.
  destruct (is_hex_class c); [specialize (IH s)|]; lia.
Qed.

Lemma hex_run_within (max : nat) : forall s, (hex_run max s <= length s)%nat.
Proof.
  induction max as [|m IH]; intros [|c s]; simpl; try lia.
  destruct (is_hex_class c); [specialize (IH s)|]; lia.
Qed.

Lemma hex_run_is_hex (max : nat) :
  forall s, forallb is_hex_class (firstn (hex_run max s) s) = true.
Proof.
  induction max as [|m IH]; intros [|c s]; simpl; try reflexivity.
  destruct (is_hex_class c) eqn:E; simpl; [|reflexivity].
  now rewrite E, IH.
Qed.

(** The run stops at the first character outside the class. *)
Lemma hex_run_stops (pre : list ascii) (c : ascii) (rest : list ascii) :
  is_hex_class c = false ->
  forall max, (hex_run max (pre ++ c :: rest) <= length pre)%nat.
Proof.
  intros Hc. induction pre as [|x pre IH]; intros [|m]; simpl; try lia.
  - now rewrite Hc.
  - destruct (is_hex_class x); [specialize (IH m)|]; lia.
Qed.

Lemma hex_run_takes_all (h : list ascii) (c : ascii) (rest : list ascii) :
  forallb is_hex_class h = true ->
  is_hex_class c = false ->
  forall max, (length h <= max)%nat -> hex_run max (h ++ c :: rest) = length h.
Proof.
  intros Hh Hc. induction h as [|x h IH]; intros max Hm.
  - destruct max; simpl; [reflexivity | now rewrite Hc].
  - simpl in Hh. apply andb_true_iff in Hh. destruct Hh as [Hx Hh].
    destruct max as [|m]; [simpl in Hm; lia|].
    simpl. rewrite Hx. f_equal. apply IH; [assumption | simpl in Hm; lia].
Qed.

Lemma find_none {A} (f : A -> bool) (l : list A) :
  (forall x, In x l -> f x = false) -> find f l = None.
Proof.
  induction l as [|x l IH]; intros H; simpl; [reflexivity|].
  rewrite (H x) by (left; reflexivity). apply IH. intros y Hy. apply H. now right.
Qed.

Lemma dot_is_dot : char_is "." "." = true.
Proof. reflexivity. Qed.

Lemma dot_not_hex (c : ascii) : char_is "." c = true -> is_hex_class c = false.
Proof.
  destruct c as [[] [] [] [] [] [] [] []]; vm_compute; congruence.
Qed.

(** A match that starts before a non-hex character followed by at least
    five more characters fails. *)
Lemma match_at_too_early (x : ascii) (pre : list ascii) (d : ascii)
    (tail : list ascii) :
  is_hex_class d = false ->
  (5 <= length tail)%nat ->
  match_at (x :: pre ++ d :: tail) = None.
Proof.
  intros Hd Htail. cbn [match_at]. destruct (char_is "." x); [|reflexivity].
  rewrite find_none; [reflexivity|].
  intros n Hn. apply counts_down_In in Hn.
  pose proof (hex_run_stops pre d tail Hd 64) as Hrun.
  destruct (ends_dot_html (skipn n (pre ++ d :: tail))) eqn:E; [|reflexivity].
  exfalso. apply ends_dot_html_length in E.
  rewrite length_skipn, length_app in E. cbn [length] in E. lia.
Qed.

(** The pattern finds the hex run between the last dot and [.html]. *)
Lemma regex_match_suffix (pre : list ascii) (d : ascii) (h ext : list ascii) :
  char_is "." d = true ->
  forallb is_hex_class h = true ->
  (6 <= length h <= 64)%nat ->
  ends_dot_html ext = true ->
  regex_match (pre ++ d :: h ++ ext) = Some h.
Proof.
  intros Hd Hh Hlen Hext.
  assert (Hrun : hex_run 64 (h ++ ext) = length h).
  { destruct ext as [|e ext]; [discriminate|].
    apply hex_run_takes_all; [assumption | | lia].
    apply dot_not_hex. simpl in Hext.
    destruct ext as [|c1 [|c2 [|c3 [|c4 [|c5 t]]]]]; try discriminate.
    now destruct (char_is "." e). }
  induction pre as [|x pre IH].
  - cbn [app regex_match match_at]. rewrite Hd, Hrun.
    destruct (counts_down_head (length h)) as [tl ->]; [lia|].
    cbn [find]. rewrite skipn_app, Nat.sub_diag, skipn_all. cbn [app skipn].
    rewrite Hext. rewrite firstn_app, Nat.sub_diag, firstn_all. simpl.
    now rewrite app_nil_r.
  - cbn [app regex_match]. rewrite match_at_too_early;
      [exact IH | now apply dot_not_hex | rewrite length_app; lia].
Qed.

Lemma forallb_firstn_le {A} (f : A -> bool) (l : list A) :
  forall m n, (n <= m)%nat -> forallb f (firstn m l) = true ->
              forallb f (firstn n l) = true.
Proof.
  induction l as [|x l IH]; intros [|m] [|n] H; simpl; auto; try lia.
  rewrite !andb_true_iff. intros [Hx Hl]. split; [assumption|].
  apply (IH m); [lia | assumption].
Qed.

Lemma match_at_sound (s h : list ascii) :
  match_at s = Some h ->
  exists d ext,
    s = d :: h ++ ext /\ char_is "." d = true /\ forallb is_hex_class h = true
    /\ (6 <= length h <= 64)%nat /\ ends_dot_html ext = true.
Proof.
  destruct s as [|d r]; [discriminate|]. cbn [match_at].
  destruct (char_is "." d) eqn:Hd; [|discriminate].
  destruct (find _ _) as [n|] eqn:F; [|discriminate].
  intros H. injection H as <-.
  apply find_some in F. destruct F as [Hn Hext]. apply counts_down_In in Hn.
  pose proof (hex_run_bound 64 r). pose proof (hex_run_within 64 r).
  exists d, (skipn n r). rewrite firstn_skipn.
  repeat split; try assumption.
  - apply (forallb_firstn_le _ _ (hex_run 64 r)); [lia | apply hex_run_is_hex].
  - rewrite length_firstn. lia.
  - rewrite length_firstn. lia.
Qed.

(** What [filename.match] returns is group 1 of a match at the end. *)
Lemma regex_match_sound (s : list ascii) :
  forall h, regex_match s = Some h ->
  exists pre d ext,
    s = pre ++ d :: h ++ ext /\ char_is "." d = true
    /\ forallb is_hex_class h = true /\ (6 <= length h <= 64)%nat
    /\ ends_dot_html ext = true.
Proof.
  induction s as [|x s IH]; intros h H.
  - simpl in H. discriminate.
  - cbn [regex_match] in H. destruct (match_at (x :: s)) as [g|] eqn:M.
    + injection H as ->. apply match_at_sound in M.
      destruct M as (d & ext & E & M'). exists [], d, ext. split; [exact E | exact M'].
    + apply IH in H. destruct H as (pre & d & ext & -> & M').
      exists (x :: pre), d, ext. split; [reflexivity | exact M'].
Qed.

(** [extractHashFromFilename] accepts exactly the names
    [<base>.<6-64 hex>.html], in either case, and returns the hex part in
    lower case. *)
Lemma extractHashFromFilename_spec (filename h : string) :
  extractHashFromFilename filename = Some h <->
  exists pre d hx ext,
    chars filename = pre ++ d :: hx ++ ext /\ char_is "." d = true
    /\ forallb is_hex_class hx = true /\ (6 <= length hx <= 64)%nat
    /\ ends_dot_html ext = true /\ h = str (toLowerCase hx).
Proof.
  unfold extractHashFromFilename. split.
  - destruct (regex_match (chars filename)) as [g|] eqn:R; [|discriminate].
    intros H. injection H as <-. apply regex_match_sound in R.
    destruct R as (pre & d & ext & E & M1 & M2 & M3 & M4).
    exists pre, d, g, ext. auto 10.
  - intros (pre & d & hx & ext & E & M1 & M2 & M3 & M4 & ->).
    rewrite E, regex_match_suffix by assumption. reflexivity.
Qed.

Lemma extractHashFromFilename_length (filename h : string) :
  extractHashFromFilename filename = Some h ->
  (6 <= String.length h <= 64)%nat.
Proof.
  intros H. apply extractHashFromFilename_spec in H.
  destruct H as (pre & d & hx & ext & _ & _ & _ & L & _ & ->).
  unfold toLowerCase. now rewrite str_length, length_map.
Qed.

Lemma char_is_lower (p c : ascii) :
  In p (chars ".html") -> char_is p c = Ascii.eqb (toLowerCase_char c) p.
Proof.
  intros H. cbn in H.
  destruct H as [<-|[<-|[<-|[<-|[<-|[]]]]]];
    destruct c as [[] [] [] [] [] [] [] []]; reflexivity.
Qed.

Lemma ends_dot_html_lower (ext : list ascii) :
  ends_dot_html ext = true <-> toLowerCase ext = chars ".html".
Proof.
  unfold ends_dot_html, toLowerCase.
  destruct ext as [|c0 [|c1 [|c2 [|c3 [|c4 [|c5 ext]]]]]];
    try (split; [discriminate | cbn; discriminate]).
  rewrite !char_is_lower by (cbn; auto 10). cbn [map chars list_ascii_of_string].
  rewrite !andb_true_iff, !Ascii.eqb_eq. split.
  - intros ((((-> & ->) & ->) & ->) & ->). reflexivity.
  - intros H. injection H as -> -> -> -> ->. auto.
Qed.

Lemma char_is_dot (d : ascii) : char_is "." d = true <-> d = "."%char.
Proof.
  split; [|intros ->; reflexivity].
  destruct d as [[] [] [] [] [] [] [] []]; try discriminate; reflexivity.
Qed.

(** A file name that carries the hex prefix [hx]: [stem.hx.ext], where [hx]
    is 6 to 64 hexadecimal digits of either case and [ext] is [html] in any
    mix of cases. *)
Definition addressed (filename hx : string) : Prop :=
  exists stem ext,
    filename = (stem ++ "." ++ hx ++ "." ++ ext)%string
    /\ forallb is_hex_class (chars hx) = true
    /\ (6 <= String.length hx <= 64)%nat
    /\ str (toLowerCase (chars ext)) = "html".

Lemma addressed_extract (filename hx : string) :
  addressed filename hx ->
  extractHashFromFilename filename = Some (str (toLowerCase (chars hx))).
Proof.
  intros (stem & ext & -> & M2 & M3 & M4).
  apply extractHashFromFilename_spec.
  exists (chars stem), "."%char, (chars hx), (chars ("." ++ ext)%string).
  rewrite !chars_app, chars_length.
  split; [reflexivity|]. split; [reflexivity|]. split; [assumption|].
  split; [assumption|]. split; [|reflexivity].
  apply ends_dot_html_lower. cbn [chars list_ascii_of_string app toLowerCase map].
  fold (chars ext). fold (toLowerCase (chars ext)).
  rewrite <- (chars_str (toLowerCase _)), M4. reflexivity.
Qed.

Lemma extract_addressed (filename h : string) :
  extractHashFromFilename filename = Some h ->
  exists hx, addressed filename hx /\ h = str (toLowerCase (chars hx)).
Proof.
  intros H. apply extractHashFromFilename_spec in H.
  destruct H as (pre & d & hx & ext & E & M1 & M2 & M3 & M4 & ->).
  apply char_is_dot in M1. subst d. apply ends_dot_html_lower in M4.
  destruct ext as [|dot ext]; [discriminate|].
  cbn [toLowerCase map chars list_ascii_of_string] in M4.
  injection M4 as Hdot M4.
  assert (dot = "."%char) as ->.
  { destruct dot as [[] [] [] [] [] [] [] []]; try discriminate; reflexivity. }
  exists (str hx). split; [|now rewrite chars_str].
  exists (str pre), (str ext). rewrite !chars_str, str_length.
  split; [|split; [assumption|split; [assumption|]]].
  - rewrite <- (str_chars filename), E, <- (str_chars (_ ++ _)%string).
    now rewrite !chars_app, !chars_str.
  - fold (toLowerCase ext) in M4. now rewrite M4.
Qed.

Lemma unaddressed_extract (filename : string) :
  (forall hx, ~ addressed filename hx) -> extractHashFromFilename filename = None.
Proof.
  intros H. destruct (extractHashFromFilename filename) as [h|] eqn:E;
    [|reflexivity].
  apply extract_addressed in E. destruct E as (hx & A & _). now apply H in A.
Qed.

(** *** Hex digests *)

Definition lower_hex (c : ascii) : bool := in_range 48 57 c || in_range 97 102 c.

Lemma hex_of_byte_lower (b : byte) : forallb lower_hex (hex_of_byte b) = true.
Proof. destruct b; reflexivity. Qed.

Lemma lower_hex_in_class (c : ascii) : lower_hex c = true -> is_hex_class c = true.
Proof.
  unfold lower_hex, is_hex_class. intros H. now rewrite H.
Qed.

Lemma lower_hex_fixed (c : ascii) : lower_hex c = true -> toLowerCase_char c = c.
Proof.
  destruct c as [[] [] [] [] [] [] [] []]; vm_compute; congruence.
Qed.

Lemma hex_chars (bs : list byte) : chars (hex bs) = flat_map hex_of_byte bs.
Proof. unfold hex. apply chars_str. Qed.

Lemma hex_lower (bs : list byte) : forallb lower_hex (chars (hex bs)) = true.
Proof.
  rewrite hex_chars. induction bs as [|b bs IH]; [reflexivity|].
  cbn [flat_map]. rewrite forallb_app, hex_of_byte_lower, IH. reflexivity.
Qed.

Lemma hex_length (bs : list byte) : String.length (hex bs) = (2 * length bs)%nat.
Proof.
  rewrite <- chars_length, hex_chars.
  induction bs as [|b bs IH]; [reflexivity|].
  cbn [flat_map]. rewrite length_app, IH. simpl. lia.
Qed.

Lemma forallb_impl {A} (f g : A -> bool) (l : list A) :
  (forall x, f x = true -> g x = true) -> forallb f l = true -> forallb g l = true.
Proof.
  intros H. induction l as [|x l IH]; simpl; [reflexivity|].
  rewrite !andb_true_iff. intros [Hx Hl]. auto.
Qed.

Lemma forallb_firstn {A} (f : A -> bool) (l : list A) (n : nat) :
  forallb f l = true -> forallb f (firstn n l) = true.
Proof.
  revert n. induction l as [|x l IH]; intros [|n]; simpl; try reflexivity.
  rewrite !andb_true_iff. intros [Hx Hl]. auto.
Qed.

Lemma toLowerCase_lower (l : list ascii) :
  forallb lower_hex l = true -> toLowerCase l = l.
Proof.
  induction l as [|c l IH]; simpl; [reflexivity|].
  rewrite andb_true_iff. intros [Hc Hl].
  unfold toLowerCase in *. now rewrite (lower_hex_fixed c Hc), IH.
Qed.

Lemma slice0_within (n : nat) (s : string) :
  (n <= String.length s)%nat -> slice0 (Z.of_nat n) s = substring 0 n s.
Proof.
  intros H. unfold slice0.
  replace (Z.of_nat n <? 0)%Z with false by (symmetry; apply Z.ltb_ge; lia).
  rewrite Z.min_l by lia. now rewrite Nat2Z.id.
Qed.

Lemma slice0_chars (n : Z) (s : string) :
  (0 <= n <= Z.of_nat (String.length s))%Z ->
  chars (slice0 n s) = firstn (Z.to_nat n) (chars s).
Proof.
  intros H. unfold slice0.
  replace (n <? 0)%Z with false by (symmetry; apply Z.ltb_ge; lia).
  rewrite Z.min_l by lia. apply chars_substring0.
Qed.

(** [startsWith] against the truncated digest. *)
Lemma not_prefix_differs (expected actual : string) :
  prefix expected actual = false ->
  slice0 (Z.of_nat (String.length expected)) actual <> expected.
Proof.
  intros Hp E.
  assert (Hn : prefix expected actual <> true) by congruence.
  apply Hn. apply prefix_correct.
  destruct (Nat.le_gt_cases (String.length expected) (String.length actual)) as [L|L].
  - now rewrite slice0_within in E.
  - unfold slice0 in E.
    replace (Z.of_nat (String.length expected) <? 0)%Z with false in E
      by (symmetry; apply Z.ltb_ge; lia).
    rewrite Z.min_r, Nat2Z.id, substring0_all in E by lia.
    subst actual. lia.
Qed.

Lemma substring0_length (n : nat) (s : string) :
  (n <= String.length s)%nat -> String.length (substring 0 n s) = n.
Proof.
  intros H. rewrite <- chars_length, chars_substring0, length_firstn, chars_length. lia.
Qed.

Lemma dot_html : ends_dot_html (chars ".html") = true.
Proof. reflexivity. Qed.

Section WithProvider.
Context {SC : SubtleCrypto} {RX : RegExpEngine}.

(** For plain selectors [normalizeHTML] returns, the engine of the host not
    being asked. *)
Lemma strip_selectors_plain (selectors : list string) :
  forallb plain_selector selectors = true ->
  forall normalized,
    strip_selectors selectors normalized
    = Returned (fold_left (fun normalized selector =>
                             remove_elements (length normalized) (id_pattern selector)
                                             normalized)
                          selectors normalized).
Proof.
  induction selectors as [|selector rest IH]; intros H normalized; [reflexivity|].
  cbn [forallb] in H. apply andb_prop in H. destruct H as [H1 H2].
  cbn [strip_selectors fold_left]. unfold strip_selector. rewrite H1.
  now apply IH.
Qed.

Lemma normalizeHTML_plain (selectors : list string) (html : string) :
  forallb plain_selector selectors = true ->
  exists normalized, normalizeHTML selectors html = Returned normalized.
Proof.
  intros H. unfold normalizeHTML. rewrite (strip_selectors_plain _ H). eauto.
Qed.

(** The hex digest [generateContentHash] computes from the normalised
    content. *)
Definition digest_of (normalized : string) : string :=
  hex (sha256 (TextEncoder_encode normalized)).

Lemma generateContentHash_returns (html normalized : string) (s : State) :
  crypto (world s) = Core.WebCrypto ->
  normalizeHTML (excludeSelectors (config (self s))) html = Returned normalized ->
  generateContentHash html s = (Returned (digest_of normalized), s).
Proof.
  intros Hc Hn. unfold generateContentHash, subtle_digest, bind, get, ret.
  now rewrite Hn, Hc.
Qed.

Lemma generateContentHash_unnormalised (html : string) (s : State) (e : JsError) :
  normalizeHTML (excludeSelectors (config (self s))) html = Thrown e ->
  generateContentHash html s = (Thrown e, s).
Proof.
  intros Hn. unfold generateContentHash, bind, get. now rewrite Hn.
Qed.

Lemma generateContentHash_throws (html : string) (s : State) :
  crypto (world s) <> Core.WebCrypto ->
  exists error, generateContentHash html s = (Thrown error, s).
Proof.
  intros Hc. unfold generateContentHash, subtle_digest, bind, get, ret, throw.
  destruct (normalizeHTML (excludeSelectors (config (self s))) html); [|eauto].
  destruct (crypto (world s)); [eauto | eauto | congruence].
Qed.

Lemma digest_length (normalized : string) :
  sha256_is_32_bytes SC -> String.length (digest_of normalized) = 64%nat.
Proof. intros H. unfold digest_of. now rewrite hex_length, H. Qed.

(** [generateCommitFilename] when the digest is computed. *)
Lemma generateCommitFilename_returns (basename html normalized : string) (s : State) :
  sha256_is_32_bytes SC ->
  crypto (world s) = Core.WebCrypto ->
  normalizeHTML (excludeSelectors (config (self s))) html = Returned normalized ->
  (6 <= hashLength (config (self s)) <= 64)%Z ->
  generateCommitFilename basename html s
  = (Returned (basename ++ "."
               ++ substring 0 (Z.to_nat (hashLength (config (self s))))
                            (digest_of normalized)
               ++ ".html")%string, s).
Proof.
  intros Hsha Hc Hn Hlen. pose proof (digest_length normalized Hsha) as Hd.
  unfold generateCommitFilename, bind.
  rewrite (generateContentHash_returns html normalized s Hc Hn).
  unfold get, ret.
  replace (hashLength (config (self s)))
    with (Z.of_nat (Z.to_nat (hashLength (config (self s))))) at 1
    by (apply Z2Nat.id; lia).
  rewrite slice0_within by lia. reflexivity.
Qed.

(** The first characters of a digest are lower-case hex digits, and the name
    built around 6 to 64 of them has the shape the parser looks for. *)
Lemma short_hash_lower (n : nat) (normalized : string) :
  forallb lower_hex (chars (substring 0 n (digest_of normalized))) = true.
Proof. rewrite chars_substring0. apply forallb_firstn. apply hex_lower. Qed.

Lemma generated_name_addressed (basename normalized : string) (n : nat) :
  sha256_is_32_bytes SC ->
  6 <= n <= 64 ->
  addressed (basename ++ "." ++ substring 0 n (digest_of normalized) ++ ".html")
            (substring 0 n (digest_of normalized)).
Proof.
  intros Hsha Hn. pose proof (digest_length normalized Hsha) as Hd.
  exists basename, "html".
  split; [reflexivity|].
  split; [exact (forallb_impl _ _ _ lower_hex_in_class (short_hash_lower n normalized))|].
  split; [rewrite substring0_length; lia | reflexivity].
Qed.


(** The exception of the first hook of [verify] that throws, if one does:
    [renderBadge] when the badge is shown, then the callback when one is
    set. *)
Definition hook_error (s : State) : option JsError :=
  match (if showBadge (config (self s)) then renderBadge_throws (world s) else None)
  with
  | Some (_, e) => Some e
  | None => if hasCallback (config (self s)) then callback_throws (world s) else None
  end.

(** The answer of the [catch] clause. *)
Definition failed (e : JsError) : VerificationResult :=
  UNVERIFIED ("Verification error: " ++ message e)%string None.

(** [verify] after the branches that classify: the hooks run, and the first
    that throws turns the answer into the one of the [catch] clause. *)
Lemma verify_after_classify (s : State) (r : VerificationResult) :
  classify s = (Returned r, s) ->
  let answer := match hook_error s with Some e => failed e | None => r end in
  exists s', verify s = (Returned answer, s')
             /\ verificationResult (self s') = Some answer.
Proof.
  intros Hr. unfold verify, try_catch, bind at 1. rewrite Hr.
  unfold hook_error, renderBadge, badge_step, onVerificationComplete.
  unfold bind, modify, get, ret, throw.
  cbn [set_verificationResult set_doc_badge set_badgeElement self world config
       renderBadge_throws callback_throws].
  destruct (showBadge (config (self s))), (hasCallback (config (self s)));
    destruct (renderBadge_throws (world s)) as [[[] e]|] eqn:R;
    destruct (callback_throws (world s)) as [e'|] eqn:C;
    repeat (cbn; rewrite ?R, ?C); eexists; split; reflexivity.
Qed.

Lemma verify_after_throw (s : State) (e : JsError) :
  classify s = (Thrown e, s) ->
  verify s = (Returned (failed e), set_verificationResult (failed e) s).
Proof.
  intros He. unfold verify, try_catch, bind at 1. rewrite He. reflexivity.
Qed.

(** C3, as the code has it.  [verify] always returns and stores its answer.
    When no hook throws the answer is exactly: UNVERIFIED with reason
    [No hash found in filename] when the file name carries no hex prefix;
    VERIFIED when the recomputed digest, the SHA-256 of the normalised
    content in hex, starts with the prefix in lower case; otherwise TAMPERED
    with the expected prefix and the digest truncated to its length, the two
    being different (and of equal length for a 32-byte digest).  When
    recomputing the digest throws, normalising or hashing, the answer is
    UNVERIFIED with the error's message; and so it is when badge rendering
    or the completion callback throws, whatever the name and the digest. *)
Theorem verify_classifies (s : State) :
  let filename := doc_filename (world s) in
  exists result s',
    verify s = (Returned result, s')
    /\ verificationResult (self s') = Some result
    /\ ((forall hx, ~ addressed filename hx) ->
        result = match hook_error s with
                 | Some e => failed e
                 | None => UNVERIFIED "No hash found in filename" (Some filename)
                 end)
    /\ (forall hx, addressed filename hx ->
        let expected := str (toLowerCase (chars hx)) in
        (forall normalized,
            normalizeHTML (excludeSelectors (config (self s))) (getHTMLContent s)
            = Returned normalized ->
            crypto (world s) = Core.WebCrypto ->
            let actual := digest_of normalized in
            let truncated := slice0 (Z.of_nat (String.length expected)) actual in
            match hook_error s with
            | Some e => result = failed e
            | None =>
                if prefix expected actual
                then result = VERIFIED expected actual filename
                else result = TAMPERED expected truncated expected actual filename
                     /\ truncated <> expected
                     /\ (sha256_is_32_bytes SC ->
                         String.length truncated = String.length expected)
            end)
        /\ (forall e,
               normalizeHTML (excludeSelectors (config (self s))) (getHTMLContent s)
               = Thrown e ->
               result = failed e)
        /\ (crypto (world s) <> Core.WebCrypto -> exists e, result = failed e)).
Proof.
  intros filename.
  destruct (extractHashFromFilename filename) as [expected|] eqn:E.
  - (* a prefix *)
    pose proof (extractHashFromFilename_length _ _ E) as L.
    assert (Hcl : classify s
                  = (actualHash <- generateContentHash (getHTMLContent s) ;;
                     if prefix expected actualHash
                     then ret (VERIFIED expected actualHash filename)
                     else ret (TAMPERED expected
                                 (slice0 (Z.of_nat (String.length expected)) actualHash)
                                 expected actualHash filename))%eff s).
    { unfold classify, bind at 1, get. fold filename. rewrite E.
      replace (String.length expected =? 0)%nat with false
        by (symmetry; apply Nat.eqb_neq; lia).
      reflexivity. }
    assert (Hex : forall hx, addressed filename hx ->
                             expected = str (toLowerCase (chars hx))).
    { intros hx A. apply addressed_extract in A. congruence. }
    destruct (normalizeHTML (excludeSelectors (config (self s))) (getHTMLContent s))
      as [normalized|e0] eqn:Hn.
    + destruct (crypto (world s)) eqn:Hc.
      * destruct (generateContentHash_throws (getHTMLContent s) s) as [e He];
          [congruence|].
        assert (Hthrow : classify s = (Thrown e, s)).
        { rewrite Hcl. unfold bind. now rewrite He. }
        rewrite (verify_after_throw s e Hthrow).
        eexists. eexists. split; [reflexivity|]. split; [reflexivity|].
        split.
        { intros Hno. apply extract_addressed in E. destruct E as (hx & A & _).
          now apply Hno in A. }
        intros hx A. split; [|split].
        -- intros n _ W. discriminate.
        -- intros e1 H1. discriminate.
        -- intros _. eauto.
      * destruct (generateContentHash_throws (getHTMLContent s) s) as [e He];
          [congruence|].
        assert (Hthrow : classify s = (Thrown e, s)).
        { rewrite Hcl. unfold bind. now rewrite He. }
        rewrite (verify_after_throw s e Hthrow).
        eexists. eexists. split; [reflexivity|]. split; [reflexivity|].
        split.
        { intros Hno. apply extract_addressed in E. destruct E as (hx & A & _).
          now apply Hno in A. }
        intros hx A. split; [|split].
        -- intros n _ W. discriminate.
        -- intros e1 H1. discriminate.
        -- intros _. eauto.
      * pose proof (generateContentHash_returns _ _ s Hc Hn) as Hg.
        set (actual := digest_of normalized) in *.
        set (r := if prefix expected actual
                  then VERIFIED expected actual filename
                  else TAMPERED expected
                         (slice0 (Z.of_nat (String.length expected)) actual)
                         expected actual filename).
        assert (Hret : classify s = (Returned r, s)).
        { rewrite Hcl. unfold bind. rewrite Hg. unfold r.
          now destruct (prefix expected actual). }
        destruct (verify_after_classify s r Hret) as (s' & Hv & Hs).
        eexists. exists s'. split; [exact Hv|]. split; [exact Hs|].
        split.
        { intros Hno. apply extract_addressed in E. destruct E as (hx & A & _).
          now apply Hno in A. }
        intros hx A. rewrite <- (Hex hx A). split; [|split].
        -- intros n Hn' _. injection Hn' as <-. fold actual.
           destruct (hook_error s) as [e|]; [reflexivity|].
           unfold r. destruct (prefix expected actual) eqn:P; [reflexivity|].
           split; [reflexivity|]. split; [now apply not_prefix_differs|].
           intros Hsha. rewrite slice0_within, substring0_length;
             unfold actual; rewrite ?digest_length by assumption; lia.
        -- intros e1 H1. discriminate.
        -- intros W. congruence.
    + pose proof (generateContentHash_unnormalised _ s e0 Hn) as He.
      assert (Hthrow : classify s = (Thrown e0, s)).
      { rewrite Hcl. unfold bind. now rewrite He. }
      rewrite (verify_after_throw s e0 Hthrow).
      eexists. eexists. split; [reflexivity|]. split; [reflexivity|].
      split.
      { intros Hno. apply extract_addressed in E. destruct E as (hx & A & _).
        now apply Hno in A. }
      intros hx A. split; [|split].
      -- intros n H1. discriminate.
      -- intros e1 H1. now injection H1 as <-.
      -- intros _. eauto.
  - (* no prefix *)
    assert (Hret : classify s
                   = (Returned (UNVERIFIED "No hash found in filename" (Some filename)),
                      s)).
    { unfold classify, bind, get. fold filename. now rewrite E. }
    destruct (verify_after_classify s _ Hret) as (s' & Hv & Hs).
    eexists. exists s'. split; [exact Hv|]. split; [exact Hs|].
    split.
    + intros _. now destruct (hook_error s).
    + intros hx A. apply addressed_extract in A. congruence.
Qed.

End WithProvider.

End TrustProps.

(** ** Verification on concrete inputs *)

Module TrustExamples.
Import Trust TrustProps.
#[local] Existing Instance Toy.crypto.
#[local] Existing Instance Toy.regexp.

Definition config8 : Config :=
  {| hashLength := 8; showBadge := true;
     excludeSelectors := ["#trust-badge"; ".trust-modal"]; hasCallback := false |}.

(** A page opened under [filename] whose document is [html] until a badge is
    appended to it. *)
Definition with_badge (html : string) (b : option Badge) : string :=
  match b with
  | None => html
  | Some _ => (html ++ "<div id=" ++ String dquote "trust-badge" ++ String dquote ">"
               ++ "</div>")%string
  end.

Definition opened (filename html : string) : State :=
  {| self := {| config := config8; verificationResult := None;
                badgeElement := None; notified := [] |};
     world := {| crypto := Core.WebCrypto; doc_filename := filename;
                 doc_badge := None; doc_outerHTML := with_badge html;
                 renderBadge_throws := None; callback_throws := None |} |}.

Definition page : string := "<html><body>Test</body></html>".


Lemma addressed_example : addressed "app.3c68746d.html" "3c68746d".
Proof.
  exists "app", "html". split; [reflexivity|]. split; [reflexivity|].
  split; [simpl; lia | reflexivity].
Qed.

(** A name whose prefix the digest of the page starts with: VERIFIED. *)
Lemma verify_classifies_witness :
  fst (verify (opened "app.3c68746d.html" page))
  = Returned (VERIFIED "3c68746d"
                "3c68746d6c3e3c626f64793e546573743c2f626f64793e3c2f68746d6c3e0000"
                "app.3c68746d.html").
Proof.
  destruct (verify_classifies (SC := Toy.crypto) (opened "app.3c68746d.html" page))
    as (result & s' & Hv & _ & _ & H).
  rewrite Hv. cbn [fst]. f_equal.
  destruct (H "3c68746d" addressed_example) as (H1 & _).
  exact (H1 page eq_refl eq_refl).
Defined.

(** The same page under the same name, with a completion callback that
    throws: the prefix is there and the digest starts with it, and the
    answer is UNVERIFIED. *)
Definition interrupted : State :=
  {| self := {| config := {| hashLength := 8; showBadge := true;
                             excludeSelectors := ["#trust-badge"; ".trust-modal"];
                             hasCallback := true |};
                verificationResult := None; badgeElement := None; notified := [] |};
     world := {| crypto := Core.WebCrypto; doc_filename := "app.3c68746d.html";
                 doc_badge := None; doc_outerHTML := with_badge page;
                 renderBadge_throws := None;
                 callback_throws := Some (Error "callback failed") |} |}.

Lemma throwing_callback_unverifies_a_matching_name :
  addressed (doc_filename (world interrupted)) "3c68746d"
  /\ normalizeHTML (excludeSelectors (config (self interrupted)))
                   (getHTMLContent interrupted)
     = Returned page
  /\ prefix "3c68746d" (digest_of page) = true
  /\ fst (verify interrupted)
     = Returned (UNVERIFIED "Verification error: callback failed" None).
Proof.
  split; [exact addressed_example|]. repeat split; reflexivity.
Qed.

(** [normalizeHTML] drops the badge element up to its first closing tag,
    collapses white space and trims. *)
Example normalizeHTML_strips_badge :
  let q := String dquote EmptyString in
  normalizeHTML ["#trust-badge"; ".trust-modal"]
    ("<p>a</p>  <div class=x id=" ++ q ++ "trust-badge" ++ q ++ ">badge</div>"
     ++ "	<p>b</p> ")%string
  = Returned "<p>a</p> <p>b</p>".
Proof. reflexivity. Qed.

(** The three outcomes, and the error case, evaluated. *)
Example verify_verified :
  fst (verify (opened "app.3c68746d.html" page))
  = Returned (VERIFIED "3c68746d"
                "3c68746d6c3e3c626f64793e546573743c2f626f64793e3c2f68746d6c3e0000"
                "app.3c68746d.html").
Proof. reflexivity. Qed.

Example verify_tampered :
  fst (verify (opened "app.ab12cd.html" page))
  = Returned (TAMPERED "ab12cd" "3c6874" "ab12cd"
                "3c68746d6c3e3c626f64793e546573743c2f626f64793e3c2f68746d6c3e0000"
                "app.ab12cd.html").
Proof. reflexivity. Qed.

Example verify_unverified :
  fst (verify (opened "regular-file.html" page))
  = Returned (UNVERIFIED "No hash found in filename" (Some "regular-file.html")).
Proof. reflexivity. Qed.

End TrustExamples.

(** ** The commit chain *)

Module CommitsProps.
Import Commits.

Section WithHost.
Context {SC : SubtleCrypto} {RT : Runtime}.

(** The root record [init] writes under the clock of [w]. *)
Definition root_hash (w : World) : string :=
  generateHash (InitialData (clock w (S (ticks w)))).

Definition root_commit (w : World) : Commit :=
  {| hash := root_hash w; parent_hash := None; message := "Initial commit";
     created_at := clock w (ticks w) |}.

Lemma initialised_state (w : World) :
  initialised w
  = {| self := {| db := Some {| entries := []; sequence := 0;
                                commits := [root_commit w] |};
                  sqlJS := true;
                  metadata := {| commitHash := Some (root_hash w); parentHash := None;
                                 commitMessage := Some "Initial commit";
                                 commitDate := Some (clock w (ticks w)) |} |};
       world := {| clock := clock w; ticks := S (S (ticks w)) |} |}.
Proof. reflexivity. Qed.

(** The record [addEntry t] inserts from state [s]. *)
Definition next_commit (t : string) (s : State) : Commit :=
  {| hash := next_hash t s; parent_hash := commitHash (metadata (self s));
     message := substring 0 50 t;
     created_at := clock (world s) (S (S (ticks (world s)))) |}.

Lemma ensureInitialCommit_idle (s : State) (h : string) :
  commitHash (metadata (self s)) = Some h ->
  ensureInitialCommit s = (Returned tt, s).
Proof.
  intros H. unfold ensureInitialCommit, bind, get. now rewrite H.
Qed.

(** [addEntry] when the new hash is not in the store. *)
Lemma addEntry_fresh (t : string) (s : State) :
  fresh t s = true ->
  exists s',
    addEntry t s = (Returned (next_hash t s), s')
    /\ table s' = next_commit t s :: table s
    /\ commitHash (metadata (self s')) = Some (next_hash t s)
    /\ (exists d', db (self s') = Some d').
Proof.
  unfold fresh. destruct (db (self s)) as [d|] eqn:D; [|discriminate].
  intros F. apply negb_true_iff in F.
  unfold addEntry, bind, read_clock, db_run, get, modify, ret.
  cbn [self world db set_db]. rewrite D. cbn [insert_entry self world db set_db].
  unfold insert_commit.
  assert (E : generateHash
                (commit_data t (clock (world s) (S (ticks (world s))))
                   {| self := {| db := Some
                         {| entries := {| id := S (sequence d); text := t;
                                          entry_created_at := clock (world s) (ticks (world s)) |}
                                       :: entries d;
                            sequence := S (sequence d); commits := commits d |};
                         sqlJS := sqlJS (self s);
                         metadata := metadata (self s) |};
                      world := {| clock := clock (world s);
                                  ticks := S (S (ticks (world s))) |} |})
              = next_hash t s).
  { unfold next_hash, staged, bind, read_clock, db_run. cbn [self world db set_db].
    rewrite D. reflexivity. }
  cbn [hash metadata self world clock ticks]. rewrite E.
  unfold has_hash in *. cbn [commits]. rewrite F.
  eexists. split; [reflexivity|]. unfold table. cbn [self db commits add_commit set_db set_metadata metadata].
  split; [|split; [reflexivity | eauto]].
  unfold next_commit. rewrite D. reflexivity.
Qed.

(** [addEntry] when the new hash is already in the store. *)
Lemma addEntry_collision (t : string) (s : State) (d : Database) :
  db (self s) = Some d ->
  fresh t s = false ->
  exists s',
    addEntry t s = (Thrown (Error "UNIQUE constraint failed: commits.hash"), s')
    /\ table s' = table s
    /\ metadata (self s') = metadata (self s)
    /\ (exists d', db (self s') = Some d').
Proof.
  intros D. unfold fresh. rewrite D. intros F. apply negb_false_iff in F.
  unfold addEntry, bind, read_clock, db_run, get, modify, ret.
  cbn [self world db set_db]. rewrite D. cbn [insert_entry self world db set_db].
  unfold insert_commit.
  assert (E : generateHash
                (commit_data t (clock (world s) (S (ticks (world s))))
                   {| self := {| db := Some
                         {| entries := {| id := S (sequence d); text := t;
                                          entry_created_at := clock (world s) (ticks (world s)) |}
                                       :: entries d;
                            sequence := S (sequence d); commits := commits d |};
                         sqlJS := sqlJS (self s);
                         metadata := metadata (self s) |};
                      world := {| clock := clock (world s);
                                  ticks := S (S (ticks (world s))) |} |})
              = next_hash t s).
  { unfold next_hash, staged, bind, read_clock, db_run. cbn [self world db set_db].
    rewrite D. reflexivity. }
  cbn [hash metadata self world clock ticks]. rewrite E.
  unfold has_hash in *. cbn [commits]. rewrite F.
  eexists. split; [reflexivity|]. unfold table. cbn [self db commits metadata].
  rewrite D. repeat split; eauto.
Qed.

Lemma clearData_state (s : State) (d : Database) :
  db (self s) = Some d ->
  exists s',
    clearData s = (Returned tt, s')
    /\ table s' = filter is_root (table s)
    /\ metadata (self s') = metadata (self s)
    /\ (exists d', db (self s') = Some d').
Proof.
  intros D. unfold clearData, bind, db_run. rewrite D.
  cbn [delete_entries set_db self db delete_child_commits].
  eexists. split; [reflexivity|]. unfold table. cbn [self db commits metadata].
  rewrite D. split; [reflexivity|]. split; [reflexivity | eexists; reflexivity].
Qed.

Lemma has_hash_In (h : string) (d : Database) :
  has_hash h d = true <-> In h (map hash (commits d)).
Proof.
  unfold has_hash. rewrite existsb_exists, in_map_iff. split.
  - intros (c & Hc & E). apply String.eqb_eq in E. eauto.
  - intros (c & E & Hc). exists c. split; [assumption|]. now apply String.eqb_eq.
Qed.

Lemma filter_root_idempotent (l : list Commit) :
  filter is_root (filter is_root l) = filter is_root l.
Proof.
  induction l as [|c l IH]; simpl; [reflexivity|].
  destruct (is_root c) eqn:E; simpl; [rewrite E, IH|]; auto.
Qed.

Lemma NoDup_map_filter (f : Commit -> bool) (l : list Commit) :
  NoDup (map hash l) -> NoDup (map hash (filter f l)).
Proof.
  induction l as [|c l IH]; simpl; intros H; [assumption|].
  inversion H as [|? ? Hn Hl]; subst.
  destruct (f c); simpl; [|auto].
  constructor; [|auto]. intros Hin. apply Hn.
  apply in_map_iff in Hin. destruct Hin as (c' & E & Hc').
  apply filter_In in Hc'. apply in_map_iff. exists c'. tauto.
Qed.

(** What holds of every state of an initialised simulator. *)
Definition initialised_inv (s : State) : Prop :=
  (exists d, db (self s) = Some d)
  /\ (exists h, commitHash (metadata (self s)) = Some h)
  /\ one_root s.

(** What holds in addition as long as [clearData] has not run: the head is in
    the store. *)
Definition head_stored (s : State) : Prop :=
  exists c, In c (table s) /\ commitHash (metadata (self s)) = Some (hash c).

Lemma initialised_inv_init (w : World) : initialised_inv (initialised w).
Proof.
  rewrite initialised_state. unfold initialised_inv, one_root, table. simpl. eauto.
Qed.

Lemma initialised_inv_step (s : State) (op : Operation) :
  initialised_inv s -> initialised_inv (perform op s).
Proof.
  intros ((d & D) & (h & H) & R). destruct op as [|t|]; cbn [perform].
  - rewrite (ensureInitialCommit_idle s h H). unfold initialised_inv. eauto.
  - destruct (fresh t s) eqn:F.
    + destruct (addEntry_fresh t s F) as (s' & -> & T & M & D').
      cbn [snd]. unfold initialised_inv, one_root. rewrite T. cbn [filter].
      unfold next_commit at 1, is_root at 1. cbn [parent_hash]. rewrite H.
      eauto.
    + destruct (addEntry_collision t s d D F) as (s' & -> & T & M & D').
      cbn [snd]. unfold initialised_inv, one_root. rewrite T, M. eauto.
  - destruct (clearData_state s d D) as (s' & -> & T & M & D').
    cbn [snd]. unfold initialised_inv, one_root.
    rewrite T, M, filter_root_idempotent. eauto.
Qed.

Lemma reachable_inv (s : State) : reachable s -> initialised_inv s.
Proof.
  induction 1; [apply initialised_inv_init | now apply initialised_inv_step].
Qed.

Lemma unreset_reachable (s : State) : reachable_unreset s -> reachable s.
Proof. induction 1; now constructor. Qed.

Lemma unreset_links (s : State) :
  reachable_unreset s -> head_stored s /\ parents_exist s.
Proof.
  induction 1 as [w|s op Hs [Hh Hp] Hop].
  - rewrite initialised_state. unfold head_stored, parents_exist, table. simpl. split.
    + exists (root_commit w). auto.
    + intros c p [<-|[]]. discriminate.
  - pose proof (reachable_inv s (unreset_reachable s Hs)) as ((d & D) & (h & H) & R).
    destruct op as [|t|]; cbn [perform]; [| |discriminate].
    + rewrite (ensureInitialCommit_idle s h H). auto.
    + destruct (fresh t s) eqn:F.
      * destruct (addEntry_fresh t s F) as (s' & -> & T & M & D').
        cbn [snd]. unfold head_stored, parents_exist. rewrite T, M. split.
        -- exists (next_commit t s). split; [now left | reflexivity].
        -- intros c p [<-|Hc] Hpar.
           ++ cbn [next_commit parent_hash] in Hpar.
              destruct Hh as (c' & Hc' & E). exists c'. split; [now right|].
              congruence.
           ++ destruct (Hp c p Hc Hpar) as (c' & Hc' & E). exists c'.
              split; [now right | assumption].
      * destruct (addEntry_collision t s d D F) as (s' & -> & T & M & D').
        cbn [snd]. unfold head_stored, parents_exist. rewrite T, M. auto.
Qed.

(** The boolean reading of [parents_exist]. *)
Lemma parents_existb_complete (s : State) :
  parents_exist s -> parents_existb s = true.
Proof.
  intros H. unfold parents_existb. apply forallb_forall. intros c Hc.
  destruct (parent_hash c) as [p|] eqn:P; [|reflexivity].
  destruct (H c p Hc P) as (c' & Hc' & E).
  apply existsb_exists. exists c'. split; [assumption|].
  now apply String.eqb_eq.
Qed.

(** C6, as the code has it.  In every state reachable from [init] by
    [ensureInitialCommit], [addEntry] and [clearData], exactly one record has
    a null [parent_hash]; and in every state reached without [clearData],
    every non-null [parent_hash] is the hash of a record of the store. *)
Theorem chain_invariant (s : State) :
  (reachable s -> one_root s)
  /\ (reachable_unreset s -> parents_exist s).
Proof.
  split.
  - intros H. apply reachable_inv in H. apply H.
  - intros H. apply unreset_links in H. apply H.
Qed.

Lemma NoDup_perform (s : State) (op : Operation) :
  NoDup (map hash (table s)) -> NoDup (map hash (table (perform op s))).
Proof.
  intros N. destruct op as [|t|]; cbn [perform].
  - unfold ensureInitialCommit, bind, get.
    destruct (commitHash (metadata (self s))); [assumption|].
    unfold read_clock, modify, db_run, insert_or_ignore_commit.
    cbn [self world db set_metadata]. unfold table in *.
    destruct (db (self s)) as [d|] eqn:D; cbn [snd self db set_metadata]; rewrite ?D;
      [|assumption].
    destruct (has_hash _ d) eqn:F; cbn [snd self db set_db set_metadata]; [assumption|].
    cbn [add_commit commits map hash] in *. apply NoDup_cons; [|exact N].
    intros Hin. apply has_hash_In in Hin. congruence.
  - destruct (db (self s)) as [d|] eqn:D.
    + destruct (fresh t s) eqn:F.
      * destruct (addEntry_fresh t s F) as (s' & -> & T & M & D').
        cbn [snd]. rewrite T. cbn [map next_commit hash]. constructor; [|assumption].
        unfold fresh in F. rewrite D in F. apply negb_true_iff in F.
        intros Hin. unfold table in Hin. rewrite D in Hin.
        apply has_hash_In in Hin. congruence.
      * destruct (addEntry_collision t s d D F) as (s' & -> & T & M & D').
        cbn [snd]. now rewrite T.
    + unfold addEntry, bind, read_clock, db_run. cbn [self world db]. rewrite D.
      cbn [snd]. unfold table in *. cbn [self db]. rewrite D. constructor.
  - destruct (db (self s)) as [d|] eqn:D.
    + destruct (clearData_state s d D) as (s' & -> & T & M & D').
      cbn [snd]. rewrite T. now apply NoDup_map_filter.
    + unfold clearData, bind, db_run. rewrite D. cbn [snd]. assumption.
Qed.

(** C7, as the code has it.  When the hash to insert is already in the store:
    the [INSERT OR IGNORE] of the root initialisation leaves the store as it
    is and raises nothing; the plain [INSERT] of [addEntry] leaves the commit
    table and the head as they are but raises the primary-key violation; and
    after any operation the hashes of the store are still pairwise distinct. *)
Theorem existing_hash_reinsertion (s : State) (d : Database) :
  db (self s) = Some d ->
  NoDup (map hash (commits d)) ->
  (forall row, has_hash (hash row) d = true ->
               insert_or_ignore_commit row d = Returned d)
  /\ (commitHash (metadata (self s)) = None ->
      has_hash (root_hash (world s)) d = true ->
      exists s', ensureInitialCommit s = (Returned tt, s') /\ table s' = table s)
  /\ (forall t, fresh t s = false ->
                exists s',
                  addEntry t s
                  = (Thrown (Error "UNIQUE constraint failed: commits.hash"), s')
                  /\ table s' = table s
                  /\ metadata (self s') = metadata (self s))
  /\ (forall op, NoDup (map hash (table (perform op s)))).
Proof.
  intros D N. split; [|split; [|split]].
  - intros row H. unfold insert_or_ignore_commit. now rewrite H.
  - intros M H. unfold ensureInitialCommit, bind, get. rewrite M.
    unfold read_clock, modify, db_run, insert_or_ignore_commit.
    cbn [self world db set_metadata hash clock ticks]. rewrite D.
    fold (root_hash (world s)). rewrite H.
    eexists. split; [reflexivity|]. unfold table. cbn [self db set_db set_metadata].
    now rewrite D.
  - intros t F. destruct (addEntry_collision t s d D F) as (s' & E & T & M & _).
    eauto.
  - intros op. apply NoDup_perform. unfold table. now rewrite D.
Qed.

(** The [hash] and [parent_hash] of a record. *)
Definition link (c : Commit) : string * option string := (hash c, parent_hash c).

Lemma last_cons {A} (l : list A) : forall x d, last (x :: l) d = last l x.
Proof.
  induction l as [|y l IH]; intros x d; [reflexivity|].
  change (last (x :: y :: l) d) with (last (y :: l) d). now rewrite !IH.
Qed.

Lemma addEntries_chain (texts : list string) :
  forall (s : State) (head : string),
    commitHash (metadata (self s)) = Some head ->
    fresh_run texts s = true ->
    exists hashes s',
      addEntries texts s = (Returned hashes, s')
      /\ length hashes = length texts
      /\ map link (table s')
         = rev (combine hashes (map Some (head :: hashes))) ++ map link (table s)
      /\ filter is_root (table s') = filter is_root (table s)
      /\ commitHash (metadata (self s')) = Some (last hashes head).
Proof.
  induction texts as [|t texts IH]; intros s head H F.
  - exists [], s. cbn. auto.
  - cbn [fresh_run] in F. apply andb_true_iff in F. destruct F as [F1 F2].
    destruct (addEntry_fresh t s F1) as (s1 & E1 & T1 & M1 & D1).
    rewrite E1 in F2. cbn [snd] in F2.
    destruct (IH s1 (next_hash t s) M1 F2) as (hs & s' & E & L & T & R & M).
    exists (next_hash t s :: hs), s'.
    split; [cbn [addEntries]; unfold bind; rewrite E1, E; reflexivity|].
    split; [simpl; now rewrite L|].
    split; [|split].
    + assert (Hl : link (next_commit t s) = (next_hash t s, Some head)).
      { unfold link, next_commit. cbn [hash parent_hash]. now rewrite H. }
      rewrite T, T1. cbn [map combine rev]. rewrite Hl, <- app_assoc. reflexivity.
    + rewrite R, T1. cbn [filter]. unfold next_commit at 1, is_root at 1.
      cbn [parent_hash]. now rewrite H.
    + rewrite M. symmetry. f_equal. apply last_cons.
Qed.

(** C8, as the code has it.  From a freshly initialised store, when no
    generated hash collides with one already stored ([addEntry] inserts with
    a plain [INSERT], so a call whose hash is taken throws and adds no
    record), [N] sequential calls of [addEntry] all return and
    leave [N + 1] records; the root is the only record with a null
    [parent_hash]; and the [i]-th appended record has the hash returned by the
    [i]-th call and, as parent, the hash returned by the call before it (the
    root's for the first), which was the head at that moment. *)
Theorem sequential_appends (w : World) (texts : list string) :
  fresh_run texts (initialised w) = true ->
  exists hashes s',
    addEntries texts (initialised w) = (Returned hashes, s')
    /\ length (table s') = (length texts + 1)%nat
    /\ filter is_root (table s') = [root_commit w]
    /\ map link (table s')
       = rev (combine (root_hash w :: hashes)
                      (None :: map Some (root_hash w :: hashes)))
    /\ commitHash (metadata (self s')) = Some (last hashes (root_hash w)).
Proof.
  intros F.
  destruct (addEntries_chain texts (initialised w) (root_hash w)) as
    (hs & s' & E & L & T & R & M); [reflexivity | assumption |].
  exists hs, s'. split; [assumption|].
  assert (T' : map link (table s')
               = rev (combine (root_hash w :: hs)
                              (None :: map Some (root_hash w :: hs)))).
  { rewrite T. cbn [combine rev]. reflexivity. }
  split; [|split; [|split]]; try assumption.
  - rewrite <- (length_map link), T', length_rev, length_combine.
    cbn [length]. rewrite length_map. cbn [length]. lia.
Qed.

End WithHost.

End CommitsProps.

(** ** The commit chain on concrete runs *)

Module CommitsExamples.
Import Commits CommitsProps.
#[local] Existing Instance Toy.crypto.
#[local] Existing Instance Toy.runtime.

(** [init], [addEntry('Before clear')], [clearData()],
    [addEntry('After clear')]. *)
Definition after_clear : State :=
  perform (AddEntry "After clear")
    (perform ClearData
       (perform (AddEntry "Before clear") (initialised Toy.ticking))).

(** The record appended after [clearData] names as parent the head from
    before the reset, a record [clearData] has deleted. *)
Lemma append_after_clear_dangles :
  reachable after_clear
  /\ map link (table after_clear)
     = [("31303036", Some "31303033"); ("31303031", None)]
  /\ ~ parents_exist after_clear.
Proof.
  split; [unfold after_clear; repeat apply reachable_step; apply reachable_init|].
  split; [reflexivity|].
  intros H. apply parents_existb_complete in H.
  vm_compute in H. discriminate.
Qed.

(** One entry appended to a fresh store: one root, and the new record's
    parent is stored; after the reset and the next entry there is still one
    root. *)
Lemma chain_invariant_witness :
  one_root (perform (AddEntry "Before clear") (initialised Toy.ticking))
  /\ parents_exist (perform (AddEntry "Before clear") (initialised Toy.ticking))
  /\ one_root after_clear.
Proof.
  split; [|split].
  - apply (chain_invariant (perform (AddEntry "Before clear") (initialised Toy.ticking))).
    apply reachable_step. apply reachable_init.
  - apply (chain_invariant (perform (AddEntry "Before clear") (initialised Toy.ticking))).
    apply unreset_step; [apply unreset_init | reflexivity].
  - apply (chain_invariant after_clear).
    unfold after_clear. repeat apply reachable_step. apply reachable_init.
Defined.

(** An initialised store whose clock stands still: the next entry hashes to
    the root's hash. *)
Definition stalled : State := initialised Toy.frozen.

Lemma colliding_append_raises :
  exists d,
    db (self stalled) = Some d
    /\ has_hash (next_hash "x" stalled) d = true
    /\ fst (addEntry "x" stalled)
       = Thrown (Error "UNIQUE constraint failed: commits.hash").
Proof.
  eexists. split; [reflexivity|]. split; reflexivity.
Qed.

Lemma existing_hash_reinsertion_witness :
  fresh "x" stalled = false
  /\ exists s',
       addEntry "x" stalled
       = (Thrown (Error "UNIQUE constraint failed: commits.hash"), s')
       /\ table s' = table stalled
       /\ metadata (self s') = metadata (self stalled).
Proof.
  split; [reflexivity|].
  destruct (existing_hash_reinsertion stalled
              {| entries := []; sequence := 0; commits := [root_commit Toy.frozen] |}
              eq_refl)
    as (_ & _ & H & _).
  - repeat constructor. simpl. tauto.
  - apply H. reflexivity.
Defined.

(** One append on the store whose clock stands still: its hash is the
    root's, the call throws, and the store holds one record, not two. *)
Lemma colliding_append_adds_no_record :
  fresh_run ["x"] stalled = false
  /\ fst (addEntries ["x"] stalled)
     = Thrown (Error "UNIQUE constraint failed: commits.hash")
  /\ length (table stalled) = 1%nat
  /\ length (table (snd (addEntries ["x"] stalled))) = 1%nat.
Proof. repeat split; reflexivity. Qed.

(** Four commits with messages M1..M4: five records, the root's parent is
    null. *)
Lemma sequential_appends_witness :
  exists hashes s',
    addEntries ["M1"; "M2"; "M3"; "M4"] (initialised Toy.ticking)
    = (Returned hashes, s')
    /\ length (table s') = (length ["M1"; "M2"; "M3"; "M4"] + 1)%nat
    /\ filter is_root (table s') = [root_commit Toy.ticking]
    /\ map link (table s')
       = rev (combine (root_hash Toy.ticking :: hashes)
                      (None :: map Some (root_hash Toy.ticking :: hashes)))
    /\ commitHash (metadata (self s'))
       = Some (last hashes (root_hash Toy.ticking)).
Proof.
  apply (sequential_appends Toy.ticking ["M1"; "M2"; "M3"; "M4"]). reflexivity.
Defined.

Example four_commits :
  map link (table (snd (addEntries ["M1"; "M2"; "M3"; "M4"] (initialised Toy.ticking))))
  = [("31303132", Some "31303039"); ("31303039", Some "31303036");
     ("31303036", Some "31303033"); ("31303033", Some "31303031");
     ("31303031", None)].
Proof. reflexivity. Qed.

End CommitsExamples.

(** ** Saving: cancellation and the adoption of a password change *)

Module SaveProps.
Import Core.
Local Open Scope eff_scope.

(** The database, the options, the current password, the host's environment
    and the files handed out are the same in [s'] as in [s]; the encryption
    metadata, the random bytes drawn, the log of provider calls and the
    IndexedDB store may differ. *)
Definition undisturbed (s s' : State) : Prop :=
  db (self s') = db (self s)
  /\ options (self s') = options (self s)
  /\ currentPassword (self s') = currentPassword (self s)
  /\ env (world s') = env (world s)
  /\ written (world s') = written (world s)
  /\ downloaded (world s') = downloaded (world s)
  /\ shared (world s') = shared (world s).

Lemma undisturbed_refl (s : State) : undisturbed s s.
Proof. unfold undisturbed. tauto. Qed.

Lemma undisturbed_trans (s1 s2 s3 : State) :
  undisturbed s1 s2 -> undisturbed s2 s3 -> undisturbed s1 s3.
Proof.
  unfold undisturbed. intros (A1 & A2 & A3 & A4 & A5 & A6 & A7) (B1 & B2 & B3 & B4 & B5 & B6 & B7).
  repeat split; congruence.
Qed.

(** A computation that leaves the session undisturbed. *)
Definition quiet {A} (m : Eff State A) : Prop :=
  forall s, undisturbed s (snd (m s)).

Lemma quiet_ret {A} (a : A) : quiet (ret a).
Proof. intros s. apply undisturbed_refl. Qed.

Lemma quiet_throw {A} (e : JsError) : quiet (@throw State A e).
Proof. intros s. apply undisturbed_refl. Qed.

Lemma quiet_get : quiet (@get State).
Proof. intros s. apply undisturbed_refl. Qed.

Lemma quiet_bind {A B} (m : Eff State A) (k : A -> Eff State B) :
  quiet m -> (forall a, quiet (k a)) -> quiet (bind m k).
Proof.
  intros Hm Hk s. unfold bind. specialize (Hm s).
  destruct (m s) as [[a|e] s1]; cbn [snd] in *; [|assumption].
  apply (undisturbed_trans s s1); [assumption | apply Hk].
Qed.

Lemma quiet_try {A} (m : Eff State A) (h : JsError -> Eff State A) :
  quiet m -> (forall e, quiet (h e)) -> quiet (try_catch m h).
Proof.
  intros Hm Hh s. unfold try_catch. specialize (Hm s).
  destruct (m s) as [[a|e] s1]; cbn [snd] in *; [assumption|].
  apply (undisturbed_trans s s1); [assumption | apply Hh].
Qed.

Lemma quiet_host_call (c : HostCall) : quiet (host_call c).
Proof. intros s. unfold undisturbed. cbn. tauto. Qed.

Lemma quiet_getRandomValues (n : nat) : quiet (getRandomValues n).
Proof.
  intros s. unfold getRandomValues.
  destruct (crypto (env (world s))); unfold undisturbed; cbn; tauto.
Qed.

Lemma quiet_set_metadata (e : option EncryptionMetadata) :
  quiet (modify (on_self (set_encryptionMetadata e))).
Proof. intros s. unfold undisturbed. cbn. tauto. Qed.

Lemma quiet_lift_set (r : option (list byte)) : quiet (lift_set r).
Proof. destruct r; [apply quiet_ret | apply quiet_throw]. Qed.

Lemma quiet_put (r : StorageRecord) : quiet (modify (on_world (record_put r))).
Proof. intros s. unfold undisturbed. cbn. tauto. Qed.

Ltac quiet_step :=
  first [ progress lazy zeta
        | apply quiet_bind; [|intros ?]
        | apply quiet_try; [|intros ?]
        | apply quiet_ret | apply quiet_throw | apply quiet_get
        | apply quiet_host_call | apply quiet_getRandomValues
        | apply quiet_set_metadata | apply quiet_lift_set | apply quiet_put ].

Section WithProvider.
Context {SC : SubtleCrypto} {PG : Page}.

Lemma quiet_deriveKey (password : DOMString) (salt : list byte) :
  quiet (deriveKey password salt).
Proof.
  unfold deriveKey. quiet_step; [quiet_step|].
  destruct (crypto (env (world a))); repeat quiet_step.
Qed.

Lemma quiet_encryptData (data : list byte) (password : DOMString) :
  quiet (encryptData data password).
Proof.
  unfold encryptData. destruct (length password =? 0)%nat; [quiet_step|].
  repeat first [apply quiet_deriveKey | quiet_step].
Qed.

Lemma quiet_prepare_document (image : list byte) (password : option DOMString) :
  quiet (prepare_document image password).
Proof.
  unfold prepare_document. quiet_step; [quiet_step|].
  quiet_step; [|quiet_step].
  destruct (encrypted (options (self a))); [|quiet_step].
  destruct (if truthy password then password else currentPassword (self a));
    [|quiet_step].
  match goal with |- quiet (if ?b then _ else _) => destruct b end;
    [apply quiet_encryptData | quiet_step].
Qed.

(** The current password is [p]. *)
Definition password_is (p : option DOMString) (s : State) : Prop :=
  currentPassword (self s) = p.

Definition preserves (P : State -> Prop) {A} (m : Eff State A) : Prop :=
  forall s, P s -> P (snd (m s)).

Lemma preserves_bind (P : State -> Prop) {A B} (m : Eff State A)
    (k : A -> Eff State B) :
  preserves P m -> (forall a, preserves P (k a)) -> preserves P (bind m k).
Proof.
  intros Hm Hk s Hs. unfold bind. specialize (Hm s Hs).
  destruct (m s) as [[a|e] s1]; cbn [snd] in *; [now apply Hk | assumption].
Qed.

Lemma preserves_try (P : State -> Prop) {A} (m : Eff State A)
    (h : JsError -> Eff State A) :
  preserves P m -> (forall e, preserves P (h e)) -> preserves P (try_catch m h).
Proof.
  intros Hm Hh s Hs. unfold try_catch. specialize (Hm s Hs).
  destruct (m s) as [[a|e] s1]; cbn [snd] in *; [assumption | now apply Hh].
Qed.

Lemma quiet_preserves (p : option DOMString) {A} (m : Eff State A) :
  quiet m -> preserves (password_is p) m.
Proof.
  intros Hm s Hs. destruct (Hm s) as (_ & _ & H & _). unfold password_is in *.
  congruence.
Qed.

Lemma adopt_preserves (p : option DOMString) (changePassword : bool) :
  preserves (password_is p) (adopt_password p changePassword).
Proof.
  intros s Hs. unfold adopt_password.
  destruct (changePassword && truthy p); [reflexivity | assumption].
Qed.

Lemma write_preserves (p : option DOMString) (filename html : string) :
  preserves (password_is p) (interactive_write filename html).
Proof.
  intros s Hs. unfold interactive_write.
  destruct (picker (env (world s))) as [[|step e]|]; assumption.
Qed.

Lemma download_preserves (p : option DOMString) (html filename : string) :
  preserves (password_is p) (fallbackDownload html filename).
Proof. intros s Hs. exact Hs. Qed.

Lemma share_preserves (p : option DOMString) (filename html : string) :
  preserves (password_is p) (CoreStorage.navigator_share filename html).
Proof.
  intros s Hs. unfold CoreStorage.navigator_share.
  destruct (share_rejects (env (world s))); assumption.
Qed.

Ltac quiet_auto :=
  repeat first
    [ apply quiet_encryptData | apply quiet_deriveKey | apply quiet_prepare_document
    | quiet_step
    | match goal with
      | |- quiet (if ?b then _ else _) => destruct b
      | |- quiet (match ?x with _ => _ end) => destruct x
      end ].

Lemma quiet_persistToStorage : quiet CoreStorage.persistToStorage.
Proof. unfold CoreStorage.persistToStorage. quiet_auto. Qed.

Ltac password_auto :=
  repeat first
    [ progress lazy zeta
    | apply quiet_preserves;
      first [ apply quiet_prepare_document | apply quiet_persistToStorage
            | apply quiet_ret | apply quiet_throw | apply quiet_get ]
    | apply adopt_preserves | apply write_preserves
    | apply download_preserves | apply share_preserves
    | apply preserves_bind; [|intros ?]
    | apply preserves_try; [|intros ?]
    | match goal with
      | |- preserves _ (if ?b then _ else _) => destruct b
      | |- preserves _ (match ?x with _ => _ end) => destruct x
      end ].

(** Once the current password is [password], the rest of the
    IndexedDB-persisting [saveToFile] leaves it so. *)
Lemma write_out_keeps_password (s0 : State) (image : list byte) (filename : string)
    (password : option DOMString) (changePassword : bool) :
  preserves (password_is password)
            (CoreStorage.write_out s0 image filename password changePassword).
Proof.
  unfold CoreStorage.write_out, CoreStorage.download_copy. password_auto.
Qed.

Lemma try_catch_returns {A} (m : Eff State A) (x : A) (s : State) :
  exists r, fst (try_catch m (fun _ => ret x) s) = Returned r.
Proof.
  unfold try_catch, ret. destruct (m s) as [[a|e] s']; eexists; reflexivity.
Qed.

Lemma persistToStorage_returns (s : State) :
  exists r, fst (CoreStorage.persistToStorage s) = Returned r.
Proof.
  unfold CoreStorage.persistToStorage, bind at 1, get.
  destruct (db (self s)); [|eexists; reflexivity].
  destruct (negb _); [eexists; reflexivity|].
  apply try_catch_returns.
Qed.

Lemma persist_first_returns (s0 : State) (password : option DOMString)
    (changePassword : bool) (s : State) :
  fst (CoreStorage.persist_first s0 password changePassword s) = Returned tt.
Proof.
  unfold CoreStorage.persist_first.
  destruct (Core.persistToStorage (options (self s0))); [|reflexivity].
  unfold bind, adopt_password.
  destruct (changePassword && truthy password); unfold modify, ret.
  - destruct (persistToStorage_returns (on_self (set_currentPassword password) s))
      as [r Hr].
    destruct (CoreStorage.persistToStorage _) as [[r'|e] s2]; [reflexivity | discriminate].
  - destruct (persistToStorage_returns s) as [r Hr].
    destruct (CoreStorage.persistToStorage _) as [[r'|e] s2]; [reflexivity | discriminate].
Qed.




Lemma persist_first_adopts (s0 : State) (password : option DOMString) (s : State) :
  Core.persistToStorage (options (self s0)) = true ->
  truthy password = true ->
  password_is password (snd (CoreStorage.persist_first s0 password true s)).
Proof.
  intros Hp Ht. unfold CoreStorage.persist_first. rewrite Hp.
  unfold bind at 1. unfold adopt_password. rewrite Ht. cbn [andb modify].
  assert (H : preserves (password_is password)
                (CoreStorage.persistToStorage ;;; ret tt)%eff).
  { password_auto. }
  apply H. reflexivity.
Qed.


(** What [saveToFile] resolves to when the user dismisses the picker. *)
Definition cancelled_plain : SaveResult :=
  {| r_success := false; r_cancelled := true; r_method := None;
     r_persistedToStorage := None; r_encrypted := None; r_passwordChanged := None;
     r_message := None |}.






(** With storage persistence on, a requested password change is taken over
    at the very start of the IndexedDB-persisting [saveToFile], and stays
    whatever the outcome of the save. *)
Lemma storage_adopts_first (filename : string) (password : option DOMString)
    (s : State) (image : list byte) :
  db (self s) = Some image ->
  Core.persistToStorage (options (self s)) = true ->
  truthy password = true ->
  password_is password (snd (CoreStorage.saveToFile filename password true s)).
Proof.
  intros Hdb Hp Ht. unfold CoreStorage.saveToFile, bind at 1, get. rewrite Hdb.
  unfold bind.
  pose proof (persist_first_returns s password true s) as R.
  pose proof (persist_first_adopts s password s Hp Ht) as A.
  destruct (CoreStorage.persist_first s password true s) as [o s0].
  cbn [fst snd] in R, A. subst o.
  now apply write_out_keeps_password.
Qed.





End WithProvider.

End SaveProps.

(** ** Saving on concrete sessions *)

Module SaveExamples.
Import Core SaveProps.
#[local] Existing Instance Toy.crypto.
#[local] Existing Instance Toy.page.

(** A session whose password is [old], asked to save under the new password
    [new] with [changePassword] set, the user dismissing the picker. *)
Definition cancelling (persist : bool) : State :=
  Toy.state persist (Some "old") Toy.user_cancels.

(** C9 does not hold of the IndexedDB-persisting variant in its default
    configuration (storage persistence on), which sets the current password
    before it persists and writes: the save is cancelled (and reported as a
    success, storage persistence being on), nothing has been written,
    downloaded, shared or stored, and the current password is the new
    one. *)
Lemma cancelled_save_of_the_variant_adopts_the_password :
  exists result s',
    CoreStorage.saveToFile "app.html" (Some (wide "new")) true (cancelling true)
    = (Returned result, s')
    /\ r_cancelled result = true
    /\ r_success result = true
    /\ written (world s') = [] /\ downloaded (world s') = []
    /\ shared (world s') = [] /\ stored (world s') = []
    /\ currentPassword (self (cancelling true)) = Some (wide "old")
    /\ currentPassword (self s') = Some (wide "new").
Proof.
  eexists. eexists. split; [vm_compute; reflexivity|].
  repeat split; reflexivity.
Qed.

(** A cancelled save of [lib/html-sqlite-core.js] has replaced the
    encryption metadata. *)
Example core_cancel_replaces_the_metadata :
  fst (Core.saveToFile "app.html" (Some (wide "new")) true (cancelling false))
  = Returned cancelled_plain
  /\ encryptionMetadata (self (cancelling false)) = None
  /\ encryptionMetadata
       (self (snd (Core.saveToFile "app.html" (Some (wide "new")) true
                     (cancelling false))))
     <> None.
Proof.
  split; [reflexivity|]. split; [reflexivity|]. vm_compute. discriminate.
Qed.


Example core_cancel_keeps_password :
  currentPassword
    (self (snd (Core.saveToFile "app.html" (Some (wide "new")) true (cancelling false))))
  = Some (wide "old").
Proof. reflexivity. Qed.

(** With the write completing, the new password is adopted. *)
Example core_completed_adopts :
  currentPassword
    (self (snd (Core.saveToFile "app.html" (Some (wide "new")) true
                  (Toy.state false (Some "old") (Some Completes)))))
  = Some (wide "new").
Proof. reflexivity. Qed.

End SaveExamples.

(** ** The base64 converters *)

Module Base64Props.
Import Trust Base64 TrustProps.

Lemma list_ind3 {A} (P : list A -> Prop) :
  P [] -> (forall a, P [a]) -> (forall a b, P [a; b]) ->
  (forall a b c l, P l -> P (a :: b :: c :: l)) ->
  forall l, P l.
Proof.
  intros H0 H1 H2 H3 l.
  assert (H : P l /\ (forall a, P (a :: l)) /\ (forall a b, P (a :: b :: l))).
  { induction l as [|x l IH]; [auto|].
    destruct IH as (Hl & Hl1 & Hl2). auto. }
  apply H.
Qed.

Lemma below_64 (P : N -> Prop) :
  Forall P (map N.of_nat (seq 0 64)) -> forall n, (n < 64)%N -> P n.
Proof.
  intros H n Hn. rewrite Forall_forall in H. apply H.
  rewrite <- (N2Nat.id n). apply in_map, in_seq. lia.
Qed.

Lemma value_alphabet (n : N) : (n < 64)%N -> value (alphabet n) = Some n.
Proof.
  revert n. apply (below_64 (fun n => value (alphabet n) = Some n)).
  cbv [map seq]. repeat (constructor; [reflexivity|]). constructor.
Qed.

Lemma alphabet_in_table (n : N) : In (alphabet n) table.
Proof.
  unfold alphabet. destruct (Nat.lt_ge_cases (N.to_nat n) (length table)) as [H|H].
  - now apply nth_In.
  - rewrite nth_overflow by assumption. unfold table. simpl. auto 70.
Qed.

Lemma table_plain :
  forallb (fun c => negb (Ascii.eqb c "=") && negb (ascii_whitespace c)
                    && negb (is_space c)) table = true.
Proof. reflexivity. Qed.

Lemma alphabet_plain (n : N) :
  Ascii.eqb (alphabet n) "=" = false /\ ascii_whitespace (alphabet n) = false
  /\ is_space (alphabet n) = false.
Proof.
  pose proof table_plain as H. rewrite forallb_forall in H.
  specialize (H _ (alphabet_in_table n)).
  apply andb_true_iff in H. destruct H as [H H3].
  apply andb_true_iff in H. destruct H as [H1 H2].
  now rewrite negb_true_iff in *.
Qed.

Ltac div_lia := zify; Z.to_euclidean_division_equations; lia.

(** The six-bit groups of [encode], without the padding. *)
Fixpoint sextets (codes : list N) : list N :=
  match codes with
  | a :: b :: c :: rest =>
      (a / 4) :: ((a mod 4) * 16 + b / 16) :: ((b mod 16) * 4 + c / 64)
      :: (c mod 64) :: sextets rest
  | [a; b] => [a / 4; (a mod 4) * 16 + b / 16; (b mod 16) * 4]
  | [a] => [a / 4; (a mod 4) * 16]
  | [] => []
  end%N.

Definition octet (n : N) : Prop := (n < 256)%N.

Lemma sextets_below (codes : list N) :
  Forall octet codes -> Forall (fun n => (n < 64)%N) (sextets codes).
Proof.
  unfold octet. induction codes as [|a|a b|a b c l IH] using list_ind3; intros H.
  - constructor.
  - inversion_clear H. repeat constructor; div_lia.
  - inversion_clear H as [|? ? Ha H']. inversion_clear H' as [|? ? Hb _].
    repeat constructor; div_lia.
  - inversion_clear H as [|? ? Ha H']. inversion_clear H' as [|? ? Hb H''].
    inversion_clear H'' as [|? ? Hc Hl].
    cbn [sextets]. repeat (constructor; [div_lia|]). auto.
Qed.

Lemma octets_sextets (codes : list N) :
  Forall octet codes -> octets (sextets codes) = codes.
Proof.
  unfold octet. induction codes as [|a|a b|a b c l IH] using list_ind3; intros H.
  - reflexivity.
  - inversion_clear H. cbn [sextets octets]. f_equal. div_lia.
  - inversion_clear H as [|? ? Ha H']. inversion_clear H' as [|? ? Hb _].
    cbn [sextets octets]. f_equal; [div_lia|]. f_equal. div_lia.
  - inversion_clear H as [|? ? Ha H']. inversion_clear H' as [|? ? Hb H''].
    inversion_clear H'' as [|? ? Hc Hl].
    cbn [sextets octets]. rewrite (IH Hl).
    f_equal; [div_lia|]. f_equal; [div_lia|]. f_equal. div_lia.
Qed.

Lemma sextets_length (codes : list N) :
  (length (sextets codes) mod 4 =? 1)%nat = false.
Proof.
  apply Nat.eqb_neq.
  induction codes as [|a|a b|a b c l IH] using list_ind3; cbn [sextets length];
    try (simpl; lia).
  replace (S (S (S (S (length (sextets l)))))) with (length (sextets l) + 1 * 4)%nat
    by lia.
  now rewrite Nat.Div0.mod_add.
Qed.

Lemma encode_length (codes : list N) :
  (length (encode codes) mod 4 =? 0)%nat = true.
Proof.
  apply Nat.eqb_eq.
  induction codes as [|a|a b|a b c l IH] using list_ind3; cbn [encode length];
    try reflexivity.
  replace (S (S (S (S (length (encode l)))))) with (length (encode l) + 1 * 4)%nat
    by lia.
  now rewrite Nat.Div0.mod_add.
Qed.

Lemma strip_padding_cons (c : ascii) (l : list ascii) :
  Ascii.eqb c "=" = false -> strip_padding (c :: l) = c :: strip_padding l.
Proof.
  intros H. destruct l as [|d [|e l]]; cbn [strip_padding]; rewrite ?H; reflexivity.
Qed.

Lemma strip_padding_encode (codes : list N) :
  strip_padding (encode codes) = map alphabet (sextets codes).
Proof.
  induction codes as [|a|a b|a b c l IH] using list_ind3; cbn [encode sextets map].
  - reflexivity.
  - rewrite !strip_padding_cons by apply alphabet_plain. reflexivity.
  - rewrite !strip_padding_cons by apply alphabet_plain. reflexivity.
  - rewrite !strip_padding_cons by apply alphabet_plain. now rewrite IH.
Qed.

Lemma encode_no_whitespace (codes : list N) :
  forallb (fun c => negb (ascii_whitespace c) && negb (is_space c)) (encode codes)
  = true.
Proof.
  assert (A : forall n, negb (ascii_whitespace (alphabet n))
                        && negb (is_space (alphabet n)) = true).
  { intros n. destruct (alphabet_plain n) as (_ & -> & ->). reflexivity. }
  induction codes as [|a|a b|a b c l IH] using list_ind3; cbn [encode forallb];
    rewrite ?A, ?IH; reflexivity.
Qed.

Lemma filter_all {A} (f : A -> bool) (l : list A) :
  forallb f l = true -> filter f l = l.
Proof.
  induction l as [|x l IH]; [reflexivity|]. cbn [forallb filter].
  intros H. apply andb_true_iff in H. destruct H as [-> H]. now rewrite IH.
Qed.

Lemma values_alphabet (vs : list N) :
  Forall (fun n => (n < 64)%N) vs -> values (map alphabet vs) = Some vs.
Proof.
  induction 1 as [|n vs Hn _ IH]; [reflexivity|].
  cbn [map values]. now rewrite value_alphabet, IH.
Qed.

Lemma codes_are_octets (l : list ascii) : Forall octet (map N_of_ascii l).
Proof.
  induction l; constructor; [apply N_ascii_bounded | assumption].
Qed.

Lemma str_app (a b : list ascii) : str (a ++ b) = (str a ++ str b)%string.
Proof.
  rewrite <- (str_chars (str a ++ str b)), chars_app, !chars_str. reflexivity.
Qed.

(** [atob] inverts [btoa]. *)
Lemma atob_btoa (binaryString : string) :
  atob (btoa binaryString) = Returned binaryString.
Proof.
  unfold atob, btoa. rewrite chars_str.
  set (codes := map N_of_ascii (chars binaryString)).
  rewrite filter_all.
  2:{ eapply forallb_impl; [|apply encode_no_whitespace].
      intros c H. now apply andb_true_iff in H. }
  rewrite encode_length, strip_padding_encode, length_map, sextets_length.
  rewrite values_alphabet by apply sextets_below, codes_are_octets.
  rewrite octets_sextets by apply codes_are_octets.
  unfold codes. rewrite map_map.
  rewrite (map_ext _ (fun c => c)) by apply ascii_N_embedding.
  now rewrite map_id, str_chars.
Qed.

Lemma chunkSize_positive : (0 < chunkSize)%nat.
Proof. unfold chunkSize. lia. Qed.

Lemma fromCharCode_app (a b : list byte) :
  fromCharCode (a ++ b) = (fromCharCode a ++ fromCharCode b)%string.
Proof. unfold fromCharCode. now rewrite map_app, str_app. Qed.

Lemma string_app_assoc (a b c : string) : ((a ++ b) ++ c = a ++ (b ++ c))%string.
Proof. induction a; simpl; congruence. Qed.

Lemma string_app_nil (a : string) : (a ++ EmptyString)%string = a.
Proof. induction a; simpl; congruence. Qed.

(** The chunks, whatever their size, add up to the whole array. *)
Lemma append_chunks_all (uint8Array : list byte) :
  forall fuel i binaryString,
    (length uint8Array <= i + fuel)%nat ->
    append_chunks fuel uint8Array i binaryString
    = (binaryString ++ fromCharCode (skipn i uint8Array))%string.
Proof.
  pose proof chunkSize_positive as Hc.
  induction fuel as [|fuel IH]; intros i acc H; cbn [append_chunks].
  - rewrite skipn_all2 by lia. symmetry. apply string_app_nil.
  - destruct (i <? length uint8Array)%nat eqn:E.
    + apply Nat.ltb_lt in E. cbv zeta. rewrite IH by lia.
      rewrite string_app_assoc, <- fromCharCode_app. do 2 f_equal.
      unfold slice.
      destruct (Nat.le_gt_cases (i + chunkSize) (length uint8Array)) as [L|L].
      * rewrite Nat.min_l by assumption.
        replace (i + chunkSize - i)%nat with chunkSize by lia.
        rewrite Nat.add_comm, <- skipn_skipn. apply firstn_skipn.
      * rewrite Nat.min_r by lia.
        rewrite (skipn_all2 (n := i + chunkSize)) by lia.
        rewrite app_nil_r. apply firstn_all2. rewrite length_skipn. lia.
    + apply Nat.ltb_ge in E. rewrite skipn_all2 by lia.
      symmetry. apply string_app_nil.
Qed.

Lemma binaryString_of (uint8Array : list byte) :
  append_chunks (length uint8Array) uint8Array 0 EmptyString
  = fromCharCode uint8Array.
Proof. now rewrite append_chunks_all by lia. Qed.

Lemma base64_roundtrip (bytes : list byte) :
  base64ToUint8Array (uint8ArrayToBase64 bytes) = Returned bytes.
Proof.
  unfold base64ToUint8Array, uint8ArrayToBase64.
  rewrite binaryString_of, atob_btoa. unfold fromCharCode.
  rewrite chars_str, map_map.
  rewrite (map_ext _ (fun b => b)) by apply byte_of_ascii_of_byte.
  now rewrite map_id.
Qed.

Lemma filter_none {A} (f : A -> bool) (l : list A) :
  forallb (fun x => negb (f x)) l = true -> filter f l = [].
Proof.
  induction l as [|x l IH]; [reflexivity|]. cbn [forallb filter].
  intros H. apply andb_true_iff in H. destruct H as [Hx Hl].
  apply negb_true_iff in Hx. now rewrite Hx, IH.
Qed.

(** [atob] does not see the white space around the text. *)
Lemma atob_padded (before after : list ascii) (base64 : string) :
  forallb ascii_whitespace before = true ->
  forallb ascii_whitespace after = true ->
  atob (str before ++ base64 ++ str after) = atob base64.
Proof.
  intros Hb Ha. unfold atob.
  rewrite !chars_app, !chars_str, !filter_app.
  assert (N : forall l, forallb ascii_whitespace l = true ->
                        filter (fun c => negb (ascii_whitespace c)) l = []).
  { intros l H. apply filter_none. eapply forallb_impl; [|exact H].
    intros c Hc. now rewrite Hc. }
  now rewrite (N before Hb), (N after Ha), app_nil_r.
Qed.

(** X1. The two converters are inverse to each other on every byte array,
    whatever its length against the chunk size of the encoder: decoding the
    text [uint8ArrayToBase64] returns gives the bytes back, also when the
    text stands between white space, as it does in the script element; and
    [base64ToUint8Array] fails with [Invalid base64 data] and nothing
    else. *)
Theorem base64_converters_are_inverse (bytes : list byte) :
  base64ToUint8Array (uint8ArrayToBase64 bytes) = Returned bytes
  /\ (forall before after,
         forallb ascii_whitespace before = true ->
         forallb ascii_whitespace after = true ->
         base64ToUint8Array (str before ++ uint8ArrayToBase64 bytes ++ str after)
         = Returned bytes)
  /\ (forall base64 e,
         base64ToUint8Array base64 = Thrown e -> e = Error "Invalid base64 data").
Proof.
  split; [apply base64_roundtrip|]. split.
  - intros before after Hb Ha. unfold base64ToUint8Array.
    rewrite atob_padded by assumption. apply base64_roundtrip.
  - intros base64 e. unfold base64ToUint8Array.
    destruct (atob base64); [discriminate|]. intros H. now injection H as <-.
Qed.

End Base64Props.

(** ** Opening what was saved *)

Module CoreLoadProps.
Import Trust TrustProps Base64 Base64Props.
Import Core CoreProps CoreLoad.
Local Open Scope eff_scope.

Definition LF : string := String (ascii_of_nat 10) EmptyString.

Lemma drop_spaces_plain (c : ascii) (l : list ascii) :
  is_space c = false -> drop_spaces (c :: l) = c :: l.
Proof. intros H. cbn [drop_spaces]. now rewrite H. Qed.

Lemma forallb_rev {A} (f : A -> bool) (l : list A) :
  forallb f (rev l) = forallb f l.
Proof.
  induction l as [|x l IH]; [reflexivity|].
  cbn [rev forallb]. rewrite forallb_app, IH. cbn. rewrite andb_true_r.
  apply andb_comm.
Qed.

(** Text without whitespace between two line feeds is trimmed to itself. *)
Lemma trim_between_line_feeds (l : list ascii) :
  forallb (fun c => negb (is_space c)) l = true ->
  trim (chars LF ++ l ++ chars LF) = l.
Proof.
  intros H. unfold trim. change (chars LF) with [ascii_of_nat 10].
  cbn [app drop_spaces]. change (is_space (ascii_of_nat 10)) with true. cbn iota.
  destruct l as [|c l]; [reflexivity|].
  cbn [forallb] in H. apply andb_true_iff in H. destruct H as [Hc Hl].
  apply negb_true_iff in Hc. cbn [app]. rewrite drop_spaces_plain by assumption.
  change (c :: l ++ [ascii_of_nat 10]) with ((c :: l) ++ [ascii_of_nat 10]).
  rewrite rev_app_distr. cbn [rev app drop_spaces].
  change (is_space (ascii_of_nat 10)) with true. cbn iota.
  assert (R : forallb (fun c => negb (is_space c)) (rev l ++ [c]) = true).
  { rewrite forallb_app, forallb_rev, Hl. cbn. now rewrite Hc. }
  destruct (rev l ++ [c]) as [|x r] eqn:E.
  - destruct (rev l); discriminate.
  - cbn [forallb] in R. apply andb_true_iff in R. destruct R as [Hx _].
    apply negb_true_iff in Hx. rewrite drop_spaces_plain by assumption.
    rewrite <- E, rev_app_distr, rev_involutive. reflexivity.
Qed.

Lemma base64_chars (bytes : list byte) :
  chars (Base64.uint8ArrayToBase64 bytes)
  = encode (map N_of_ascii (map ascii_of_byte bytes)).
Proof.
  unfold Base64.uint8ArrayToBase64, btoa. rewrite binaryString_of. unfold fromCharCode.
  now rewrite !chars_str.
Qed.

Lemma base64_plain (bytes : list byte) :
  forallb (fun c => negb (is_space c)) (chars (Base64.uint8ArrayToBase64 bytes)) = true.
Proof.
  rewrite base64_chars. eapply forallb_impl; [|apply encode_no_whitespace].
  intros c H. now apply andb_true_iff in H.
Qed.

Lemma base64_nonempty (b : byte) (bytes : list byte) :
  (String.length (Base64.uint8ArrayToBase64 (b :: bytes)) =? 0)%nat = false.
Proof.
  rewrite <- chars_length, base64_chars.
  destruct bytes as [|b1 [|b2 bytes]]; reflexivity.
Qed.

(** The text [rebuildHTML] puts into the script element, [\n] + payload +
    [\n], is trimmed to the payload. *)
Lemma trim_payload (bytes : list byte) :
  str (trim (chars (LF ++ Base64.uint8ArrayToBase64 bytes ++ LF)))
  = Base64.uint8ArrayToBase64 bytes.
Proof.
  rewrite !chars_app, trim_between_line_feeds by apply base64_plain.
  apply str_chars.
Qed.

Section WithProvider.
Context {SC : SubtleCrypto}.

(** [encryptData] returns only on a host with Web Crypto and for a non-empty
    password. *)
Lemma encryptData_returned (data : list byte) (password : DOMString) (s s' : Core.State)
    (envelope : list byte) :
  encryptData data password s = (Returned envelope, s') ->
  crypto (env (world s)) = WebCrypto /\ password <> [].
Proof.
  intros H. unfold encryptData in H. destruct password as [|c w].
  - simpl in H. discriminate.
  - split; [|discriminate].
    change (length (c :: w) =? 0)%nat with false in H. cbn iota in H.
    unfold bind at 1 in H. unfold getRandomValues at 1 in H.
    destruct (crypto (env (world s))) eqn:E; [discriminate| |reflexivity].
    unfold bind at 1 in H. unfold getRandomValues at 1 in H.
    cbn [world on_world env draw] in H. rewrite E in H.
    unfold bind at 1 in H. unfold deriveKey, get, bind in H.
    cbn [world on_world env draw] in H. rewrite E in H. discriminate.
Qed.

(** [decryptData] by cases. *)
Lemma decryptData_outcome (d : list byte) (password : DOMString) (s : Core.State) :
  decryptData d password s
  = if (length d <? 29)%nat then (Thrown (Error msg_short), s)
    else if (length password =? 0)%nat then (Thrown (Error msg_password), s)
    else if negb (Byte.eqb (nth 0 d x00) x01)
         then (Thrown (Error (msg_version (nth 0 d x00))), s)
         else match crypto (env (world s)) with
              | WebCrypto =>
                  match aes_gcm_decrypt (key_of password (slice 1 17 d))
                                        (slice 17 29 d) (skipn 29 d) with
                  | Some p => (Returned p, after_decrypt s)
                  | None => (Thrown DecryptionFailed, after_reject s)
                  end
              | _ => (Thrown (Error msg_webcrypto), s)
              end.
Proof.
  unfold decryptData.
  destruct (length d <? 29)%nat; [reflexivity|].
  destruct (length password =? 0)%nat; [reflexivity|].
  destruct (Byte.eqb (nth 0 d x00) x01) eqn:V; [|reflexivity].
  apply byte_eqb_eq in V. rewrite V. cbn [negb].
  unfold bind at 1. unfold deriveKey, get, host_call, modify, ret, bind, throw.
  destruct (crypto (env (world s))) eqn:Hc; [reflexivity | reflexivity |].
  cbn [world on_world env log_call self on_self].
  unfold try_catch, subtle_decrypt, bind, host_call, modify, ret, throw.
  fold (key_of password (slice 1 17 d)).
  destruct (aes_gcm_decrypt _ _ _); reflexivity.
Qed.

Lemma isEncryptedData_intro (d : list byte) :
  (29 <= length d)%nat -> nth_error d 0 = Some x01 -> isEncryptedData d = true.
Proof.
  intros L V. unfold isEncryptedData.
  replace (length d <? 29)%nat with false by (symmetry; now apply Nat.ltb_ge).
  assert (B : byte_at_is d 0 x01 = true) by now apply byte_at_is_spec.
  rewrite B. cbn [negb].
  unfold sqlite_signature. replace (byte_at_is d 0 x53) with false.
  - now rewrite andb_false_r.
  - unfold byte_at_is. now rewrite V.
Qed.

Lemma envelope_is_encrypted (salt iv ct : list byte) :
  length salt = 16%nat -> length iv = 12%nat ->
  isEncryptedData (x01 :: salt ++ iv ++ ct) = true.
Proof.
  intros Hs Hi. apply isEncryptedData_intro; [|reflexivity].
  rewrite envelope_length by assumption. lia.
Qed.

(** X2. [isEncryptedData], by which the loaders decide whether to decrypt,
    agrees with the cipher functions: it is true of every array
    [encryptData] returns and of every input [decryptData] opens. *)
Theorem isEncryptedData_agrees_with_the_cipher :
  (forall data password (s s' : Core.State) envelope,
      encryptData data password s = (Returned envelope, s') ->
      isEncryptedData envelope = true)
  /\ (forall d password (s s' : Core.State) p,
         decryptData d password s = (Returned p, s') ->
         isEncryptedData d = true).
Proof.
  split.
  - intros data password s s' envelope H.
    destruct (encryptData_returned _ _ _ _ _ H) as [Hc Hp].
    rewrite (encryptData_returns data password s Hc Hp) in H.
    assert (E : envelope = x01 :: salt_of s ++ iv_of s ++ sealed data password s)
      by congruence.
    rewrite E. apply envelope_is_encrypted; [apply salt_length | apply iv_length].
  - intros d password s s' p. rewrite decryptData_outcome.
    destruct (length d <? 29)%nat eqn:L; [discriminate|].
    destruct (length password =? 0)%nat; [discriminate|].
    destruct (Byte.eqb (nth 0 d x00) x01) eqn:V; [|discriminate].
    intros _. apply Nat.ltb_ge in L. apply byte_eqb_eq in V.
    apply isEncryptedData_intro; [assumption|].
    destruct d as [|b d']; [simpl in L; lia|]. simpl in *. congruence.
Qed.

(** The metadata [decryptData] records. *)
Definition decrypted_metadata : EncryptionMetadata :=
  {| version := 1; algorithm := "AES-GCM-256"; kdf := "PBKDF2";
     iterations := 100000; timestamp := None |}.

(** X3. [decryptData] returns nothing but what the provider authenticated
    under the key derived from the given password and the salt in bytes 1-16,
    with the nonce in bytes 17-28; it then records the metadata and touches
    no other field.  When it throws, the fields of the object are all as
    they were. *)
Theorem decryptData_authenticates_or_leaves_the_object (d : list byte)
    (password : DOMString) (s : Core.State) :
  match decryptData d password s with
  | (Returned p, s') =>
      aes_gcm_decrypt (key_of password (slice 1 17 d)) (slice 17 29 d) (skipn 29 d)
      = Some p
      /\ self s' = set_encryptionMetadata (Some decrypted_metadata) (self s)
  | (Thrown e, s') => self s' = self s
  end.
Proof.
  rewrite decryptData_outcome.
  destruct (length d <? 29)%nat; [reflexivity|].
  destruct (length password =? 0)%nat; [reflexivity|].
  destruct (negb _); [reflexivity|].
  destruct (crypto (env (world s))); [reflexivity | reflexivity |].
  destruct (aes_gcm_decrypt _ _ _); [split|]; reflexivity.
Qed.

End WithProvider.

End CoreLoadProps.

(** ** What a save hands out *)

Module SavePayloadProps.
Import Core CoreProps CoreLoad CoreLoadProps.
Local Open Scope eff_scope.

Section WithProvider.
Context {SC : SubtleCrypto} {PG : Page}.

(** The bytes a save encrypts, and the envelope it embeds when it encrypts
    under [w] from state [s]. *)
Definition packed (image : list byte) (s : Core.State) : list byte :=
  if compression (options (self s)) then compress image else image.

Definition envelope_of (image : list byte) (w : DOMString) (s : Core.State) : list byte :=
  x01 :: salt_of s ++ iv_of s ++ sealed (packed image s) w s.


(** The password a save encrypts under: the argument unless it is null or
    empty, the current password otherwise. *)
Definition encryptPassword (password : option DOMString) (s : Core.State)
  : option DOMString :=
  if truthy password then password else currentPassword (self s).

Lemma truthy_nonempty (w : DOMString) : w <> [] -> truthy (Some w) = true.
Proof. destruct w; [congruence | reflexivity]. Qed.


Lemma prepare_document_needs_password (image : list byte) (password : option DOMString)
    (s : Core.State) :
  encrypted (options (self s)) = true ->
  truthy password = false ->
  truthy (currentPassword (self s)) = false ->
  prepare_document image password s = (Thrown (Error msg_need_password), s).
Proof.
  intros He Hp Hc. unfold prepare_document, bind at 1, get.
  rewrite He, Hp. destruct (currentPassword (self s)) as [w|]; [|reflexivity].
  rewrite Hc. reflexivity.
Qed.




(** X5. With encryption on and neither a password argument nor a current
    password, [saveToFile] of the library class throws
    [Save failed: Password required: ...] before it has drawn random bytes,
    called the provider or handed out anything: the state is unchanged. *)
Theorem saveToFile_without_password_changes_nothing
    (filename : string) (password : option DOMString) (changePassword : bool)
    (s : Core.State) (image : list byte) :
  db (self s) = Some image ->
  encrypted (options (self s)) = true ->
  truthy password = false ->
  truthy (currentPassword (self s)) = false ->
  saveToFile filename password changePassword s
  = (Thrown (Error ("Save failed: " ++ msg_need_password)), s).
Proof.
  intros Hd He Hp Hc. unfold saveToFile, bind at 1, get. rewrite Hd.
  unfold try_catch, bind.
  rewrite (prepare_document_needs_password image password s He Hp Hc).
  reflexivity.
Qed.


End WithProvider.

End SavePayloadProps.

(** ** Loading *)

Module LoadProps.
Import Trust TrustProps Base64 Base64Props.
Import Core CoreProps CoreLoad CoreLoadProps SavePayloadProps.
Local Open Scope eff_scope.

(** SQLite is initialised, or initialises when asked. *)
Definition ready (st : State) : Prop :=
  sqlJS st = true \/ initSqlJs (document st) = InitSqlJsResolves.

Definition started (st : State) : State :=
  if sqlJS st then st else set_sqlJS st.

Lemma initSQL_ready (st : State) :
  ready st -> (if sqlJS st then ret tt else initSQL) st = (Returned tt, started st).
Proof.
  unfold started, initSQL, bind, get, try_catch.
  destruct (sqlJS st) eqn:E; [reflexivity|].
  intros [H|H]; [congruence|]. rewrite H, E. reflexivity.
Qed.

Lemma started_session (st : State) : session (started st) = session st.
Proof. unfold started. now destruct (sqlJS st). Qed.

Section WithProvider.
Context {SC : SubtleCrypto} {PG : Page} {EN : Engine}.

(** [loadEmbeddedDatabase] once SQLite is there and the element is found. *)
Lemma loadEmbeddedDatabase_found (password : option DOMString) (st : State)
    (textContent : string) :
  ready st ->
  getElementById (document st) (embedId (options (self (session st))))
  = Some textContent ->
  loadEmbeddedDatabase password st
  = if (String.length (str (trim (chars textContent))) =? 0)%nat
    then lift (new_database password) (started st)
    else try_catch (lift (open_payload (str (trim (chars textContent))) password))
           (fun error =>
              throw (Error ("Failed to load database: " ++ message error)))
           (started st).
Proof.
  intros Hr Ht. unfold loadEmbeddedDatabase, bind at 1, get.
  unfold bind at 1. rewrite (initSQL_ready st Hr), Ht. cbv zeta.
  now destruct (String.length _ =? 0)%nat.
Qed.

(** Inflating undoes the compression of a save, when compression is on. *)
Definition unpacks (s : Core.State) : Prop :=
  compression (options (self s)) = true ->
  exists gzip, pako_gzip = Some gzip
               /\ forall d, pako_ungzip (gzip d) = Returned d.

Lemma unpacks_packed (image : list byte) (s : Core.State) :
  unpacks s ->
  (if compression (options (self s)) then decompress (packed image s)
   else Returned (packed image s)) = Returned image.
Proof.
  unfold unpacks, packed, decompress, compress.
  destruct (compression (options (self s))); [|reflexivity].
  intros H. destruct (H eq_refl) as (gzip & -> & Hg). apply Hg.
Qed.

(** The state [open_payload] leaves behind after decrypting under [w] and
    opening [image]. *)
Definition opened_with (w : DOMString) (image : list byte) (s : Core.State)
  : Core.State :=
  on_self (set_db (Some image))
    (on_self (set_currentPassword (Some w)) (after_decrypt s)).

Lemma open_payload_envelope (salt iv ct : list byte) (w : DOMString)
    (s : Core.State) (data image : list byte) :
  length salt = 16%nat ->
  length iv = 12%nat ->
  crypto (env (world s)) = WebCrypto ->
  w <> [] ->
  encrypted (options (self s)) = true ->
  aes_gcm_decrypt (key_of w salt) iv ct = Some data ->
  (if compression (options (self s)) then decompress data else Returned data)
  = Returned image ->
  open_payload (Base64.uint8ArrayToBase64 (x01 :: salt ++ iv ++ ct)) (Some w) s
  = (Returned image, opened_with w image s).
Proof.
  intros Hs Hi Hc Hw He Hd Hz. unfold open_payload, bind at 1, get.
  unfold bind at 1, lift_outcome. rewrite base64_roundtrip.
  rewrite He, (envelope_is_encrypted salt iv ct Hs Hi), (truthy_nonempty w Hw).
  cbn [andb]. unfold bind at 1. unfold bind at 1.
  rewrite (decryptData_envelope salt iv ct w s Hs Hi Hc Hw), Hd.
  unfold bind at 1, modify, ret.
  cbn [self on_self after_decrypt after_reject on_world set_encryptionMetadata
       set_currentPassword options].
  unfold opened_with. revert Hz.
  destruct (compression (options (self s))); intros Hz.
  - unfold bind, lift_outcome. rewrite Hz. reflexivity.
  - unfold bind, ret. injection Hz as <-. reflexivity.
Qed.

Lemma open_payload_rejected (salt iv ct : list byte) (w : DOMString) (s : Core.State) :
  length salt = 16%nat ->
  length iv = 12%nat ->
  crypto (env (world s)) = WebCrypto ->
  w <> [] ->
  encrypted (options (self s)) = true ->
  aes_gcm_decrypt (key_of w salt) iv ct = None ->
  open_payload (Base64.uint8ArrayToBase64 (x01 :: salt ++ iv ++ ct)) (Some w) s
  = (Thrown DecryptionFailed, after_reject s).
Proof.
  intros Hs Hi Hc Hw He Hd. unfold open_payload, bind at 1, get.
  unfold bind at 1, lift_outcome. rewrite base64_roundtrip.
  rewrite He, (envelope_is_encrypted salt iv ct Hs Hi), (truthy_nonempty w Hw).
  cbn [andb]. unfold bind at 1. unfold bind at 1.
  rewrite (decryptData_envelope salt iv ct w s Hs Hi Hc Hw), Hd. reflexivity.
Qed.

Lemma open_payload_no_password (d : list byte) (password : option DOMString)
    (s : Core.State) :
  encrypted (options (self s)) = true ->
  isEncryptedData d = true ->
  truthy password = false ->
  open_payload (Base64.uint8ArrayToBase64 d) password s
  = (Thrown (Error msg_encrypted_db), s).
Proof.
  intros He Hd Hp. unfold open_payload, bind at 1, get.
  unfold bind at 1, lift_outcome. rewrite base64_roundtrip, He, Hd. cbn [andb].
  destruct password as [w|]; [rewrite Hp|]; reflexivity.
Qed.

Lemma open_payload_plain (base64Data : string) (d : list byte)
    (password : option DOMString) (s : Core.State) :
  Base64.base64ToUint8Array base64Data = Returned d ->
  encrypted (options (self s)) && isEncryptedData d = false ->
  open_payload base64Data password s
  = match (if compression (options (self s)) then decompress d else Returned d) with
    | Returned image => (Returned image, on_self (set_db (Some image)) s)
    | Thrown e => (Thrown e, s)
    end.
Proof.
  intros Hd H. unfold open_payload, bind at 1, get.
  unfold bind at 1, lift_outcome. rewrite Hd, H.
  unfold bind at 1, ret.
  destruct (compression (options (self s))); [|reflexivity].
  unfold bind, lift_outcome. destruct (decompress d); reflexivity.
Qed.

Lemma payload_text (bytes : list byte) (st : State) :
  bytes <> [] ->
  let text := (LF ++ Base64.uint8ArrayToBase64 bytes ++ LF)%string in
  str (trim (chars text)) = Base64.uint8ArrayToBase64 bytes
  /\ (String.length (str (trim (chars text))) =? 0)%nat = false.
Proof.
  intros Hb text. unfold text. rewrite trim_payload. split; [reflexivity|].
  destruct bytes as [|b bytes]; [congruence | apply base64_nonempty].
Qed.

(** A failed [open_payload] leaves the database and the options; with
    compression off it leaves every field. *)
Lemma open_payload_failure (base64Data : string) (password : option DOMString)
    (s s' : Core.State) (e : JsError) :
  open_payload base64Data password s = (Thrown e, s') ->
  db (self s') = db (self s)
  /\ options (self s') = options (self s)
  /\ (compression (options (self s)) = false -> self s' = self s).
Proof.
  unfold open_payload, bind at 1, get. unfold bind at 1, lift_outcome.
  destruct (Base64.base64ToUint8Array base64Data) as [d|e0];
    [|intros H; injection H as _ <-; auto].
  unfold bind at 1.
  destruct (encrypted (options (self s)) && isEncryptedData d).
  - destruct password as [w|]; [|intros H; injection H as _ <-; auto].
    destruct (truthy (Some w)); [|intros H; injection H as _ <-; auto].
    unfold bind at 1. unfold bind at 1. rewrite decryptData_outcome.
    destruct (length d <? 29)%nat; [intros H; injection H as _ <-; auto|].
    destruct (length w =? 0)%nat; [intros H; injection H as _ <-; auto|].
    destruct (negb _); [intros H; injection H as _ <-; auto|].
    destruct (crypto (env (world s)));
      [intros H; injection H as _ <-; auto | intros H; injection H as _ <-; auto |].
    destruct (aes_gcm_decrypt _ _ _) as [p|];
      [|intros H; injection H as _ <-; auto].
    unfold bind at 1, modify, ret.
    cbn [self on_self after_decrypt after_reject on_world set_encryptionMetadata
         set_currentPassword options].
    destruct (compression (options (self s))).
    + unfold bind at 1, lift_outcome.
      destruct (decompress p); [discriminate|].
      intros H. injection H as _ <-. cbn. repeat split. discriminate.
    + discriminate.
  - unfold ret at 1.
    destruct (compression (options (self s))).
    + unfold bind at 1, lift_outcome.
      destruct (decompress d); [discriminate|].
      intros H. injection H as _ <-. auto.
    + discriminate.
Qed.

(** Without pako, a payload cannot be opened when compression is on. *)
Lemma open_payload_without_pako (base64Data : string) (password : option DOMString)
    (s : Core.State) :
  compression (options (self s)) = true ->
  pako_gzip = None ->
  exists e s', open_payload base64Data password s = (Thrown e, s').
Proof.
  intros Hz Hp. unfold open_payload, bind at 1, get. unfold bind at 1, lift_outcome.
  destruct (Base64.base64ToUint8Array base64Data) as [d|e0];
    [|do 2 eexists; reflexivity].
  unfold bind at 1. rewrite Hz. unfold decompress. rewrite Hp.
  destruct (encrypted (options (self s)) && isEncryptedData d).
  - destruct password as [w|]; [|do 2 eexists; reflexivity].
    destruct (truthy (Some w)); [|do 2 eexists; reflexivity].
    unfold bind at 1. unfold bind at 1.
    destruct (decryptData d w s) as [[p|e1] s1]; [|do 2 eexists; reflexivity].
    unfold bind, modify, ret. do 2 eexists; reflexivity.
  - unfold bind, ret. do 2 eexists; reflexivity.
Qed.

Lemma lift_run {A} (m : Eff Core.State A) (st : State) :
  lift m st = (fst (m (session st)), on_session (fun _ => snd (m (session st))) st).
Proof. unfold lift. now destruct (m (session st)). Qed.

(** X7. What was encrypted under [w] is read back under [w]: when the script
    element holds, between two line feeds as [rebuildHTML] writes it, the
    base64 text of an envelope [encryptData] returned for the exported (and,
    with compression on, compressed) database, [loadEmbeddedDatabase(w)]
    returns that database, makes it the current one and [w] the current
    password.  The provider's decryption is assumed to invert its
    encryption, and inflating to invert compression. *)
Theorem loadEmbeddedDatabase_reads_back_what_was_encrypted :
  aead_correct SC ->
  forall (image : list byte) (w : DOMString) (s0 s1 : Core.State)
         (envelope : list byte) (st : State),
    encryptData (packed image (session st)) w s0 = (Returned envelope, s1) ->
    encrypted (options (self (session st))) = true ->
    unpacks (session st) ->
    crypto (env (world (session st))) = WebCrypto ->
    ready st ->
    getElementById (document st) (embedId (options (self (session st))))
    = Some (LF ++ Base64.uint8ArrayToBase64 envelope ++ LF)%string ->
    exists st',
      loadEmbeddedDatabase (Some w) st = (Returned image, st')
      /\ db (self (session st')) = Some image
      /\ currentPassword (self (session st')) = Some w
      /\ encryptionMetadata (self (session st')) = Some decrypted_metadata.
Proof.
  intros Hok image w s0 s1 envelope st Henc He Hz Hc Hr Ht.
  destruct (encryptData_returned _ _ _ _ _ Henc) as [Hc0 Hw].
  rewrite (encryptData_returns _ w s0 Hc0 Hw) in Henc.
  assert (E : envelope
              = x01 :: salt_of s0 ++ iv_of s0 ++ sealed (packed image (session st)) w s0)
    by congruence.
  clear Henc. subst envelope.
  rewrite (loadEmbeddedDatabase_found _ _ _ Hr Ht).
  destruct (payload_text
              (x01 :: salt_of s0 ++ iv_of s0 ++ sealed (packed image (session st)) w s0)
              st) as [-> ->]; [discriminate|].
  unfold try_catch. rewrite lift_run, started_session.
  rewrite (open_payload_envelope _ _ _ w (session st) (packed image (session st)) image);
    auto using salt_length, iv_length, unpacks_packed.
  - eexists. split; [reflexivity|]. cbn. auto.
  - unfold sealed. apply Hok.
Qed.

(** X8. An envelope in the script element is not opened without its
    password: with encryption on, [loadEmbeddedDatabase] called with no
    password (null or empty) throws
    [Failed to load database: Password required: ...] without calling the
    provider, and called with a password under which the provider rejects the
    ciphertext it throws [Failed to load database: Decryption failed: ...];
    either way the database, the current password and the metadata are as
    they were. *)
Theorem loadEmbeddedDatabase_rejects_without_the_password
    (salt iv ct : list byte) (st : State) :
  length salt = 16%nat ->
  length iv = 12%nat ->
  encrypted (options (self (session st))) = true ->
  ready st ->
  getElementById (document st) (embedId (options (self (session st))))
  = Some (LF ++ Base64.uint8ArrayToBase64 (x01 :: salt ++ iv ++ ct) ++ LF)%string ->
  (forall password,
      truthy password = false ->
      loadEmbeddedDatabase password st
      = (Thrown (Error ("Failed to load database: " ++ msg_encrypted_db)),
         started st))
  /\ (forall w,
         w <> [] ->
         crypto (env (world (session st))) = WebCrypto ->
         aes_gcm_decrypt (key_of w salt) iv ct = None ->
         exists st',
           loadEmbeddedDatabase (Some w) st
           = (Thrown (Error ("Failed to load database: " ++ msg_decrypt)), st')
           /\ self (session st') = self (session st)).
Proof.
  intros Hs Hi He Hr Ht.
  destruct (payload_text (x01 :: salt ++ iv ++ ct) st) as [T1 T2]; [discriminate|].
  split.
  - intros password Hp. rewrite (loadEmbeddedDatabase_found _ _ _ Hr Ht), T2, T1.
    unfold try_catch. rewrite lift_run, started_session.
    rewrite open_payload_no_password;
      auto using envelope_is_encrypted.
    unfold throw. cbn [fst snd]. f_equal.
    unfold on_session, started. destruct (sqlJS st); now destruct st.
  - intros w Hw Hc Hd. rewrite (loadEmbeddedDatabase_found _ _ _ Hr Ht), T2, T1.
    unfold try_catch. rewrite lift_run, started_session.
    rewrite open_payload_rejected by assumption.
    eexists. split; [reflexivity|]. reflexivity.
Qed.

(** X9. A payload that does not look encrypted is opened as it is, whatever
    [options.encrypted] says and whatever password is passed: with
    compression off, [loadEmbeddedDatabase] makes the decoded bytes the
    database and changes nothing else of the session; the password is not
    looked at and not stored, and the provider is not called. *)
Theorem loadEmbeddedDatabase_opens_plain_payloads_unchecked
    (image : list byte) (password : option DOMString) (st : State) :
  image <> [] ->
  isEncryptedData image = false ->
  compression (options (self (session st))) = false ->
  ready st ->
  getElementById (document st) (embedId (options (self (session st))))
  = Some (LF ++ Base64.uint8ArrayToBase64 image ++ LF)%string ->
  loadEmbeddedDatabase password st
  = (Returned image, on_session (on_self (set_db (Some image))) (started st)).
Proof.
  intros Hn Hd Hz Hr Ht.
  destruct (payload_text image st Hn) as [T1 T2].
  rewrite (loadEmbeddedDatabase_found _ _ _ Hr Ht), T2, T1.
  unfold try_catch. rewrite lift_run, started_session.
  rewrite (open_payload_plain _ image)
    by (try apply base64_roundtrip; rewrite Hd; apply andb_false_r).
  rewrite Hz. cbn [fst snd]. f_equal.
  unfold on_session. now rewrite started_session.
Qed.

(** X10. Compression without pako is one-way: [compress] hands the data back
    unchanged, so a save goes through uncompressed, but with compression on
    [loadEmbeddedDatabase] of any non-empty payload throws and leaves the
    database as it was; for a payload that needs no decryption the error is
    [Failed to load database: Decompression failed: pako library not
    loaded]. *)
Theorem compression_without_pako_saves_but_does_not_load :
  pako_gzip = None ->
  (forall data, compress data = data)
  /\ (forall (password : option DOMString) (st : State) (textContent : string),
         compression (options (self (session st))) = true ->
         ready st ->
         getElementById (document st) (embedId (options (self (session st))))
         = Some textContent ->
         (String.length (str (trim (chars textContent))) =? 0)%nat = false ->
         (exists e st',
             loadEmbeddedDatabase password st = (Thrown e, st')
             /\ db (self (session st')) = db (self (session st)))
         /\ (forall d,
                Base64.base64ToUint8Array (str (trim (chars textContent)))
                = Returned d ->
                encrypted (options (self (session st))) && isEncryptedData d
                = false ->
                loadEmbeddedDatabase password st
                = (Thrown (Error ("Failed to load database: " ++ msg_no_pako)),
                   started st))).
Proof.
  intros Hp. split.
  - intros data. unfold compress. now rewrite Hp.
  - intros password st textContent Hz Hr Ht Hl.
    rewrite (loadEmbeddedDatabase_found _ _ _ Hr Ht), Hl.
    unfold try_catch. rewrite lift_run, started_session.
    split.
    + destruct (open_payload_without_pako (str (trim (chars textContent))) password
                  (session st) Hz Hp) as (e & s' & H).
      pose proof (open_payload_failure _ _ _ _ _ H) as (Hdb & _).
      rewrite H. cbn [fst snd]. eexists. eexists.
      split; [reflexivity|]. exact Hdb.
    + intros d Hd Hplain. rewrite (open_payload_plain _ d) by assumption.
      rewrite Hz. unfold decompress. rewrite Hp. cbn [fst snd throw]. f_equal.
      unfold on_session, started. destruct (sqlJS st); now destruct st.
Qed.

(** X11. [loadEmbeddedDatabase] replaces the database only by returning:
    whenever it throws, the database and the options are as before, and
    unless compression is on the current password and the metadata are
    too.  Its errors are the initialisation error, the missing element, or
    [Failed to load database: ...]. *)
Theorem loadEmbeddedDatabase_failure_keeps_the_database
    (password : option DOMString) (st st' : State) (e : JsError) :
  loadEmbeddedDatabase password st = (Thrown e, st') ->
  db (self (session st')) = db (self (session st))
  /\ options (self (session st')) = options (self (session st))
  /\ (compression (options (self (session st))) = false ->
      self (session st') = self (session st))
  /\ exists m,
       e = Error ("Failed to initialize SQLite: " ++ m)
       \/ e = Error (msg_no_element (embedId (options (self (session st)))))
       \/ e = Error ("Failed to load database: " ++ m).
Proof.
  unfold loadEmbeddedDatabase, bind at 1, get. unfold bind at 1.
  assert (I : (exists m, (if sqlJS st then ret tt else initSQL) st
                         = (Thrown (Error ("Failed to initialize SQLite: " ++ m)), st))
              \/ (if sqlJS st then ret tt else initSQL) st = (Returned tt, started st)).
  { unfold started, initSQL, bind, get, try_catch.
    destruct (sqlJS st) eqn:E; [now right|]. rewrite E.
    destruct (initSqlJs (document st));
      [left; eexists; reflexivity | left; eexists; reflexivity | now right]. }
  destruct I as [(m & ->) | ->].
  { intros H. injection H as <- <-.
    repeat (split; [reflexivity|]). exists m. now left. }
  destruct (getElementById (document st) _) as [textContent|].
  2:{ intros H. injection H as <- <-. rewrite started_session.
      repeat (split; [reflexivity|]). exists EmptyString. right. now left. }
  cbv zeta. destruct (String.length _ =? 0)%nat.
  - rewrite lift_run. unfold new_database, bind, get, modify, ret.
    destruct (encrypted _ && truthy password); discriminate.
  - unfold try_catch. rewrite lift_run, started_session.
    destruct (open_payload _ password (session st)) as [[image|e0] s'] eqn:O;
      [discriminate|].
    cbn [fst snd throw]. intros H. injection H as <- <-.
    destruct (open_payload_failure _ _ _ _ _ O) as (H1 & H2 & H3).
    cbn [session on_session]. repeat (split; [assumption|]).
    exists (message e0). right. now right.
Qed.


End WithProvider.

End LoadProps.

(** ** The IndexedDB copy *)

Module StorageProps.
Import Core CoreProps CoreLoad CoreLoadProps SavePayloadProps LoadProps.
Import CoreStorage CoreStorageLoad.
Local Open Scope eff_scope.

Section WithProvider.
Context {SC : SubtleCrypto} {PG : Page} {EN : Engine}.


(** The record [persistToStorage] puts for the bytes [payload] from [s]. *)
Definition record_of (payload : list byte) (s : Core.State) : StorageRecord :=
  {| key := getStorageKey s; data := Core.uint8ArrayToBase64 payload;
     stamp := epoch (env (world s));
     stored_encrypted := encrypted (options (self s)) |}.










(** *** What does not touch the store *)

(** A computation that leaves the records of the IndexedDB store alone. *)
Definition keeps_store {A} (m : Eff Core.State A) : Prop :=
  forall s, stored (world (snd (m s))) = stored (world s).

Lemma keeps_ret {A} (a : A) : keeps_store (ret a).
Proof. intros s. reflexivity. Qed.

Lemma keeps_throw {A} (e : JsError) : keeps_store (@throw Core.State A e).
Proof. intros s. reflexivity. Qed.

Lemma keeps_get : keeps_store (@get Core.State).
Proof. intros s. reflexivity. Qed.

Lemma keeps_bind {A B} (m : Eff Core.State A) (k : A -> Eff Core.State B) :
  keeps_store m -> (forall a, keeps_store (k a)) -> keeps_store (bind m k).
Proof.
  intros Hm Hk s. unfold bind. specialize (Hm s).
  destruct (m s) as [[a|e] s1]; cbn [snd] in *; [|assumption].
  now rewrite Hk.
Qed.

Lemma keeps_try {A} (m : Eff Core.State A) (h : JsError -> Eff Core.State A) :
  keeps_store m -> (forall e, keeps_store (h e)) -> keeps_store (try_catch m h).
Proof.
  intros Hm Hh s. unfold try_catch. specialize (Hm s).
  destruct (m s) as [[a|e] s1]; cbn [snd] in *; [assumption|].
  now rewrite Hh.
Qed.

Lemma keeps_on_self (f : MemoryFile -> MemoryFile) : keeps_store (modify (on_self f)).
Proof. intros s. reflexivity. Qed.

Lemma keeps_host_call (c : HostCall) : keeps_store (host_call c).
Proof. intros s. reflexivity. Qed.

Lemma keeps_getRandomValues (n : nat) : keeps_store (getRandomValues n).
Proof.
  intros s. unfold getRandomValues. now destruct (crypto (env (world s))).
Qed.

Lemma keeps_lift_set (r : option (list byte)) : keeps_store (lift_set r).
Proof. destruct r; [apply keeps_ret | apply keeps_throw]. Qed.

Lemma keeps_lift_outcome {A} (o : Outcome A) : keeps_store (lift_outcome o).
Proof. intros s. reflexivity. Qed.

Lemma keeps_interactive_write (filename html : string) :
  keeps_store (interactive_write filename html).
Proof.
  intros s. unfold interactive_write.
  now destruct (picker (env (world s))) as [[|step e]|].
Qed.

Lemma keeps_fallbackDownload (html filename : string) :
  keeps_store (fallbackDownload html filename).
Proof. intros s. reflexivity. Qed.

Lemma keeps_navigator_share (filename html : string) :
  keeps_store (navigator_share filename html).
Proof.
  intros s. unfold navigator_share. now destruct (share_rejects (env (world s))).
Qed.

Ltac keeps_step :=
  first
    [ progress lazy zeta
    | apply keeps_bind; [|intros ?]
    | apply keeps_try; [|intros ?]
    | apply keeps_ret | apply keeps_throw | apply keeps_get
    | apply keeps_on_self | apply keeps_host_call | apply keeps_getRandomValues
    | apply keeps_lift_set | apply keeps_lift_outcome
    | apply keeps_interactive_write | apply keeps_fallbackDownload
    | apply keeps_navigator_share
    | match goal with
      | |- keeps_store (if ?b then _ else _) => destruct b
      | |- keeps_store (match ?x with _ => _ end) => destruct x
      end ].

Ltac keeps_auto := repeat keeps_step.

Lemma keeps_deriveKey (password : DOMString) (salt : list byte) :
  keeps_store (deriveKey password salt).
Proof. unfold deriveKey. keeps_auto. Qed.

Lemma keeps_encryptData (data : list byte) (password : DOMString) :
  keeps_store (encryptData data password).
Proof.
  unfold encryptData. destruct (length password =? 0)%nat; [keeps_auto|].
  repeat first [apply keeps_deriveKey | keeps_step].
Qed.

Lemma keeps_decryptData (d : list byte) (password : DOMString) :
  keeps_store (decryptData d password).
Proof.
  unfold decryptData, subtle_decrypt.
  repeat first [apply keeps_deriveKey | keeps_step].
Qed.



Lemma keeps_read_record (r : StorageRecord) (password : option DOMString) :
  keeps_store (read_record r password).
Proof.
  unfold read_record. repeat first [apply keeps_decryptData | keeps_step].
Qed.

(** X13. The IndexedDB copy is never encrypted.  With encryption on and a
    non-empty current password [persistToStorage] stores nothing: the
    transaction is opened before [encryptData] is awaited and has finished
    when [store.put] is reached, so the call returns false, whatever
    IndexedDB and the provider do, and [save] resolves with that; the store,
    the database, the options and the password are as they were.  And
    whenever [persistToStorage] returns true, the record it has put holds
    the exported (possibly compressed) database unencrypted, and nothing
    else has changed. *)
Theorem persistToStorage_never_stores_a_ciphertext :
  (forall (s : Core.State) (image : list byte) (w : DOMString),
      db (self s) = Some image ->
      Core.persistToStorage (options (self s)) = true ->
      encrypted (options (self s)) = true ->
      currentPassword (self s) = Some w ->
      w <> [] ->
      exists s',
        CoreStorage.persistToStorage s = (Returned (Some false), s')
        /\ save s = (Returned (Some false), s')
        /\ stored (world s') = stored (world s)
        /\ SaveProps.undisturbed s s')
  /\ (forall (s s' : Core.State),
         CoreStorage.persistToStorage s = (Returned (Some true), s') ->
         exists image,
           db (self s) = Some image
           /\ (encrypted (options (self s)) = false
               \/ truthy (currentPassword (self s)) = false)
           /\ s' = on_world (record_put (record_of (packed image s) s)) s).
Proof.
  split.
  - intros s image w Hd Hp He Hw Hn.
    pose proof (SaveProps.quiet_persistToStorage s) as Q.
    assert (Hsave : save s = CoreStorage.persistToStorage s).
    { unfold save, bind, get. now rewrite Hd, Hp. }
    rewrite Hsave.
    destruct (CoreStorage.persistToStorage s) as [o s'] eqn:E. cbn [snd] in Q.
    revert E. unfold CoreStorage.persistToStorage, bind at 1, get.
    rewrite Hd, Hp. cbn [negb]. unfold try_catch, bind at 1.
    destruct (match indexedDB (env (world s)) with IdbOpenFails => true | _ => false end).
    + unfold throw, ret. intros E. injection E as <- <-.
      exists s. auto.
    + unfold ret at 1. unfold bind at 1.
      rewrite He, Hw, (truthy_nonempty w Hn). cbn [andb].
      pose proof (keeps_encryptData
                    (if compression (options (self s)) then compress image else image)
                    w s) as K.
      destruct (encryptData _ w s) as [[bytes|e] s1]; cbn [snd] in K.
      * unfold bind, throw, ret. intros E. injection E as <- <-.
        exists s1. auto.
      * unfold ret. intros E. injection E as <- <-. exists s1. auto.
  - intros s s'. unfold CoreStorage.persistToStorage, bind at 1, get.
    destruct (db (self s)) as [image|]; [|discriminate].
    destruct (Core.persistToStorage (options (self s))); cbn [negb]; [|discriminate].
    unfold try_catch, bind at 1.
    destruct (match indexedDB (env (world s)) with IdbOpenFails => true | _ => false end);
      [discriminate|].
    unfold ret at 1. unfold bind at 1.
    destruct (encrypted (options (self s)) && truthy (currentPassword (self s))) eqn:F.
    + destruct (currentPassword (self s)) as [w|]; [|discriminate].
      destruct (encryptData _ w s) as [[bytes|e] s1]; discriminate.
    + unfold ret at 1, bind at 1.
      destruct (match indexedDB (env (world s)) with IdbCommitFails => true | _ => false end);
        [discriminate|].
      unfold bind, modify, ret. intros E. injection E as <-.
      exists image. split; [reflexivity|].
      split; [apply andb_false_iff in F; exact F | reflexivity].
Qed.





(** [read_record] leaves the database and the options, and leaves or adopts
    the password. *)
Lemma read_record_effect (r : StorageRecord) (password : option DOMString)
    (s s' : Core.State) (o : Outcome (option (list byte * N))) :
  read_record r password s = (o, s') ->
  db (self s') = db (self s)
  /\ options (self s') = options (self s)
  /\ (currentPassword (self s') = currentPassword (self s)
      \/ currentPassword (self s') = password).
Proof.
  unfold read_record, bind at 1, get. unfold bind at 1, lift_outcome.
  destruct (Base64.base64ToUint8Array (data r)) as [d|e0];
    [|intros H; injection H as _ <-; auto].
  unfold bind at 1.
  destruct (stored_encrypted r && isEncryptedData d).
  - destruct password as [w|]; [|intros H; injection H as _ <-; auto].
    destruct (truthy (Some w)); [|intros H; injection H as _ <-; auto].
    unfold bind at 1. unfold bind at 1. rewrite decryptData_outcome.
    destruct (length d <? 29)%nat; [intros H; injection H as _ <-; auto|].
    destruct (length w =? 0)%nat; [intros H; injection H as _ <-; auto|].
    destruct (negb _); [intros H; injection H as _ <-; auto|].
    destruct (crypto (env (world s)));
      [intros H; injection H as _ <-; auto | intros H; injection H as _ <-; auto |].
    destruct (aes_gcm_decrypt _ _ _) as [p|];
      [|intros H; injection H as _ <-; auto].
    unfold bind, modify, ret, lift_outcome.
    destruct (compression (options (self s)));
      [destruct (decompress p)|]; intros H; injection H as _ <-; cbn; auto.
  - unfold bind, ret, lift_outcome.
    destruct (compression (options (self s)));
      [destruct (decompress d)|]; intros H; injection H as _ <-; auto.
Qed.

(** X17. [loadFromStorage] never throws and only reads: whatever the store
    holds and whatever password it is given it returns, the data or null,
    leaving the database, the options and the store as they were; the
    current password it leaves too, or sets to the password it was given. *)
Theorem loadFromStorage_never_throws_and_only_reads
    (password : option DOMString) (s : Core.State) :
  exists result s',
    loadFromStorage password s = (Returned result, s')
    /\ db (self s') = db (self s)
    /\ options (self s') = options (self s)
    /\ stored (world s') = stored (world s)
    /\ (currentPassword (self s') = currentPassword (self s)
        \/ currentPassword (self s') = password).
Proof.
  assert (R : forall r, exists result s',
             try_catch (read_record r password) (fun _ => ret None) s
             = (Returned result, s')
             /\ db (self s') = db (self s)
             /\ options (self s') = options (self s)
             /\ stored (world s') = stored (world s)
             /\ (currentPassword (self s') = currentPassword (self s)
                 \/ currentPassword (self s') = password)).
  { intros r. unfold try_catch.
    pose proof (keeps_read_record r password s) as K.
    destruct (read_record r password s) as [[res|e] s1] eqn:E;
      destruct (read_record_effect _ _ _ _ _ E) as (R1 & R2 & R3);
      cbn [snd] in K; do 2 eexists; (split; [reflexivity|]); auto. }
  unfold loadFromStorage, bind at 1, get.
  destruct (Core.persistToStorage (options (self s)));
    [|do 2 eexists; split; [reflexivity|]; cbn; auto].
  cbn [negb].
  destruct (indexedDB (env (world s))) eqn:Hi.
  - unfold try_catch at 1, bind at 1, openIndexedDB, bind at 1, get. rewrite Hi.
    unfold ret at 1.
    destruct (store_get (getStorageKey s) (world s)) as [r|];
      [|do 2 eexists; split; [reflexivity|]; cbn; auto].
    destruct (String.length (data r) =? 0)%nat;
      [do 2 eexists; split; [reflexivity|]; cbn; auto|].
    apply (R r).
  - unfold try_catch at 1, bind at 1, openIndexedDB, bind at 1, get. rewrite Hi.
    do 2 eexists; split; [reflexivity|]; cbn; auto.
  - unfold try_catch at 1, bind at 1, openIndexedDB, bind at 1, get. rewrite Hi.
    unfold ret at 1.
    destruct (store_get (getStorageKey s) (world s)) as [r|];
      [|do 2 eexists; split; [reflexivity|]; cbn; auto].
    destruct (String.length (data r) =? 0)%nat;
      [do 2 eexists; split; [reflexivity|]; cbn; auto|].
    apply (R r).
Qed.


(** X19. [close] forgets the session: the database, the current password
    and the metadata are null afterwards, the options and the host are as
    before; and until a database is loaded again nothing can be saved:
    [exportDatabase], [saveToFile] of either class and [save] throw
    [Database not initialized] and [persistToStorage] returns undefined, all
    without any effect, and [getDatabaseSize] is 0. *)
Theorem close_forgets_the_session (s : Core.State) :
  exists s',
    close s = (Returned tt, s')
    /\ db (self s') = None
    /\ currentPassword (self s') = None
    /\ encryptionMetadata (self s') = None
    /\ options (self s') = options (self s)
    /\ world s' = world s
    /\ getDatabaseSize s' = 0%nat
    /\ exportDatabase s' = (Thrown (Error msg_no_db), s')
    /\ (forall filename password changePassword,
           Core.saveToFile filename password changePassword s'
           = (Thrown (Error msg_no_db), s')
           /\ CoreStorage.saveToFile filename password changePassword s'
              = (Thrown (Error msg_no_db), s'))
    /\ save s' = (Thrown (Error msg_no_db), s')
    /\ CoreStorage.persistToStorage s' = (Returned None, s').
Proof.
  eexists. split; [reflexivity|]. repeat (split; [reflexivity|]).
  split; [intros filename password changePassword; split; reflexivity|].
  split; reflexivity.
Qed.

End WithProvider.

End StorageProps.

(** ** File names, normalised content and the hooks of [verify] *)

Module TrustMoreProps.
Import Trust TrustProps.
Local Open Scope eff_scope.

(** *** The pattern, in words *)

(** X20. [extractHashFromFilename] returns a hash exactly for the names
    [stem + "." + hex + ext] where [hex] is 6 to 64 hexadecimal digits of
    either case and [ext] is [.html] in any mix of cases; the hash is then
    [hex] in lower case.  Every other name gives null. *)
Theorem extractHashFromFilename_characterised (filename h : string) :
  extractHashFromFilename filename = Some h <->
  exists stem hx ext,
    filename = (stem ++ "." ++ hx ++ ext)%string
    /\ forallb is_hex_class (chars hx) = true
    /\ (6 <= String.length hx <= 64)%nat
    /\ str (toLowerCase (chars ext)) = ".html"
    /\ h = str (toLowerCase (chars hx)).
Proof.
  rewrite extractHashFromFilename_spec. split.
  - intros (pre & d & hx & ext & E & M1 & M2 & M3 & M4 & ->).
    apply char_is_dot in M1. subst d. apply ends_dot_html_lower in M4.
    exists (str pre), (str hx), (str ext).
    rewrite !chars_str, str_length, M4.
    split; [|auto].
    rewrite <- (str_chars filename), E, <- (str_chars (_ ++ _)%string).
    now rewrite !chars_app, !chars_str.
  - intros (stem & hx & ext & -> & M2 & M3 & M4 & ->).
    exists (chars stem), "."%char, (chars hx), (chars ext).
    rewrite !chars_app, chars_length.
    split; [reflexivity|]. split; [reflexivity|]. split; [assumption|].
    split; [assumption|]. split; [|reflexivity].
    apply ends_dot_html_lower. rewrite <- (chars_str (toLowerCase _)), M4.
    reflexivity.
Qed.

(** *** The shape of normalised content *)

(** The first character, if any, is not white space. *)
Definition starts_plain (l : list ascii) : bool :=
  match l with
  | [] => true
  | c :: _ => negb (is_space c)
  end.

(** Every white-space character is a space that no white space follows. *)
Fixpoint single_spaced (l : list ascii) : bool :=
  match l with
  | [] => true
  | c :: rest =>
      (if is_space c then Ascii.eqb c " " && starts_plain rest else true)
      && single_spaced rest
  end.

Lemma collapse_single_spaced (l : list ascii) :
  forall in_run,
    single_spaced (collapse_spaces in_run l) = true
    /\ (in_run = true -> starts_plain (collapse_spaces in_run l) = true).
Proof.
  induction l as [|c l IH]; intros in_run; [split; reflexivity|].
  cbn [collapse_spaces]. destruct (is_space c) eqn:E.
  - destruct in_run.
    + apply IH.
    + split; [|discriminate]. cbn [single_spaced].
      change (is_space " ") with true. cbn iota.
      destruct (IH true) as [-> ->]; reflexivity.
  - split.
    + cbn [single_spaced]. rewrite E. apply IH.
    + intros _. cbn [starts_plain]. now rewrite E.
Qed.

Lemma single_spaced_tail (c : ascii) (l : list ascii) :
  single_spaced (c :: l) = true -> single_spaced l = true.
Proof. cbn [single_spaced]. intros H. now apply andb_true_iff in H. Qed.

Lemma drop_spaces_single_spaced (l : list ascii) :
  single_spaced l = true -> single_spaced (drop_spaces l) = true.
Proof.
  induction l as [|c l IH]; [reflexivity|]. intros H. cbn [drop_spaces].
  destruct (is_space c); [|assumption]. apply IH. now apply single_spaced_tail in H.
Qed.

Lemma drop_spaces_starts_plain (l : list ascii) : starts_plain (drop_spaces l) = true.
Proof.
  induction l as [|c l IH]; [reflexivity|]. cbn [drop_spaces].
  destruct (is_space c) eqn:E; [assumption|]. cbn [starts_plain]. now rewrite E.
Qed.

(** What [drop_spaces] drops, and what is left, make up the list. *)
Lemma drop_spaces_suffix (l : list ascii) :
  exists dropped, l = dropped ++ drop_spaces l.
Proof.
  induction l as [|c l (dropped & IH)]; [now exists []|]. cbn [drop_spaces].
  destruct (is_space c); [|now exists []].
  exists (c :: dropped). cbn [app]. now rewrite <- IH.
Qed.

Lemma single_spaced_prefix (p q : list ascii) :
  single_spaced (p ++ q) = true -> single_spaced p = true.
Proof.
  induction p as [|c p IH]; [reflexivity|]. cbn [app single_spaced].
  intros H. apply andb_true_iff in H. destruct H as [H1 H2].
  rewrite (IH H2), andb_true_r.
  destruct (is_space c); [|reflexivity].
  apply andb_true_iff in H1. destruct H1 as [-> H1].
  destruct p; [reflexivity | exact H1].
Qed.

Lemma starts_plain_prefix (p q : list ascii) :
  starts_plain (p ++ q) = true -> starts_plain p = true.
Proof. destruct p; [reflexivity | trivial]. Qed.

(** [trim] keeps a stretch of the list that starts and ends on characters
    that are not white space. *)
Lemma trim_shape (l : list ascii) :
  single_spaced l = true ->
  single_spaced (trim l) = true
  /\ starts_plain (trim l) = true
  /\ starts_plain (rev (trim l)) = true.
Proof.
  intros H. unfold trim.
  destruct (drop_spaces_suffix (rev (drop_spaces l))) as [dropped E].
  assert (P : drop_spaces l
              = rev (drop_spaces (rev (drop_spaces l))) ++ rev dropped).
  { rewrite <- rev_app_distr, <- E. symmetry. apply rev_involutive. }
  split; [|split].
  - apply single_spaced_prefix with (rev dropped). rewrite <- P.
    now apply drop_spaces_single_spaced.
  - apply starts_plain_prefix with (rev dropped). rewrite <- P.
    apply drop_spaces_starts_plain.
  - rewrite rev_involutive. apply drop_spaces_starts_plain.
Qed.

Lemma collapse_plain_start (l : list ascii) :
  starts_plain l = true -> collapse_spaces true l = collapse_spaces false l.
Proof.
  destruct l as [|c l]; [reflexivity|]. cbn [starts_plain collapse_spaces].
  intros H. apply negb_true_iff in H. now rewrite H.
Qed.

Lemma collapse_fixed (l : list ascii) :
  single_spaced l = true -> collapse_spaces false l = l.
Proof.
  induction l as [|c l IH]; [reflexivity|]. cbn [single_spaced collapse_spaces].
  intros H. apply andb_true_iff in H. destruct H as [H1 H2].
  destruct (is_space c).
  - apply andb_true_iff in H1. destruct H1 as [Hc Hl].
    apply Ascii.eqb_eq in Hc. subst c.
    rewrite (collapse_plain_start l Hl), (IH H2). reflexivity.
  - now rewrite (IH H2).
Qed.

Lemma drop_spaces_fixed (l : list ascii) :
  starts_plain l = true -> drop_spaces l = l.
Proof.
  destruct l as [|c l]; [reflexivity|]. cbn [starts_plain drop_spaces].
  intros H. apply negb_true_iff in H. now rewrite H.
Qed.

(** X21. Whenever [normalizeHTML] returns, whatever the selectors and the
    document, the text it returns holds no white space but single spaces,
    none of them first or last; and normalising such a text again, with
    nothing to strip, gives it back unchanged.  It returns for every document
    when the selectors are made of letters, digits, [-], [_], [#] and
    [.]. *)
Theorem normalizeHTML_output_is_normal {RX : RegExpEngine}
    (selectors : list string) (html : string) :
  (forallb plain_selector selectors = true ->
   exists normalized, normalizeHTML selectors html = Returned normalized)
  /\ (forall normalized,
         normalizeHTML selectors html = Returned normalized ->
         single_spaced (chars normalized) = true
         /\ starts_plain (chars normalized) = true
         /\ starts_plain (rev (chars normalized)) = true
         /\ normalizeHTML [] normalized = Returned normalized).
Proof.
  split; [apply normalizeHTML_plain|].
  intros normalized. unfold normalizeHTML at 1.
  destruct (strip_selectors selectors (chars html)) as [stripped|e];
    [|discriminate].
  intros E. injection E as <-.
  destruct (trim_shape (collapse_spaces false stripped))
    as (T1 & T2 & T3); [apply collapse_single_spaced|].
  rewrite chars_str. repeat (split; [assumption|]).
  unfold normalizeHTML. cbn [strip_selectors].
  rewrite chars_str, (collapse_fixed _ T1). do 2 f_equal.
  unfold trim at 1. rewrite (drop_spaces_fixed _ T2), (drop_spaces_fixed _ T3).
  apply rev_involutive.
Qed.

(** *** Names that verify, hooks that fail *)

Section WithProvider.
Context {SC : SubtleCrypto} {RX : RegExpEngine}.

(** The state of [s] for a document saved under [filename]. *)
Definition renamed (filename : string) (s : State) : State :=
  {| self := self s;
     world := {| crypto := crypto (world s); doc_filename := filename;
                 doc_badge := doc_badge (world s);
                 doc_outerHTML := doc_outerHTML (world s);
                 renderBadge_throws := renderBadge_throws (world s);
                 callback_throws := callback_throws (world s) |} |}.

Lemma prefix_substring0 (n : nat) (s : string) :
  (n <= String.length s)%nat -> prefix (substring 0 n s) s = true.
Proof.
  intros H. apply prefix_correct. now rewrite substring0_length.
Qed.

(** X22. A document saved under the name [generateCommitFilename] gives it
    verifies: when its content can be normalised, for a hash length between
    6 and 64, a 32-byte digest and hooks that do not throw, [verify] on the
    document named [generateCommitFilename(basename, html)] with content
    [html] answers VERIFIED with the short hash of the name and the full
    digest. *)
Theorem generated_name_verifies :
  sha256_is_32_bytes SC ->
  forall (basename normalized : string) (s : State),
    crypto (world s) = Core.WebCrypto ->
    normalizeHTML (excludeSelectors (config (self s))) (getHTMLContent s)
    = Returned normalized ->
    (6 <= hashLength (config (self s)) <= 64)%Z ->
    hook_error s = None ->
    exists filename,
      generateCommitFilename basename (getHTMLContent s) s = (Returned filename, s)
      /\ fst (verify (renamed filename s))
         = Returned (VERIFIED
                       (slice0 (hashLength (config (self s))) (digest_of normalized))
                       (digest_of normalized)
                       filename).
Proof.
  intros Hsha basename normalized s Hc Hn Hlen Hh.
  set (html := getHTMLContent s) in *.
  pose proof (digest_length normalized Hsha) as Hd.
  set (n := Z.to_nat (hashLength (config (self s)))).
  assert (Hs : slice0 (hashLength (config (self s))) (digest_of normalized)
               = substring 0 n (digest_of normalized)).
  { replace (hashLength (config (self s))) with (Z.of_nat n)
      by (unfold n; apply Z2Nat.id; lia).
    apply slice0_within. unfold n. lia. }
  pose proof (generateCommitFilename_returns basename html normalized s
                Hsha Hc Hn Hlen) as Hg.
  assert (Hx : extractHashFromFilename
                 (basename ++ "." ++ substring 0 n (digest_of normalized) ++ ".html")
               = Some (substring 0 n (digest_of normalized))).
  { rewrite (addressed_extract _ (substring 0 n (digest_of normalized))).
    - now rewrite (toLowerCase_lower _ (short_hash_lower n normalized)), str_chars.
    - apply generated_name_addressed; [assumption | unfold n; lia]. }
  fold n in Hg.
  set (filename := (basename ++ "." ++ substring 0 n (digest_of normalized)
                    ++ ".html")%string) in *.
  exists filename. split; [exact Hg|].
  assert (Hcl : classify (renamed filename s)
                = (Returned (VERIFIED (substring 0 n (digest_of normalized))
                               (digest_of normalized) filename),
                   renamed filename s)).
  { unfold classify, bind at 1, get. cbn [world renamed doc_filename].
    rewrite Hx.
    replace (String.length (substring 0 n (digest_of normalized)) =? 0)%nat
      with false
      by (symmetry; apply Nat.eqb_neq; rewrite substring0_length; unfold n; lia).
    change (getHTMLContent (renamed filename s)) with html. unfold bind.
    rewrite (generateContentHash_returns html normalized (renamed filename s) Hc Hn).
    rewrite prefix_substring0 by (unfold n; lia). reflexivity. }
  destruct (verify_after_classify _ _ Hcl) as (s' & Hv & _).
  rewrite Hv. cbn [fst].
  change (hook_error (renamed filename s)) with (hook_error s).
  now rewrite Hh, Hs.
Qed.

(** X23. A hook that throws turns the answer of [verify] into UNVERIFIED,
    whatever the classification was.  When [renderBadge] throws, [verify]
    returns and stores [Verification error: ...] with the hook's message and
    the callback is not called; the badge the document held has been removed
    by then, and unless the new one had already been appended the document
    is left without a badge.  When the callback throws, [verify] answers the
    same, while the badge rendered just before shows the classification. *)
Theorem failing_hook_turns_the_answer_into_unverified (s : State)
    (result : VerificationResult) (e : JsError) :
  classify s = (Returned result, s) ->
  let failed := UNVERIFIED ("Verification error: " ++ message e)%string None in
  (forall step,
      showBadge (config (self s)) = true ->
      renderBadge_throws (world s) = Some (step, e) ->
      exists s',
        verify s = (Returned failed, s')
        /\ verificationResult (self s') = Some failed
        /\ notified (self s') = notified (self s)
        /\ doc_badge (world s')
           = match step with
             | AtAttachListeners => Some (Some result)
             | _ => None
             end
        /\ badgeElement (self s')
           = match step with
             | AtCreateBadgeElement => badgeElement (self s)
             | _ => Some (Some result)
             end)
  /\ (hasCallback (config (self s)) = true ->
      callback_throws (world s) = Some e ->
      (showBadge (config (self s)) = true -> renderBadge_throws (world s) = None) ->
      exists s',
        verify s = (Returned failed, s')
        /\ verificationResult (self s') = Some failed
        /\ notified (self s') = notified (self s)
        /\ doc_badge (world s')
           = (if showBadge (config (self s)) then Some (Some result)
              else doc_badge (world s))
        /\ badgeElement (self s')
           = (if showBadge (config (self s)) then Some (Some result)
              else badgeElement (self s))).
Proof.
  intros Hcl failed.
  assert (Hv : verify s
               = try_catch
                   ((modify (set_verificationResult result) ;;;
                     s0 <- get ;;
                     (if showBadge (config (self s0)) then renderBadge else ret tt) ;;;
                     (if hasCallback (config (self s0))
                      then onVerificationComplete result else ret tt) ;;;
                     ret result)%eff)
                   (fun error =>
                      (modify (set_verificationResult
                                 (UNVERIFIED ("Verification error: " ++ message error)
                                             None)) ;;;
                       ret (UNVERIFIED ("Verification error: " ++ message error)
                                       None))%eff) s).
  { unfold verify, try_catch, bind at 1. rewrite Hcl. reflexivity. }
  rewrite Hv. clear Hv. split.
  - intros step Hb He.
    unfold try_catch, renderBadge, badge_step, onVerificationComplete,
      bind, modify, get, ret, throw.
    cbn [set_verificationResult set_doc_badge set_badgeElement self world config
         renderBadge_throws callback_throws].
    rewrite Hb. destruct step; repeat (cbn; rewrite ?He);
      eexists; (split; [reflexivity|]); cbn; auto.
  - intros Hk He Hb.
    unfold try_catch, renderBadge, badge_step, onVerificationComplete,
      bind, modify, get, ret, throw.
    cbn [set_verificationResult set_doc_badge set_badgeElement self world config
         renderBadge_throws callback_throws].
    rewrite Hk. destruct (showBadge (config (self s))) eqn:B.
    + pose proof (Hb eq_refl) as R. repeat (cbn; rewrite ?He, ?R).
      eexists. split; [reflexivity|]. cbn. auto.
    + repeat (cbn; rewrite ?He). eexists. split; [reflexivity|]. cbn. auto.
Qed.

End WithProvider.

End TrustMoreProps.

(** ** Queries, resets and the exported state of the simulator *)

Module CommitsStateProps.
Import Commits CommitsProps CommitsState.
Local Open Scope eff_scope.

Section WithHost.
Context {SC : SubtleCrypto} {RT : Runtime}.

(** The rows of [entries]. *)
Definition rows (s : State) : list Entry :=
  match db (self s) with
  | Some d => entries d
  | None => []
  end.

(** X24. [ensureInitialCommit] is idempotent: called again right after
    itself it changes nothing, and on every state an initialised simulator
    can reach it changes nothing at all, so the store never gets a second
    root. *)
Theorem ensureInitialCommit_is_idempotent (s : State) :
  ensureInitialCommit (snd (ensureInitialCommit s))
  = (Returned tt, snd (ensureInitialCommit s))
  /\ (reachable s -> ensureInitialCommit s = (Returned tt, s)).
Proof.
  split.
  - assert (H : exists h,
               commitHash (metadata (self (snd (ensureInitialCommit s)))) = Some h).
    { unfold ensureInitialCommit, bind, get.
      destruct (commitHash (metadata (self s))) as [h|] eqn:H; [now exists h|].
      unfold read_clock, modify, db_run.
      cbn [self world db set_metadata metadata].
      destruct (db (self s)) as [d|];
        [destruct (insert_or_ignore_commit _ d)|]; cbn [snd];
        eexists; reflexivity. }
    destruct H as [h H]. now apply ensureInitialCommit_idle with h.
  - intros R. apply reachable_inv in R. destruct R as (_ & (h & H) & _).
    now apply ensureInitialCommit_idle with h.
Qed.

(** X25. [clearData] brings every reachable state back to a first run: it
    returns, and afterwards [getEntryCount] is 0, [getCommitCount] is 1,
    [isFirstRun] is true and the one record left is a root.  The metadata is
    not reset: the head still names the commit it named before. *)
Theorem clearData_returns_to_the_first_run (s : State) :
  reachable s ->
  exists s',
    clearData s = (Returned tt, s')
    /\ getEntryCount s' = (Returned 0%nat, s')
    /\ getCommitCount s' = (Returned 1%nat, s')
    /\ isFirstRun s' = (Returned true, s')
    /\ (forall c, In c (table s') -> parent_hash c = None)
    /\ metadata (self s') = metadata (self s).
Proof.
  intros R. apply reachable_inv in R. destruct R as ((d & D) & _ & R).
  unfold one_root, table in R. rewrite D in R.
  unfold clearData, bind, db_run. rewrite D.
  cbn [delete_entries set_db self db delete_child_commits].
  eexists. split; [reflexivity|].
  unfold getEntryCount, getCommitCount, isFirstRun, db_exec, table.
  cbn [self db entries commits metadata set_db sequence]. rewrite R.
  repeat (split; [reflexivity|]). split; [|reflexivity].
  intros c Hc. apply filter_In in Hc. destruct Hc as [_ Hc].
  unfold is_root in Hc. now destruct (parent_hash c).
Qed.

(** X26. [addEntry] is not atomic: when the hash it computes is already in
    the store the commit insert raises, but the entry row inserted before it
    stays, so the entry count has grown by one while the commit count and
    the head have not moved. *)
Theorem colliding_addEntry_keeps_the_entry_row (t : string) (s : State)
    (d : Database) :
  db (self s) = Some d ->
  fresh t s = false ->
  exists s',
    addEntry t s = (Thrown (Error "UNIQUE constraint failed: commits.hash"), s')
    /\ rows s'
       = {| id := S (sequence d); text := t;
            entry_created_at := clock (world s) (ticks (world s)) |} :: rows s
    /\ getEntryCount s' = (Returned (S (length (entries d))), s')
    /\ getCommitCount s' = (Returned (length (commits d)), s')
    /\ metadata (self s') = metadata (self s).
Proof.
  intros D. unfold fresh. rewrite D. intros F. apply negb_false_iff in F.
  unfold addEntry, bind, read_clock, db_run, get, modify, ret.
  cbn [self world db set_db]. rewrite D. cbn [insert_entry self world db set_db].
  unfold insert_commit.
  assert (E : generateHash
                (commit_data t (clock (world s) (S (ticks (world s))))
                   {| self := {| db := Some
                         {| entries := {| id := S (sequence d); text := t;
                                          entry_created_at := clock (world s) (ticks (world s)) |}
                                       :: entries d;
                            sequence := S (sequence d); commits := commits d |};
                         sqlJS := sqlJS (self s);
                         metadata := metadata (self s) |};
                      world := {| clock := clock (world s);
                                  ticks := S (S (ticks (world s))) |} |})
              = next_hash t s).
  { unfold next_hash, staged, bind, read_clock, db_run. cbn [self world db set_db].
    rewrite D. reflexivity. }
  cbn [hash metadata self world clock ticks]. rewrite E.
  unfold has_hash in *. cbn [commits]. rewrite F.
  eexists. split; [reflexivity|].
  unfold rows, getEntryCount, getCommitCount, db_exec.
  cbn [self db entries commits length metadata]. rewrite D. auto.
Qed.

End WithHost.

Section Exported.
Context {SC : SubtleCrypto} {RT : Runtime} {EG : Engine}.

(** The runtime's [btoa] of a byte string is the standard one. *)
Definition standard_btoa : Prop :=
  forall bytes, btoa bytes = Base64.btoa (Base64.fromCharCode bytes).

(** X27. [importState] restores what [exportState] exported: when the engine
    reopens the exported image as the database it was taken from, a simulator
    whose engine is set ([init] sets it) and that imports the exported state
    has the database and the metadata of the exporting one (its clock is its
    own), so that the chain goes on across the save and the load: the next
    [addEntry] whose hash is new appends a record whose parent is the
    exported head. *)
Theorem importState_restores_the_exported_state (s s2 : State) (d : Database) :
  standard_btoa ->
  db (self s) = Some d ->
  db_open (db_export d) = d ->
  sqlJS (self s2) = true ->
  let loaded :=
    {| self := {| db := Some d; sqlJS := true; metadata := metadata (self s) |};
       world := world s2 |} in
  exists exported,
    exportState s = (Returned exported, s)
    /\ importState exported s2 = (Returned tt, loaded)
    /\ forall t,
         fresh t loaded = true ->
         exists h s3,
           addEntry t loaded = (Returned h, s3)
           /\ map link (table s3)
              = (h, commitHash (metadata (self s))) :: map link (table s).
Proof.
  intros Hstd D Ho J loaded. unfold exportState. rewrite D.
  eexists. split; [reflexivity|]. split.
  - unfold importState. cbn [dbBase64 exported_metadata].
    rewrite Hstd, Base64Props.atob_btoa, J. unfold Base64.fromCharCode.
    rewrite TrustProps.chars_str, map_map.
    rewrite (map_ext _ (fun b => b)) by apply byte_of_ascii_of_byte.
    rewrite map_id, Ho. reflexivity.
  - intros t F. destruct (addEntry_fresh t loaded F) as (s3 & E & T & _).
    exists (next_hash t loaded), s3. split; [exact E|].
    rewrite T. unfold table, loaded. cbn [self db metadata]. rewrite D.
    reflexivity.
Qed.

End Exported.

End CommitsStateProps.

(** ** Saving and loading on concrete sessions *)

Module LoadExamples.
Import Core CoreProps CoreLoad CoreLoadProps SavePayloadProps LoadProps StorageProps.
#[local] Existing Instance Toy.crypto.
#[local] Existing Instance ToyLoad.engine.

Definition image : list byte := ToyLoad.sqlite_image.



(** A session with encryption on and no password at all. *)
Definition unlocked_session : Core.State :=
  ToyLoad.state false false (Some image) None (Some Completes).

Lemma saveToFile_without_password_changes_nothing_witness :
  @Core.saveToFile Toy.crypto (ToyLoad.page false) "app.html" None false
    unlocked_session
  = (Thrown (Error ("Save failed: " ++ msg_need_password)), unlocked_session).
Proof.
  apply (saveToFile_without_password_changes_nothing
           (SC := Toy.crypto) (PG := ToyLoad.page false)
           "app.html" None false unlocked_session image);
    reflexivity.
Defined.

(** The envelope a compressing session makes of [image] under [pw]. *)
Definition encrypting : Core.State :=
  ToyLoad.state true false (Some image) (Some (wide "pw")) None.

Definition saved : list byte :=
  @envelope_of Toy.crypto (ToyLoad.page true) image (wide "pw") encrypting.

(** A new session opened on the document that embeds [payload]. *)
Definition reopened (compression : bool) (payload : list byte) : CoreLoad.State :=
  ToyLoad.opening (ToyLoad.state compression false None None None)
                  (Some (ToyLoad.embedded payload)).

Lemma toy_unpacks (s : Core.State) : @unpacks (ToyLoad.page true) ToyLoad.engine s.
Proof.
  intros _. exists ToyLoad.gzip. split; [reflexivity|]. intros d. reflexivity.
Qed.

Lemma loadEmbeddedDatabase_reads_back_what_was_encrypted_witness :
  exists st',
    @loadEmbeddedDatabase Toy.crypto (ToyLoad.page true) ToyLoad.engine
      (Some (wide "pw")) (reopened true saved)
    = (Returned image, st')
    /\ db (self (session st')) = Some image
    /\ currentPassword (self (session st')) = Some (wide "pw")
    /\ encryptionMetadata (self (session st')) = Some decrypted_metadata.
Proof.
  apply (loadEmbeddedDatabase_reads_back_what_was_encrypted
           (SC := Toy.crypto) (PG := ToyLoad.page true) (EN := ToyLoad.engine)
           ToyProps.crypto_correct image (wide "pw") encrypting (after_encrypt encrypting)
           saved (reopened true saved));
    [vm_compute; reflexivity | reflexivity | apply toy_unpacks | reflexivity
    | right; reflexivity | reflexivity].
Defined.

(** An envelope that is not compressed, for a session without pako. *)
Definition plain_saved : list byte :=
  @envelope_of Toy.crypto (ToyLoad.page false) image (wide "pw")
    (ToyLoad.state false false (Some image) (Some (wide "pw")) None).

Lemma loadEmbeddedDatabase_rejects_without_the_password_witness :
  @loadEmbeddedDatabase Toy.crypto (ToyLoad.page false) ToyLoad.engine
    None (reopened false plain_saved)
  = (Thrown (Error ("Failed to load database: " ++ msg_encrypted_db)),
     started (reopened false plain_saved))
  /\ exists st',
       @loadEmbeddedDatabase Toy.crypto (ToyLoad.page false) ToyLoad.engine
         (Some (wide "wrong")) (reopened false plain_saved)
       = (Thrown (Error ("Failed to load database: " ++ msg_decrypt)), st')
       /\ self (session st') = self (session (reopened false plain_saved)).
Proof.
  destruct (loadEmbeddedDatabase_rejects_without_the_password
              (SC := Toy.crypto) (PG := ToyLoad.page false) (EN := ToyLoad.engine)
              (salt_of (ToyLoad.state false false (Some image) (Some (wide "pw")) None))
              (iv_of (ToyLoad.state false false (Some image) (Some (wide "pw")) None))
              (sealed image (wide "pw") (ToyLoad.state false false (Some image) (Some (wide "pw")) None))
              (reopened false plain_saved))
    as [H1 H2];
    [reflexivity | reflexivity | reflexivity | right; reflexivity | reflexivity |].
  split.
  - apply H1. reflexivity.
  - apply H2; [discriminate | reflexivity | vm_compute; reflexivity].
Defined.

Lemma loadEmbeddedDatabase_opens_plain_payloads_unchecked_witness :
  @loadEmbeddedDatabase Toy.crypto (ToyLoad.page false) ToyLoad.engine
    (Some (wide "any")) (reopened false image)
  = (Returned image,
     on_session (on_self (set_db (Some image))) (started (reopened false image))).
Proof.
  apply (loadEmbeddedDatabase_opens_plain_payloads_unchecked
           (SC := Toy.crypto) (PG := ToyLoad.page false) (EN := ToyLoad.engine)
           image (Some (wide "any")) (reopened false image));
    [discriminate | reflexivity | reflexivity | right; reflexivity | reflexivity].
Defined.

Lemma compression_without_pako_saves_but_does_not_load_witness :
  @compress (ToyLoad.page false) image = image
  /\ @loadEmbeddedDatabase Toy.crypto (ToyLoad.page false) ToyLoad.engine
       None (reopened true image)
     = (Thrown (Error ("Failed to load database: " ++ msg_no_pako)),
        started (reopened true image)).
Proof.
  destruct (compression_without_pako_saves_but_does_not_load
              (SC := Toy.crypto) (PG := ToyLoad.page false) (EN := ToyLoad.engine)
              eq_refl) as [H1 H2].
  split; [apply H1|].
  destruct (H2 None (reopened true image) (ToyLoad.embedded image))
    as [_ H3]; [reflexivity | right; reflexivity | reflexivity
               | vm_compute; reflexivity |].
  apply (H3 image); vm_compute; reflexivity.
Defined.

(** A document without the script element. *)
Definition elementless : CoreLoad.State :=
  ToyLoad.opening (ToyLoad.state false false (Some image) (Some (wide "pw")) None) None.

Lemma loadEmbeddedDatabase_failure_keeps_the_database_witness :
  db (self (session (started elementless))) = Some image
  /\ currentPassword (self (session (started elementless))) = Some (wide "pw").
Proof.
  destruct (loadEmbeddedDatabase_failure_keeps_the_database
              (SC := Toy.crypto) (PG := ToyLoad.page false) (EN := ToyLoad.engine)
              None elementless (started elementless)
              (Error (msg_no_element "embedded-db")) eq_refl)
    as (H1 & _ & H3 & _).
  split; [exact H1|]. now rewrite (H3 eq_refl).
Defined.



End LoadExamples.

(** ** The IndexedDB copy on concrete sessions *)

Module StorageExamples.
Import Core CoreProps CoreLoad CoreLoadProps SavePayloadProps LoadProps StorageProps.
#[local] Existing Instance Toy.crypto.
#[local] Existing Instance ToyLoad.engine.

Definition image : list byte := ToyLoad.sqlite_image.


(** A persisting, compressing session with the password [pw], and one
    without a current password. *)
Definition persisting : Core.State :=
  ToyLoad.state true true (Some image) (Some (wide "pw")) None.





Lemma persistToStorage_never_stores_a_ciphertext_witness :
  exists s',
    @CoreStorage.persistToStorage Toy.crypto (ToyLoad.page true) persisting
    = (Returned (Some false), s')
    /\ @CoreStorageLoad.save Toy.crypto (ToyLoad.page true) persisting
       = (Returned (Some false), s')
    /\ stored (world s') = []
    /\ currentPassword (self s') = Some (wide "pw").
Proof.
  destruct (proj1 (persistToStorage_never_stores_a_ciphertext
                     (SC := Toy.crypto) (PG := ToyLoad.page true))
              persisting image (wide "pw"))
    as (s' & P & S & K & U);
    [reflexivity | reflexivity | reflexivity | reflexivity | discriminate |].
  exists s'. split; [exact P|]. split; [exact S|]. split; [exact K|].
  destruct U as (_ & _ & W & _). exact W.
Defined.




End StorageExamples.

(** ** The simulator on concrete runs *)

Module CommitsStateExamples.
Import Commits CommitsProps CommitsState CommitsStateProps.
#[local] Existing Instance Toy.crypto.

(** One entry appended to a fresh store. *)
Definition one_entry : State :=
  @perform Toy.crypto Toy.runtime (AddEntry "note")
    (@initialised Toy.crypto Toy.runtime Toy.ticking).

Lemma clearData_returns_to_the_first_run_witness :
  exists s',
    clearData one_entry = (Returned tt, s')
    /\ getEntryCount s' = (Returned 0%nat, s')
    /\ getCommitCount s' = (Returned 1%nat, s')
    /\ isFirstRun s' = (Returned true, s').
Proof.
  destruct (clearData_returns_to_the_first_run (SC := Toy.crypto) (RT := Toy.runtime)
              one_entry) as (s' & H1 & H2 & H3 & H4 & _).
  - exact (reachable_step _ (AddEntry "note") (reachable_init Toy.ticking)).
  - exists s'. auto.
Defined.

(** A store whose clock stands still: the next entry collides with the
    root. *)
Definition stalled : State := @initialised Toy.crypto Toy.runtime Toy.frozen.

Lemma colliding_addEntry_keeps_the_entry_row_witness :
  exists s',
    @addEntry Toy.crypto Toy.runtime "x" stalled
    = (Thrown (Error "UNIQUE constraint failed: commits.hash"), s')
    /\ getEntryCount s' = (Returned 1%nat, s')
    /\ getCommitCount s' = (Returned 1%nat, s').
Proof.
  destruct (colliding_addEntry_keeps_the_entry_row (SC := Toy.crypto) (RT := Toy.runtime)
              "x" stalled
              {| entries := []; sequence := 0;
                 commits := [@root_commit Toy.crypto Toy.runtime Toy.frozen] |}
              eq_refl eq_refl)
    as (s' & H1 & _ & H3 & H4 & _).
  exists s'. auto.
Defined.

(** A simulator with the standard [btoa], exporting; another one,
    initialised later, importing. *)
Definition exporting : State :=
  @initialised Toy.crypto ToyLoad.runtime Toy.ticking.

Definition importing : State :=
  @initialised Toy.crypto ToyLoad.runtime Toy.frozen.

Lemma importState_restores_the_exported_state_witness :
  exists exported,
    @exportState ToyLoad.runtime exporting = (Returned exported, exporting)
    /\ @importState ToyLoad.simulator_engine exported importing
       = (Returned tt, {| self := self exporting; world := world importing |}).
Proof.
  destruct (importState_restores_the_exported_state
              (SC := Toy.crypto) (RT := ToyLoad.runtime) (EG := ToyLoad.simulator_engine)
              exporting importing ToyLoad.fresh_database)
    as (exported & H1 & H2 & _);
    [intros bytes; reflexivity | reflexivity | reflexivity | reflexivity |].
  exists exported. auto.
Defined.

End CommitsStateExamples.

(** ** Names and hooks on concrete documents *)

Module TrustMoreExamples.
Import Trust TrustProps TrustMoreProps.
#[local] Existing Instance Toy.crypto.
#[local] Existing Instance Toy.regexp.

Lemma generated_name_verifies_witness :
  exists filename,
    generateCommitFilename "app" TrustExamples.page
      (TrustExamples.opened "app.html" TrustExamples.page)
    = (Returned filename, TrustExamples.opened "app.html" TrustExamples.page)
    /\ fst (verify (renamed filename
                      (TrustExamples.opened "app.html" TrustExamples.page)))
       = Returned (VERIFIED "3c68746d"
                     "3c68746d6c3e3c626f64793e546573743c2f626f64793e3c2f68746d6c3e0000"
                     filename).
Proof.
  destruct (generated_name_verifies (SC := Toy.crypto) (RX := Toy.regexp)
              ToyProps.crypto_sha256_length
              "app" TrustExamples.page
              (TrustExamples.opened "app.html" TrustExamples.page))
    as (filename & H1 & H2);
    [reflexivity | reflexivity | cbn; lia | reflexivity |].
  exists filename. split; [exact H1 | exact H2].
Defined.

(** A document that verifies and shows the badge of an earlier run, on a
    page where building the new badge throws. *)
Definition verified : VerificationResult :=
  VERIFIED "3c68746d"
    "3c68746d6c3e3c626f64793e546573743c2f626f64793e3c2f68746d6c3e0000"
    "app.3c68746d.html".

Definition faulty_badge : State :=
  {| self := {| config := {| hashLength := 8; showBadge := true;
                             excludeSelectors := ["#trust-badge"; ".trust-modal"];
                             hasCallback := true |};
                verificationResult := Some verified;
                badgeElement := Some (Some verified); notified := [] |};
     world := {| crypto := Core.WebCrypto; doc_filename := "app.3c68746d.html";
                 doc_badge := Some (Some verified);
                 doc_outerHTML := TrustExamples.with_badge TrustExamples.page;
                 renderBadge_throws :=
                   Some (AtCreateBadgeElement,
                         mkError "TypeError" "x is not a function");
                 callback_throws := None |} |}.

Lemma failing_hook_turns_the_answer_into_unverified_witness :
  classify faulty_badge = (Returned verified, faulty_badge)
  /\ doc_badge (world faulty_badge) = Some (Some verified)
  /\ exists s',
       verify faulty_badge
       = (Returned (UNVERIFIED "Verification error: x is not a function" None), s')
       /\ doc_badge (world s') = None
       /\ badgeElement (self s') = Some (Some verified)
       /\ notified (self s') = [].
Proof.
  split; [reflexivity|]. split; [reflexivity|].
  destruct (failing_hook_turns_the_answer_into_unverified (SC := Toy.crypto)
              (RX := Toy.regexp)
              faulty_badge verified (mkError "TypeError" "x is not a function")
              eq_refl) as [H _].
  destruct (H AtCreateBadgeElement eq_refl eq_refl) as (s' & H1 & _ & H3 & H4 & H5).
  exists s'. split; [exact H1|]. split; [exact H4|]. split; [exact H5 | exact H3].
Defined.

End TrustMoreExamples.
